(** * KamaCache: the cache-policy comparison driver (testAllCachePolicy.cpp)

    A shallow embedding of the driver classes [CacheTest],
    [HotDataAccessTest], [LoopPatternTest] and [WorkloadShiftTest], of
    [CacheTestManager] and [main], and of the three cache policies behind
    [KICachePolicy].

    - C++ [int] is a [Z] in the range [INT_MIN .. INT_MAX]; the operations
      whose behaviour is undefined in C++ (division by zero, signed
      overflow) return a fault instead of a value.
    - [std::mt19937] is an oracle: an arbitrary sequence of 32-bit words
      together with the number of words drawn so far.
    - The cache behind a [KICachePolicy] pointer is an abstract object with
      [put] and [get]; the driver is written once, over that interface.
    - Console output is elided; [showProgress] keeps only the integer
      modulo that decides whether a bar is drawn. *)

From Stdlib Require Import ZArith String Ascii DecimalString List Bool Lia.
Import ListNotations.
Open Scope Z_scope.

(** ** Undefined behaviour as a result *)

Inductive fault : Type :=
| DivByZero
| SignedOverflow.

Inductive res (A : Type) : Type :=
| Ok (a : A)
| UB (f : fault).

Arguments Ok {A} a.
Arguments UB {A} f.

Definition bind {A B : Type} (m : res A) (k : A -> res B) : res B :=
  match m with
  | Ok a => k a
  | UB f => UB f
  end.

Notation "x <- m ;; k" := (bind m (fun x => k))
  (at level 61, m at next level, right associativity).
Notation "m ;;; k" := (bind m (fun _ => k))
  (at level 61, right associativity).

Definition completes {A : Type} (m : res A) : bool :=
  match m with
  | Ok _ => true
  | UB _ => false
  end.

(** ** Machine integers *)

Definition INT_MIN : Z := - 2 ^ 31.
Definition INT_MAX : Z := 2 ^ 31 - 1.

Definition is_int (x : Z) : bool := (INT_MIN <=? x) && (x <=? INT_MAX).

(** Checked [int] arithmetic: the result, or the fault C++ leaves undefined. *)
Definition checked (x : Z) : res Z :=
  if is_int x then Ok x else UB SignedOverflow.

Definition sadd (a b : Z) : res Z := checked (a + b).
Definition ssub (a b : Z) : res Z := checked (a - b).
Definition smul (a b : Z) : res Z := checked (a * b).

(** [a / b] and [a % b] on [int] truncate towards zero. *)
Definition sdiv (a b : Z) : res Z :=
  if b =? 0 then UB DivByZero else checked (Z.quot a b).

Definition srem (a b : Z) : res Z :=
  if b =? 0 then UB DivByZero
  else if is_int (Z.quot a b) then Ok (Z.rem a b) else UB SignedOverflow.

(** [std::mt19937::result_type] is [uint_fast32_t]: an unsigned type of
    [W] bits, [W] being 32 or 64 with the platform.  An [int] operand of a
    mixed expression is converted to it, and the unsigned result is
    converted back to [int] when it is stored in an [int]. *)
Section Unsigned.
Variable W : Z.

Definition to_unsigned (x : Z) : Z := x mod 2 ^ W.

Definition to_int (u : Z) : Z := (u + 2 ^ 31) mod 2 ^ 32 - 2 ^ 31.

Definition uadd (a b : Z) : Z := (a + b) mod 2 ^ W.

(** [g % d] with [g] a generator word and [d] an [int]. *)
Definition urem (g d : Z) : res Z :=
  let d' := to_unsigned d in
  if d' =? 0 then UB DivByZero else Ok (g mod d').

(** [a + g % d] with [a] and [d] of type [int], stored in an [int]. *)
Definition offset_urem (a g d : Z) : res Z :=
  r <- urem g d ;; Ok (to_int (uadd (to_unsigned a) r)).
End Unsigned.

(** ** [for (int i = lo; i < hi; ++i) body] *)

Fixpoint for_loop {S : Type} (n : nat) (i : Z) (body : Z -> S -> res S)
  (s : S) : res S :=
  match n with
  | O => Ok s
  | Datatypes.S n' => s' <- body i s ;; for_loop n' (i + 1) body s'
  end.

Definition for_range {S : Type} (lo hi : Z) (body : Z -> S -> res S)
  (s : S) : res S :=
  for_loop (Z.to_nat (hi - lo)) lo body s.

(** ** [std::to_string(int)] *)

Definition to_string (k : Z) : string :=
  NilZero.string_of_int (Z.to_int k).

(** ** The cache interface [KICachePolicy<int, std::string>] *)

Class KICachePolicy (C : Type) : Type := {
  put : Z -> string -> C -> C;
  (** [get(key, value&)]: the value on a hit, and the cache afterwards. *)
  get : Z -> C -> option string * C
}.

Inductive CacheType : Type := LRU | LFU | ARC.

Definition CacheType_eqb (a b : CacheType) : bool :=
  match a, b with
  | LRU, LRU | LFU, LFU | ARC, ARC => true
  | _, _ => false
  end.

(** [std::map<CacheType, int>] with all three keys present; [m[t] = v]. *)
Definition counters : Type := CacheType -> Z.

Definition set_counter (m : counters) (t : CacheType) (v : Z) : counters :=
  fun t' => if CacheType_eqb t t' then v else m t'.

(** ** [std::mt19937]

    The generator is seeded from [std::random_device], so its output is
    not determined by the program: [words] is the sequence it is going to
    produce and [drawn] the number of calls made so far.  Each call
    yields a 32-bit word. *)
Record mt19937 : Type := {
  words : nat -> Z;
  drawn : nat
}.

Definition next (g : mt19937) : Z * mt19937 :=
  (words g (drawn g) mod 2 ^ 32,
   {| words := words g; drawn := S (drawn g) |}).

(** ** What the driver is linked against

    The cache classes of KArcCache.h, KLfuCache.h and KLruCache.h are used
    through [KICachePolicy] only: [C] is the type of the objects behind
    such a pointer, and the three constructors take the capacity.
    [word_bits] is the width of [uint_fast32_t], at least 32. *)
Class Harness : Type := {
  word_bits : Z;
  word_bits_ge : (32 <=? word_bits) = true;
  C : Type;
  C_policy :: KICachePolicy C;
  KLruCache : Z -> C;
  KLfuCache : Z -> C;
  KArcCache : Z -> C
}.

(** ** [CacheTest] *)

Module TestConfig.
Record t : Type := {
  capacity : Z;
  operations : Z;
  showProgressBar : bool;
  progressInterval : Z
}.

(** [TestConfig()] *)
Definition default : t :=
  {| capacity := 50; operations := 100000;
     showProgressBar := true; progressInterval := 10000 |}.
End TestConfig.

Section CacheTestClass.
Context `{Harness}.

Record CacheTest : Type := {
  config : TestConfig.t;
  testName : string;
  lruCache : C;
  lfuCache : C;
  arcCache : C;
  hits : counters;
  operations : counters;
  gen : mt19937
}.

(** [showProgress(current, total)].  When the bar is enabled the
    modulo by [progressInterval] is evaluated; what follows only prints
    (every caller passes [1 <= current <= total]). *)
Definition showProgress (cfg : TestConfig.t) (current total : Z)
  : res unit :=
  if negb (TestConfig.showProgressBar cfg) then Ok tt
  else _ <- srem current (TestConfig.progressInterval cfg) ;; Ok tt.

Definition getCache (type : CacheType) (t : CacheTest) : C :=
  match type with
  | LRU => lruCache t
  | LFU => lfuCache t
  | ARC => arcCache t
  end.

(** The object [getCache(type)] points to, replaced by [c]. *)
Definition setCache (type : CacheType) (c : C) (t : CacheTest)
  : CacheTest :=
  {| config := config t; testName := testName t;
     lruCache := match type with LRU => c | _ => lruCache t end;
     lfuCache := match type with LFU => c | _ => lfuCache t end;
     arcCache := match type with ARC => c | _ => arcCache t end;
     hits := hits t; operations := operations t; gen := gen t |}.

Definition initCaches (t : CacheTest) : CacheTest :=
  let cap := TestConfig.capacity (config t) in
  {| config := config t; testName := testName t;
     lruCache := KLruCache cap;
     lfuCache := KLfuCache cap;
     arcCache := KArcCache cap;
     hits := set_counter (set_counter (set_counter (hits t) LRU 0) LFU 0) ARC 0;
     operations :=
       set_counter (set_counter (set_counter (operations t) LRU 0) LFU 0) ARC 0;
     gen := gen t |}.

(** [CacheTest(name)], the generator seeded to [g].  The members are
    default-constructed (empty maps, no caches) and [initCaches] fills
    them at once. *)
Definition CacheTest_new (name : string) (g : mt19937) : CacheTest :=
  let cap := TestConfig.capacity TestConfig.default in
  initCaches
    {| config := TestConfig.default; testName := name;
       lruCache := KLruCache cap; lfuCache := KLfuCache cap;
       arcCache := KArcCache cap;
       hits := fun _ => 0; operations := fun _ => 0; gen := g |}.

Definition with_config (cfg : TestConfig.t) (t : CacheTest) : CacheTest :=
  {| config := cfg; testName := testName t;
     lruCache := lruCache t; lfuCache := lfuCache t; arcCache := arcCache t;
     hits := hits t; operations := operations t; gen := gen t |}.

Definition setCapacity (capacity : Z) (t : CacheTest) : CacheTest :=
  let cfg := config t in
  initCaches
    (with_config
       {| TestConfig.capacity := capacity;
          TestConfig.operations := TestConfig.operations cfg;
          TestConfig.showProgressBar := TestConfig.showProgressBar cfg;
          TestConfig.progressInterval := TestConfig.progressInterval cfg |} t).

Definition setOperations (n : Z) (t : CacheTest) : CacheTest :=
  let cfg := config t in
  with_config
    {| TestConfig.capacity := TestConfig.capacity cfg;
       TestConfig.operations := n;
       TestConfig.showProgressBar := TestConfig.showProgressBar cfg;
       TestConfig.progressInterval := TestConfig.progressInterval cfg |} t.

Definition setShowProgressBar (show : bool) (t : CacheTest) : CacheTest :=
  let cfg := config t in
  with_config
    {| TestConfig.capacity := TestConfig.capacity cfg;
       TestConfig.operations := TestConfig.operations cfg;
       TestConfig.showProgressBar := show;
       TestConfig.progressInterval := TestConfig.progressInterval cfg |} t.

Definition setProgressInterval (interval : Z) (t : CacheTest) : CacheTest :=
  let cfg := config t in
  with_config
    {| TestConfig.capacity := TestConfig.capacity cfg;
       TestConfig.operations := TestConfig.operations cfg;
       TestConfig.showProgressBar := TestConfig.showProgressBar cfg;
       TestConfig.progressInterval := interval |} t.

(** The statements the three drivers share. *)

(** [hits[type] = 0; operations[type] = 0;] *)
Definition resetStats (type : CacheType) (t : CacheTest) : CacheTest :=
  {| config := config t; testName := testName t;
     lruCache := lruCache t; lfuCache := lfuCache t; arcCache := arcCache t;
     hits := set_counter (hits t) type 0;
     operations := set_counter (operations t) type 0;
     gen := gen t |}.

(** [gen()] *)
Definition draw (t : CacheTest) : Z * CacheTest :=
  let (g, gen') := next (gen t) in
  (g, {| config := config t; testName := testName t;
         lruCache := lruCache t; lfuCache := lfuCache t;
         arcCache := arcCache t;
         hits := hits t; operations := operations t; gen := gen' |}).

(** [cache->put(key, value);] *)
Definition cache_put (type : CacheType) (key : Z) (value : string)
  (t : CacheTest) : CacheTest :=
  setCache type (put key value (getCache type t)) t.

(** [std::string result; operations[type]++;
    if (cache->get(key, result)) hits[type]++;] *)
Definition lookup (type : CacheType) (key : Z) (t : CacheTest)
  : CacheTest :=
  let ops' := set_counter (operations t) type (operations t type + 1) in
  let (result, c') := get key (getCache type t) in
  let hits' :=
    match result with
    | Some _ => set_counter (hits t) type (hits t type + 1)
    | None => hits t
    end in
  setCache type c'
    {| config := config t; testName := testName t;
       lruCache := lruCache t; lfuCache := lfuCache t;
       arcCache := arcCache t;
       hits := hits'; operations := ops'; gen := gen t |}.

(** [printResults] (lines 173-194) prints for each policy the hit rate
    [100.0 * hits.at(type) / operations.at(type)]: a division by
    [operations.at(type)], made in floating point; the quotient is only
    printed. *)
Definition hit_rate (type : CacheType) (t : CacheTest) : res unit :=
  if operations t type =? 0 then UB DivByZero else Ok tt.

Definition printResults (t : CacheTest) : res unit :=
  _ <- hit_rate LRU t ;; _ <- hit_rate LFU t ;; hit_rate ARC t.
End CacheTestClass.

Notation "' pat <- m ;; k" :=
  (bind m (fun x => match x with pat => k end))
  (at level 61, pat pattern, m at next level, right associativity).

(** ** [HotDataAccessTest] *)

Module HotDataAccessTest.
Section Class.
Context `{Harness}.

Record t : Type := {
  base : CacheTest;
  hotKeys : Z;
  coldKeys : Z;
  hotRatio : Z
}.

Definition with_base (b : CacheTest) (x : t) : t :=
  {| base := b; hotKeys := hotKeys x; coldKeys := coldKeys x;
     hotRatio := hotRatio x |}.

(** The key of operation [op], in both loops:
    [if (op % 100 < hotRatio) key = gen() % hotKeys;
     else key = hotKeys + (gen() % coldKeys);] *)
Definition pick_key (op : Z) (x : t) : res (Z * CacheTest) :=
  if Z.rem op 100 <? hotRatio x then
    let (g, b) := draw (base x) in
    r <- urem word_bits g (hotKeys x) ;; Ok (to_int r, b)
  else
    let (g, b) := draw (base x) in
    k <- offset_urem word_bits (hotKeys x) g (coldKeys x) ;; Ok (k, b).

(** Body of the first loop (lines 215-226). *)
Definition fill_step (type : CacheType) (op : Z) (x : t) : res t :=
  '(key, b) <- pick_key op x ;;
  let value := ("value" ++ to_string key)%string in
  let b := cache_put type key value b in
  _ <- showProgress (config b) (op + 1) (TestConfig.operations (config b)) ;;
  Ok (with_base b x).

(** Body of the second loop (lines 230-245). *)
Definition access_step (type : CacheType) (get_op : Z) (x : t) : res t :=
  '(key, b) <- pick_key get_op x ;;
  let b := lookup type key b in
  _ <- showProgress (config b) (get_op + 1)
         (TestConfig.operations (config b)) ;;
  Ok (with_base b x).

(** [getCache] returns one of the three members, never a null pointer,
    so the early return of line 207 is not taken. *)
Definition runTestForCacheType (type : CacheType) (x : t) : res t :=
  let x := with_base (resetStats type (base x)) x in
  let n := TestConfig.operations (config (base x)) in
  x <- for_range 0 n (fill_step type) x ;;
  for_range 0 n (access_step type) x.

(** [CacheTest::runTest] (lines 139-167): the three policies in turn,
    then [printResults]; the banners and the timing only print. *)
Definition runTest (x : t) : res t :=
  x <- runTestForCacheType LRU x ;;
  x <- runTestForCacheType LFU x ;;
  x <- runTestForCacheType ARC x ;;
  _ <- printResults (base x) ;;
  Ok x.

(** [HotDataAccessTest()] *)
Definition new (g : mt19937) : t :=
  {| base := CacheTest_new "热点数据访问测试" g;
     hotKeys := 20; coldKeys := 5000; hotRatio := 70 |}.

Definition setHotKeys (count : Z) (x : t) : t :=
  {| base := base x; hotKeys := count; coldKeys := coldKeys x;
     hotRatio := hotRatio x |}.

Definition setColdKeys (count : Z) (x : t) : t :=
  {| base := base x; hotKeys := hotKeys x; coldKeys := count;
     hotRatio := hotRatio x |}.

Definition setHotRatio (ratio : Z) (x : t) : t :=
  let ratio := if ratio <? 0 then 0 else ratio in
  let ratio := if ratio >? 100 then 100 else ratio in
  {| base := base x; hotKeys := hotKeys x; coldKeys := coldKeys x;
     hotRatio := ratio |}.

(** The states an object can be in when a member function is called on
    it: built by the constructor, changed by the public member functions
    called with [int] arguments, and, inside [runTest], by each of its
    runs, so that the states between the three runs are among them. *)
Inductive reachable : t -> Prop :=
| r_new g : reachable (new g)
| r_setCapacity c x :
    reachable x -> is_int c = true ->
    reachable (with_base (setCapacity c (base x)) x)
| r_setOperations n x :
    reachable x -> is_int n = true ->
    reachable (with_base (setOperations n (base x)) x)
| r_setShowProgressBar s x :
    reachable x -> reachable (with_base (setShowProgressBar s (base x)) x)
| r_setProgressInterval i x :
    reachable x -> is_int i = true ->
    reachable (with_base (setProgressInterval i (base x)) x)
| r_setHotKeys c x :
    reachable x -> is_int c = true -> reachable (setHotKeys c x)
| r_setColdKeys c x :
    reachable x -> is_int c = true -> reachable (setColdKeys c x)
| r_setHotRatio r x :
    reachable x -> is_int r = true -> reachable (setHotRatio r x)
| r_runTest x x' :
    reachable x -> runTest x = Ok x' -> reachable x'
| r_run type x x' :
    reachable x -> runTestForCacheType type x = Ok x' -> reachable x'.
End Class.
End HotDataAccessTest.

(** ** [LoopPatternTest] *)

Module LoopPatternTest.
Section Class.
Context `{Harness}.

Record t : Type := {
  base : CacheTest;
  loopSize : Z;
  sequentialRatio : Z;
  randomRatio : Z
}.

Definition with_base (b : CacheTest) (x : t) : t :=
  {| base := b; loopSize := loopSize x;
     sequentialRatio := sequentialRatio x; randomRatio := randomRatio x |}.

(** Body of the fill loop (lines 295-302). *)
Definition fill_step (type : CacheType) (key : Z) (x : t) : res t :=
  let value := ("loop" ++ to_string key)%string in
  let b := cache_put type key value (base x) in
  _ <- (if (Z.rem key 100 =? 0) || (key =? loopSize x - 1)
        then showProgress (config b) (key + 1) (loopSize x)
        else Ok tt) ;;
  Ok (with_base b x).

(** The key of operation [op] and the scan position after it
    (lines 308-318). *)
Definition pick_key (op current_pos : Z) (x : t)
  : res (Z * CacheTest * Z) :=
  let r := Z.rem op 100 in
  if r <? sequentialRatio x then
    n <- sadd current_pos 1 ;;
    p <- srem n (loopSize x) ;;
    Ok (current_pos, base x, p)
  else
    s <- sadd (sequentialRatio x) (randomRatio x) ;;
    if r <? s then
      let (g, b) := draw (base x) in
      k <- urem word_bits g (loopSize x) ;; Ok (to_int k, b, current_pos)
    else
      let (g, b) := draw (base x) in
      k <- offset_urem word_bits (loopSize x) g (loopSize x) ;;
      Ok (k, b, current_pos).

(** Body of the access loop (lines 307-327); the loop carries the
    local [current_pos] along with the object. *)
Definition access_step (type : CacheType) (op : Z) (st : t * Z)
  : res (t * Z) :=
  let (x, current_pos) := st in
  '(key, b, pos) <- pick_key op current_pos x ;;
  let b := lookup type key b in
  _ <- showProgress (config b) (op + 1) (TestConfig.operations (config b)) ;;
  Ok (with_base b x, pos).

Definition runTestForCacheType (type : CacheType) (x : t) : res t :=
  let x := with_base (resetStats type (base x)) x in
  x <- for_range 0 (loopSize x) (fill_step type) x ;;
  st <- for_range 0 (TestConfig.operations (config (base x)))
          (access_step type) (x, 0) ;;
  Ok (fst st).

(** [CacheTest::runTest] (lines 139-167): the three policies in turn,
    then [printResults]; the banners and the timing only print. *)
Definition runTest (x : t) : res t :=
  x <- runTestForCacheType LRU x ;;
  x <- runTestForCacheType LFU x ;;
  x <- runTestForCacheType ARC x ;;
  _ <- printResults (base x) ;;
  Ok x.

(** [LoopPatternTest()] *)
Definition new (g : mt19937) : t :=
  {| base := CacheTest_new "循环扫描测试" g;
     loopSize := 500; sequentialRatio := 60; randomRatio := 30 |}.

Definition setLoopSize (size : Z) (x : t) : t :=
  {| base := base x; loopSize := size;
     sequentialRatio := sequentialRatio x; randomRatio := randomRatio x |}.

Definition setSequentialRatio (ratio : Z) (x : t) : t :=
  let ratio := if ratio <? 0 then 0 else ratio in
  let ratio := if ratio >? 100 then 100 else ratio in
  {| base := base x; loopSize := loopSize x;
     sequentialRatio := ratio;
     randomRatio :=
       if ratio + randomRatio x >? 100 then 100 - ratio
       else randomRatio x |}.

Definition setRandomRatio (ratio : Z) (x : t) : t :=
  let ratio := if ratio <? 0 then 0 else ratio in
  let ratio := if ratio >? 100 then 100 else ratio in
  {| base := base x; loopSize := loopSize x;
     sequentialRatio :=
       if sequentialRatio x + ratio >? 100 then 100 - ratio
       else sequentialRatio x;
     randomRatio := ratio |}.

(** The states an object can be in when a member function is called on
    it, the states between the three runs of [runTest] among them. *)
Inductive reachable : t -> Prop :=
| r_new g : reachable (new g)
| r_setCapacity c x :
    reachable x -> is_int c = true ->
    reachable (with_base (setCapacity c (base x)) x)
| r_setOperations n x :
    reachable x -> is_int n = true ->
    reachable (with_base (setOperations n (base x)) x)
| r_setShowProgressBar s x :
    reachable x -> reachable (with_base (setShowProgressBar s (base x)) x)
| r_setProgressInterval i x :
    reachable x -> is_int i = true ->
    reachable (with_base (setProgressInterval i (base x)) x)
| r_setLoopSize n x :
    reachable x -> is_int n = true -> reachable (setLoopSize n x)
| r_setSequentialRatio r x :
    reachable x -> is_int r = true -> reachable (setSequentialRatio r x)
| r_setRandomRatio r x :
    reachable x -> is_int r = true -> reachable (setRandomRatio r x)
| r_runTest x x' :
    reachable x -> runTest x = Ok x' -> reachable x'
| r_run type x x' :
    reachable x -> runTestForCacheType type x = Ok x' -> reachable x'.
End Class.
End LoopPatternTest.

(** ** [WorkloadShiftTest] *)

Module WorkloadShiftTest.
Section Class.
Context `{Harness}.

Record t : Type := {
  base : CacheTest;
  initialDataSize : Z;
  phases : Z;
  putProbability : Z
}.

Definition with_base (b : CacheTest) (x : t) : t :=
  {| base := b; initialDataSize := initialDataSize x;
     phases := phases x; putProbability := putProbability x |}.

(** Body of the fill loop (lines 387-394). *)
Definition fill_step (type : CacheType) (key : Z) (x : t) : res t :=
  let value := ("init" ++ to_string key)%string in
  let b := cache_put type key value (base x) in
  _ <- (if (Z.rem key 100 =? 0) || (key =? initialDataSize x - 1)
        then showProgress (config b) (key + 1) (initialDataSize x)
        else Ok tt) ;;
  Ok (with_base b x).

(** [switch (phase % 5)] (lines 410-439): the key of operation [op].
    The last branch is [case 4: default:]. *)
Definition pick_key (phaseLength op phase : Z) (x : t)
  : res (Z * CacheTest) :=
  let sel := Z.rem phase 5 in
  if sel =? 0 then
    let (g, b) := draw (base x) in
    r <- urem word_bits g 5 ;; Ok (to_int r, b)
  else if sel =? 1 then
    let (g, b) := draw (base x) in
    r <- urem word_bits g (initialDataSize x) ;; Ok (to_int r, b)
  else if sel =? 2 then
    start <- smul phase phaseLength ;;
    off <- ssub op start ;;
    Ok (Z.rem off 100, base x)
  else if sel =? 3 then
    let locality := Z.rem (Z.quot op 1000) 10 in
    let (g, b) := draw (base x) in
    k <- offset_urem word_bits (locality * 20) g 20 ;; Ok (k, b)
  else
    let (g, b) := draw (base x) in
    r <- urem word_bits g 100 ;;
    let r := to_int r in
    if r <? 30 then
      let (g, b) := draw b in
      k <- urem word_bits g 5 ;; Ok (to_int k, b)
    else if r <? 60 then
      let (g, b) := draw b in
      k <- offset_urem word_bits 5 g 95 ;; Ok (k, b)
    else
      d <- ssub (initialDataSize x) 100 ;;
      let (g, b) := draw b in
      k <- offset_urem word_bits 100 g d ;; Ok (k, b).

(** Body of the access loop (lines 400-454).  [op % phaseLength] is
    evaluated to decide whether the phase banner is printed;
    [gen() % 100 < putProbability] compares unsigned values. *)
Definition access_step (type : CacheType) (phaseLength op : Z) (x : t)
  : res t :=
  phase <- sdiv op phaseLength ;;
  _ <- srem op phaseLength ;;
  '(key, b) <- pick_key phaseLength op phase x ;;
  let b := lookup type key b in
  let (g, b) := draw b in
  r <- urem word_bits g 100 ;;
  let b :=
    if r <? to_unsigned word_bits (putProbability x)
    then cache_put type key ("new" ++ to_string key)%string b
    else b in
  _ <- showProgress (config b) (op + 1) (TestConfig.operations (config b)) ;;
  Ok (with_base b x).

Definition runTestForCacheType (type : CacheType) (x : t) : res t :=
  let x := with_base (resetStats type (base x)) x in
  x <- for_range 0 (initialDataSize x) (fill_step type) x ;;
  phaseLength <- sdiv (TestConfig.operations (config (base x))) (phases x) ;;
  for_range 0 (TestConfig.operations (config (base x)))
    (access_step type phaseLength) x.

(** [printTestParameters] (lines 457-470) prints the fields and the
    operations per phase, [config.operations / phases]. *)
Definition printTestParameters (x : t) : res unit :=
  _ <- sdiv (TestConfig.operations (config (base x))) (phases x) ;; Ok tt.

(** [CacheTest::runTest] (lines 139-167): the parameters are printed,
    the three policies run in turn, then [printResults]; the banners and
    the timing only print. *)
Definition runTest (x : t) : res t :=
  _ <- printTestParameters x ;;
  x <- runTestForCacheType LRU x ;;
  x <- runTestForCacheType LFU x ;;
  x <- runTestForCacheType ARC x ;;
  _ <- printResults (base x) ;;
  Ok x.

(** [WorkloadShiftTest()] *)
Definition new (g : mt19937) : t :=
  {| base := CacheTest_new "工作负载剧烈变化测试" g;
     initialDataSize := 1000; phases := 5; putProbability := 30 |}.

Definition setInitialDataSize (size : Z) (x : t) : t :=
  {| base := base x; initialDataSize := size;
     phases := phases x; putProbability := putProbability x |}.

Definition setPhases (count : Z) (x : t) : t :=
  {| base := base x; initialDataSize := initialDataSize x;
     phases := count; putProbability := putProbability x |}.

Definition setPutProbability (probability : Z) (x : t) : t :=
  let probability := if probability <? 0 then 0 else probability in
  let probability := if probability >? 100 then 100 else probability in
  {| base := base x; initialDataSize := initialDataSize x;
     phases := phases x; putProbability := probability |}.

(** The states an object can be in when a member function is called on
    it, the states between the three runs of [runTest] among them. *)
Inductive reachable : t -> Prop :=
| r_new g : reachable (new g)
| r_setCapacity c x :
    reachable x -> is_int c = true ->
    reachable (with_base (setCapacity c (base x)) x)
| r_setOperations n x :
    reachable x -> is_int n = true ->
    reachable (with_base (setOperations n (base x)) x)
| r_setShowProgressBar s x :
    reachable x -> reachable (with_base (setShowProgressBar s (base x)) x)
| r_setProgressInterval i x :
    reachable x -> is_int i = true ->
    reachable (with_base (setProgressInterval i (base x)) x)
| r_setInitialDataSize n x :
    reachable x -> is_int n = true -> reachable (setInitialDataSize n x)
| r_setPhases n x :
    reachable x -> is_int n = true -> reachable (setPhases n x)
| r_setPutProbability r x :
    reachable x -> is_int r = true -> reachable (setPutProbability r x)
| r_runTest x x' :
    reachable x -> runTest x = Ok x' -> reachable x'
| r_run type x x' :
    reachable x -> runTestForCacheType type x = Ok x' -> reachable x'.
End Class.
End WorkloadShiftTest.

(** ** [main]: the three configured tests (lines 534-555), each
    generator seeded to the given state. *)

Section Main.
Context `{Harness}.

Definition main_hotTest (g : mt19937) : HotDataAccessTest.t :=
  let hotTest := HotDataAccessTest.new g in
  let hotTest :=
    HotDataAccessTest.with_base
      (setCapacity 50 (HotDataAccessTest.base hotTest)) hotTest in
  let hotTest :=
    HotDataAccessTest.with_base
      (setOperations 200000 (HotDataAccessTest.base hotTest)) hotTest in
  let hotTest := HotDataAccessTest.setHotKeys 20 hotTest in
  let hotTest := HotDataAccessTest.setColdKeys 5000 hotTest in
  HotDataAccessTest.setHotRatio 70 hotTest.

Definition main_loopTest (g : mt19937) : LoopPatternTest.t :=
  let loopTest := LoopPatternTest.new g in
  let loopTest :=
    LoopPatternTest.with_base
      (setCapacity 50 (LoopPatternTest.base loopTest)) loopTest in
  let loopTest :=
    LoopPatternTest.with_base
      (setOperations 100000 (LoopPatternTest.base loopTest)) loopTest in
  let loopTest := LoopPatternTest.setLoopSize 500 loopTest in
  let loopTest := LoopPatternTest.setSequentialRatio 60 loopTest in
  LoopPatternTest.setRandomRatio 30 loopTest.

Definition main_workloadTest (g : mt19937) : WorkloadShiftTest.t :=
  let workloadTest := WorkloadShiftTest.new g in
  let workloadTest :=
    WorkloadShiftTest.with_base
      (setCapacity 4 (WorkloadShiftTest.base workloadTest)) workloadTest in
  let workloadTest :=
    WorkloadShiftTest.with_base
      (setOperations 50000 (WorkloadShiftTest.base workloadTest))
      workloadTest in
  let workloadTest := WorkloadShiftTest.setInitialDataSize 1000 workloadTest in
  let workloadTest := WorkloadShiftTest.setPhases 5 workloadTest in
  WorkloadShiftTest.setPutProbability 30 workloadTest.
End Main.

(** ** [CacheTestManager] and the whole of [main]

    The manager keeps [std::shared_ptr<CacheTest>] in a vector and
    [addTest] hands out a pointer to the object it stored: the object is
    shared, and what [main] sets through the pointer is what
    [runAllTests] runs.  [tests] is the store of these objects, in the
    order of the vector, and a pointer is the index of its object. *)
Section Manager.
Context `{Harness}.

(** The objects behind a [CacheTest] pointer. *)
Inductive test : Type :=
| THot (x : HotDataAccessTest.t)
| TLoop (x : LoopPatternTest.t)
| TWork (x : WorkloadShiftTest.t).

(** [test->runTest()], dispatched on the class of the object. *)
Definition test_runTest (t : test) : res test :=
  match t with
  | THot x => x <- HotDataAccessTest.runTest x ;; Ok (THot x)
  | TLoop x => x <- LoopPatternTest.runTest x ;; Ok (TLoop x)
  | TWork x => x <- WorkloadShiftTest.runTest x ;; Ok (TWork x)
  end.

Definition test_base (t : test) : CacheTest :=
  match t with
  | THot x => HotDataAccessTest.base x
  | TLoop x => LoopPatternTest.base x
  | TWork x => WorkloadShiftTest.base x
  end.

Record CacheTestManager : Type := { tests : list test }.

(** [addTest<T>()]: the new object goes to the back of the vector; the
    pointer returned is its index. *)
Definition addTest (t : test) (m : CacheTestManager)
  : nat * CacheTestManager :=
  (length (tests m), {| tests := tests m ++ [t] |}).

(** A member function called through a pointer: the object at index [i]
    is replaced by [f] of it. *)
Fixpoint alter (f : test -> test) (i : nat) (l : list test) : list test :=
  match l, i with
  | [], _ => []
  | t :: l', O => f t :: l'
  | t :: l', S j => t :: alter f j l'
  end.

Definition through (i : nat) (f : test -> test) (m : CacheTestManager)
  : CacheTestManager :=
  {| tests := alter f i (tests m) |}.

Definition on_hot (f : HotDataAccessTest.t -> HotDataAccessTest.t)
  (t : test) : test :=
  match t with THot x => THot (f x) | _ => t end.

Definition on_loop (f : LoopPatternTest.t -> LoopPatternTest.t)
  (t : test) : test :=
  match t with TLoop x => TLoop (f x) | _ => t end.

Definition on_work (f : WorkloadShiftTest.t -> WorkloadShiftTest.t)
  (t : test) : test :=
  match t with TWork x => TWork (f x) | _ => t end.

(** A [CacheTest] member function on an object of any class. *)
Definition on_base (f : CacheTest -> CacheTest) (t : test) : test :=
  match t with
  | THot x => THot (HotDataAccessTest.with_base (f (HotDataAccessTest.base x)) x)
  | TLoop x => TLoop (LoopPatternTest.with_base (f (LoopPatternTest.base x)) x)
  | TWork x =>
      TWork (WorkloadShiftTest.with_base (f (WorkloadShiftTest.base x)) x)
  end.

(** [for (auto& test : tests) test->runTest();] *)
Fixpoint run_each (l : list test) : res (list test) :=
  match l with
  | [] => Ok []
  | t :: l' =>
      t' <- test_runTest t ;;
      l'' <- run_each l' ;;
      Ok (t' :: l'')
  end.

Definition runAllTests (m : CacheTestManager) : res CacheTestManager :=
  l <- run_each (tests m) ;; Ok {| tests := l |}.

Definition clearTests (m : CacheTestManager) : CacheTestManager :=
  {| tests := [] |}.

(** [main] (lines 529-561), the three generators seeded to [g1], [g2]
    and [g3]: the manager after [runAllTests]. *)
Definition main (g1 g2 g3 : mt19937) : res CacheTestManager :=
  let testManager := {| tests := [] |} in
  let (hotTest, testManager) :=
    addTest (THot (HotDataAccessTest.new g1)) testManager in
  let testManager := through hotTest (on_base (setCapacity 50)) testManager in
  let testManager :=
    through hotTest (on_base (setOperations 200000)) testManager in
  let testManager :=
    through hotTest (on_hot (HotDataAccessTest.setHotKeys 20)) testManager in
  let testManager :=
    through hotTest (on_hot (HotDataAccessTest.setColdKeys 5000))
      testManager in
  let testManager :=
    through hotTest (on_hot (HotDataAccessTest.setHotRatio 70)) testManager in
  let (loopTest, testManager) :=
    addTest (TLoop (LoopPatternTest.new g2)) testManager in
  let testManager := through loopTest (on_base (setCapacity 50)) testManager in
  let testManager :=
    through loopTest (on_base (setOperations 100000)) testManager in
  let testManager :=
    through loopTest (on_loop (LoopPatternTest.setLoopSize 500)) testManager in
  let testManager :=
    through loopTest (on_loop (LoopPatternTest.setSequentialRatio 60))
      testManager in
  let testManager :=
    through loopTest (on_loop (LoopPatternTest.setRandomRatio 30))
      testManager in
  let (workloadTest, testManager) :=
    addTest (TWork (WorkloadShiftTest.new g3)) testManager in
  let testManager :=
    through workloadTest (on_base (setCapacity 4)) testManager in
  let testManager :=
    through workloadTest (on_base (setOperations 50000)) testManager in
  let testManager :=
    through workloadTest (on_work (WorkloadShiftTest.setInitialDataSize 1000))
      testManager in
  let testManager :=
    through workloadTest (on_work (WorkloadShiftTest.setPhases 5))
      testManager in
  let testManager :=
    through workloadTest (on_work (WorkloadShiftTest.setPutProbability 30))
      testManager in
  runAllTests testManager.
End Manager.

(** ** Call sequences on a cache, and the calls a driver makes *)

Inductive call : Type :=
| Put (k : Z) (v : string)
| Get (k : Z).

Inductive event : Type :=
| EvPut (k : Z) (v : string)
| EvGet (k : Z) (result : option string).

Definition call_of (e : event) : call :=
  match e with
  | EvPut k v => Put k v
  | EvGet k _ => Get k
  end.

Definition event_key (e : event) : Z :=
  match e with
  | EvPut k _ => k
  | EvGet k _ => k
  end.

Definition is_put (e : event) : bool :=
  match e with EvPut _ _ => true | EvGet _ _ => false end.

Definition is_hit (e : event) : bool :=
  match e with EvGet _ (Some _) => true | _ => false end.

Section Calls.
Context {C : Type} `{KICachePolicy C}.

Definition exec_call (c : C) (x : call) : C :=
  match x with
  | Put k v => put k v c
  | Get k => snd (get k c)
  end.

(** The cache after the calls of [l], oldest first. *)
Definition exec (c0 : C) (l : list call) : C := fold_left exec_call l c0.

(** Universal invariant 4 of the specification, for the caches grown
    from [c0]: a [get] returns only what an earlier [put] of that key
    stored. *)
Definition no_phantoms (c0 : C) : Prop :=
  forall l k v, fst (get k (exec c0 l)) = Some v -> In (Put k v) l.
End Calls.

(** A cache that records the calls made on it and what they returned.
    The driver reaches its caches through [put] and [get] only, so linking
    it against the recording caches yields the trace of a run. *)
Section Logging.
Context (H : Harness).

Definition logged : Type := (C * list event)%type.

Definition logged_policy : KICachePolicy logged :=
  {| put := fun k v cl => (put k v (fst cl), snd cl ++ [EvPut k v]);
     get := fun k cl =>
              let (r, c') := get k (fst cl) in
              (r, (c', snd cl ++ [EvGet k r])) |}.

Definition Logging : Harness :=
  {| word_bits := word_bits;
     word_bits_ge := word_bits_ge;
     C := logged;
     C_policy := logged_policy;
     KLruCache := fun cap => (KLruCache cap, []);
     KLfuCache := fun cap => (KLfuCache cap, []);
     KArcCache := fun cap => (KArcCache cap, []) |}.

(** [cl] is a recording cache that grew from [c0]: the fresh recording
    cache [(c0, [])] after some calls of [put] and [get]. *)
Inductive faithful (c0 : C) : logged -> Prop :=
| faithful_new : faithful c0 (c0, [])
| faithful_put cl k v :
    faithful c0 cl -> faithful c0 (@put logged logged_policy k v cl)
| faithful_get cl k :
    faithful c0 cl -> faithful c0 (snd (@get logged logged_policy k cl)).
End Logging.

Definition trace `{H : Harness} (type : CacheType)
  (b : @CacheTest (Logging H)) : list event :=
  snd (@getCache (Logging H) type b).

(** ** The three policies

    The headers that implement [KLruCache], [KLfuCache] and [KArcCache]
    are not part of the driver's translation unit; the policies are
    modelled from sections 4.3, 4.6 and 4.8 of the specification. *)

Definition remove_key {V : Type} (k : Z) (l : list (Z * V)) : list (Z * V) :=
  filter (fun e => negb (fst e =? k)) l.

Definition find_key {V : Type} (k : Z) (l : list (Z * V)) : option V :=
  option_map snd (find (fun e => fst e =? k) l).

Definition mem_key (k : Z) (l : list Z) : bool := existsb (Z.eqb k) l.

Module Lru.
(** Modelled from the spec: the LRU core of section 4.3, whose source
    (KLruCache.h) is missing.  [entries] is the recency list [L], MRU
    first; the index [I] is the key lookup over it. *)
Record t : Type := {
  cap : nat;
  entries : list (Z * string)
}.

(** Modelled from the spec: [new_lru(capacity)] (section 6), missing
    with KLruCache.h. *)
Definition new (c : nat) : t := {| cap := c; entries := [] |}.

(** Modelled from the spec: [put] of section 4.3 (missing with
    KLruCache.h).  Capacity 0 makes the call a no-op (section 4.1); a
    known key is overwritten and moved to the front; otherwise the tail
    is popped when [|L| == c] and the new node is pushed at the front. *)
Definition put (k : Z) (v : string) (s : t) : t :=
  if Nat.eqb (cap s) 0 then s
  else
    match find_key k (entries s) with
    | Some _ =>
        {| cap := cap s; entries := (k, v) :: remove_key k (entries s) |}
    | None =>
        let l :=
          if Nat.eqb (length (entries s)) (cap s)
          then removelast (entries s) else entries s in
        {| cap := cap s; entries := (k, v) :: l |}
    end.

(** Modelled from the spec: [get] of section 4.3 (missing with
    KLruCache.h): a miss when the key is not indexed, else the node moves
    to the front and its value is returned. *)
Definition get (k : Z) (s : t) : option string * t :=
  match find_key k (entries s) with
  | None => (None, s)
  | Some v =>
      (Some v,
       {| cap := cap s; entries := (k, v) :: remove_key k (entries s) |})
  end.

Definition resident (s : t) : nat := length (entries s).
End Lru.

Module Lfu.
(** Modelled from the spec: an LFU node (section 3, Entry), missing with
    KLfuCache.h. *)
Record node : Type := {
  key : Z;
  value : string;
  count : nat
}.

(** Modelled from the spec: the LFU core of section 4.6, whose source
    (KLfuCache.h) is missing.  [nodes] lists the nodes in the order they
    entered their present bucket; the bucket [F[f]] is the sub-list of
    the nodes whose count is [f], and the index [I] is the key lookup. *)
Record t : Type := {
  cap : nat;
  max_avg_freq : nat;
  nodes : list node;
  min_freq : nat;
  total_freq : nat
}.

Definition bucket (f : nat) (l : list node) : list node :=
  filter (fun n => Nat.eqb (count n) f) l.

Definition lookup (k : Z) (l : list node) : option node :=
  find (fun n => key n =? k) l.

Definition detach (k : Z) (l : list node) : list node :=
  filter (fun n => negb (key n =? k)) l.

(** Modelled from the spec: [new_lfu(capacity, max_avg_freq)]
    (section 6), missing with KLfuCache.h. *)
Definition new (c m : nat) : t :=
  {| cap := c; max_avg_freq := m; nodes := []; min_freq := 0;
     total_freq := 0 |}.

(** Modelled from the spec: the hit path of [get] in section 4.6
    (missing with KLfuCache.h), storing value [v] in the node: detach
    from [F[f]], advance [min_freq] when that bucket empties and was the
    minimum, append to the tail of [F[f+1]], count the access. *)
Definition promote (n : node) (v : string) (s : t) : t :=
  let f := count n in
  let rest := detach (key n) (nodes s) in
  {| cap := cap s; max_avg_freq := max_avg_freq s;
     nodes := rest ++ [{| key := key n; value := v; count := S f |}];
     min_freq :=
       match bucket f rest with
       | [] => if Nat.eqb f (min_freq s) then S f else min_freq s
       | _ :: _ => min_freq s
       end;
     total_freq := S (total_freq s) |}.

Definition halve (n : node) : node :=
  {| key := key n; value := value n; count := Nat.max 1 (Nat.div2 (count n)) |}.

Definition least (l : list node) : nat :=
  match l with
  | [] => 0
  | n :: l' => fold_left Nat.min (map count l') (count n)
  end.

(** Modelled from the spec: the decay of section 4.6 (missing with
    KLfuCache.h): when [max_avg_freq > 0] and
    [total_freq / |I| > max_avg_freq], every count is halved (floor, at
    least 1), [min_freq] is recomputed and [total_freq] is the sum of the
    counts. *)
Definition decay (s : t) : t :=
  if Nat.ltb 0 (max_avg_freq s)
     && Nat.ltb (max_avg_freq s)
          (Nat.div (total_freq s) (length (nodes s)))
  then
    let l := map halve (nodes s) in
    {| cap := cap s; max_avg_freq := max_avg_freq s; nodes := l;
       min_freq := least l;
       total_freq := fold_left Nat.add (map count l) 0%nat |}
  else s.

(** Modelled from the spec: eviction in section 4.6 (missing with
    KLfuCache.h): the head of [F[min_freq]] leaves. *)
Definition evict (s : t) : t :=
  match bucket (min_freq s) (nodes s) with
  | [] => s
  | n :: _ =>
      {| cap := cap s; max_avg_freq := max_avg_freq s;
         nodes := detach (key n) (nodes s);
         min_freq := min_freq s;
         total_freq := total_freq s - count n |}
  end.

(** Modelled from the spec: [put] of section 4.6 (missing with
    KLfuCache.h). *)
Definition put (k : Z) (v : string) (s : t) : t :=
  if Nat.eqb (cap s) 0 then s
  else
    match lookup k (nodes s) with
    | Some n => promote n v s
    | None =>
        let s := if Nat.eqb (length (nodes s)) (cap s) then evict s else s in
        {| cap := cap s; max_avg_freq := max_avg_freq s;
           nodes := nodes s ++ [{| key := k; value := v; count := 1 |}];
           min_freq := 1;
           total_freq := S (total_freq s) |}
    end.

(** Modelled from the spec: [get] of section 4.6 (missing with
    KLfuCache.h). *)
Definition get (k : Z) (s : t) : option string * t :=
  match lookup k (nodes s) with
  | None => (None, s)
  | Some n => (Some (value n), decay (promote n (value n) s))
  end.

Definition resident (s : t) : nat := length (nodes s).
End Lfu.

Module Arc.
(** Modelled from the spec: the ARC state of sections 3 and 4.8, whose
    source (KArcCache/KArcCache.h) is missing.  Every list is kept MRU
    first, so the LRU end is the last element; [T1] and [T2] hold the
    resident entries, [B1] and [B2] the ghost keys, [p] is the target
    size of [T1]. *)
Record t : Type := {
  c : nat;
  p : nat;
  T1 : list (Z * string);
  T2 : list (Z * string);
  B1 : list Z;
  B2 : list Z
}.

(** Modelled from the spec: [new_arc(capacity)] (section 6), [p]
    initially 0 (section 4.8); missing with KArcCache.h. *)
Definition new (cap : nat) : t :=
  {| c := cap; p := 0; T1 := []; T2 := []; B1 := []; B2 := [] |}.

Definition drop_key (k : Z) (l : list Z) : list Z :=
  filter (fun k' => negb (k' =? k)) l.

Definition with_p (q : nat) (s : t) : t :=
  {| c := c s; p := q; T1 := T1 s; T2 := T2 s; B1 := B1 s; B2 := B2 s |}.

(** Modelled from the spec: [REPLACE(k, p)] of section 4.8.2 (missing
    with KArcCache.h). *)
Definition replace (k : Z) (s : t) : t :=
  if Nat.ltb 0 (length (T1 s))
     && (Nat.ltb (p s) (length (T1 s))
         || (mem_key k (B2 s) && Nat.eqb (length (T1 s)) (p s)))
  then
    match rev (T1 s) with
    | [] => s
    | (k', _) :: _ =>
        {| c := c s; p := p s; T1 := removelast (T1 s); T2 := T2 s;
           B1 := k' :: B1 s; B2 := B2 s |}
    end
  else
    match rev (T2 s) with
    | [] => s
    | (k', _) :: _ =>
        {| c := c s; p := p s; T1 := T1 s; T2 := removelast (T2 s);
           B1 := B1 s; B2 := k' :: B2 s |}
    end.

(** Modelled from the spec: the adaptation of cases II and III in
    section 4.8.1 (missing with KArcCache.h). *)
Definition adapt_B1 (s : t) : t :=
  with_p (Nat.min (c s)
            (p s + Nat.max 1 (Nat.div (length (B2 s)) (length (B1 s))))) s.

Definition adapt_B2 (s : t) : t :=
  with_p (p s - Nat.max 1 (Nat.div (length (B1 s)) (length (B2 s)))) s.

Definition resident_key (k : Z) (s : t) : option string :=
  match find_key k (T1 s) with
  | Some v => Some v
  | None => find_key k (T2 s)
  end.

(** Case I: the node moves to the MRU end of [T2], holding [v]. *)
Definition to_T2 (k : Z) (v : string) (s : t) : t :=
  {| c := c s; p := p s; T1 := remove_key k (T1 s);
     T2 := (k, v) :: remove_key k (T2 s); B1 := B1 s; B2 := B2 s |}.

(** Case IV, before the insertion. *)
Definition make_room (k : Z) (s : t) : t :=
  let l1 := (length (T1 s) + length (B1 s))%nat in
  let total := (l1 + length (T2 s) + length (B2 s))%nat in
  if Nat.eqb l1 (c s) then
    if Nat.ltb (length (T1 s)) (c s) then
      replace k {| c := c s; p := p s; T1 := T1 s; T2 := T2 s;
                   B1 := removelast (B1 s); B2 := B2 s |}
    else
      {| c := c s; p := p s; T1 := removelast (T1 s); T2 := T2 s;
         B1 := B1 s; B2 := B2 s |}
  else if Nat.ltb l1 (c s) && Nat.leb (c s) total then
    replace k
      (if Nat.eqb total (2 * c s)
       then {| c := c s; p := p s; T1 := T1 s; T2 := T2 s;
               B1 := B1 s; B2 := removelast (B2 s) |}
       else s)
  else s.

(** Modelled from the spec: [put] of section 4.8.1 (missing with
    KArcCache.h); capacity 0 makes it a no-op (section 4.1). *)
Definition put (k : Z) (v : string) (s : t) : t :=
  if Nat.eqb (c s) 0 then s
  else
    match resident_key k s with
    | Some _ => to_T2 k v s
    | None =>
        if mem_key k (B1 s) then
          let s := replace k (adapt_B1 s) in
          {| c := c s; p := p s; T1 := T1 s; T2 := (k, v) :: T2 s;
             B1 := drop_key k (B1 s); B2 := B2 s |}
        else if mem_key k (B2 s) then
          let s := replace k (adapt_B2 s) in
          {| c := c s; p := p s; T1 := T1 s; T2 := (k, v) :: T2 s;
             B1 := B1 s; B2 := drop_key k (B2 s) |}
        else
          let s := make_room k s in
          {| c := c s; p := p s; T1 := (k, v) :: T1 s; T2 := T2 s;
             B1 := B1 s; B2 := B2 s |}
    end.

(** Modelled from the spec: [get] of section 4.8.1 and the design note
    on ghost keys (missing with KArcCache.h): a resident key is promoted
    to [T2] and returned; a ghost key adapts [p] and is a miss. *)
Definition get (k : Z) (s : t) : option string * t :=
  match resident_key k s with
  | Some v => (Some v, to_T2 k v s)
  | None =>
      if mem_key k (B1 s) then (None, adapt_B1 s)
      else if mem_key k (B2 s) then (None, adapt_B2 s)
      else (None, s)
  end.

Definition resident (s : t) : nat := (length (T1 s) + length (T2 s))%nat.
End Arc.

(** The three policies as [KICachePolicy] objects, and the driver linked
    against them.  A capacity the constructors reject (section 7) is not
    modelled: the driver's capacities are counted as naturals. *)
Inductive policy : Type :=
| PLru (s : Lru.t)
| PLfu (s : Lfu.t)
| PArc (s : Arc.t).

Definition policy_put (k : Z) (v : string) (o : policy) : policy :=
  match o with
  | PLru s => PLru (Lru.put k v s)
  | PLfu s => PLfu (Lfu.put k v s)
  | PArc s => PArc (Arc.put k v s)
  end.

Definition policy_get (k : Z) (o : policy) : option string * policy :=
  match o with
  | PLru s => let (r, s') := Lru.get k s in (r, PLru s')
  | PLfu s => let (r, s') := Lfu.get k s in (r, PLfu s')
  | PArc s => let (r, s') := Arc.get k s in (r, PArc s')
  end.

#[export] Instance policy_cache : KICachePolicy policy :=
  {| put := policy_put; get := policy_get |}.

Definition resident (o : policy) : nat :=
  match o with
  | PLru s => Lru.resident s
  | PLfu s => Lfu.resident s
  | PArc s => Arc.resident s
  end.

Definition linked : Harness :=
  {| word_bits := 64;
     word_bits_ge := eq_refl;
     C := policy;
     C_policy := policy_cache;
     KLruCache := fun cap => PLru (Lru.new (Z.to_nat cap));
     KLfuCache := fun cap => PLfu (Lfu.new (Z.to_nat cap) 0);
     KArcCache := fun cap => PArc (Arc.new (Z.to_nat cap)) |}.

(** The progress bar cannot fault: it is off, or its interval is not 0. *)
Definition progress_ok (cfg : TestConfig.t) : Prop :=
  TestConfig.showProgressBar cfg = false \/
  TestConfig.progressInterval cfg <> 0.

(** The key [HotDataAccessTest] computes for operation [op] from the
    generator word [g]. *)
Definition hot_choice `{Harness} (x : HotDataAccessTest.t) (op g : Z)
  : res Z :=
  if Z.rem op 100 <? HotDataAccessTest.hotRatio x then
    r <- urem word_bits g (HotDataAccessTest.hotKeys x) ;; Ok (to_int r)
  else
    offset_urem word_bits (HotDataAccessTest.hotKeys x) g
      (HotDataAccessTest.coldKeys x).

(** Operation [op] is a hot one, and [key] lies in the range of its kind. *)
Definition is_hot_op `{Harness} (x : HotDataAccessTest.t) (op : Z) : bool :=
  op mod 100 <? HotDataAccessTest.hotRatio x.

Definition in_hot_range `{Harness} (x : HotDataAccessTest.t) (key : Z)
  : Prop :=
  0 <= key < HotDataAccessTest.hotKeys x.

Definition in_cold_range `{Harness} (x : HotDataAccessTest.t) (key : Z)
  : Prop :=
  HotDataAccessTest.hotKeys x <= key
  < HotDataAccessTest.hotKeys x + HotDataAccessTest.coldKeys x.

Definition hot_value (key : Z) : string := ("value" ++ to_string key)%string.

(** The aligned block [b] of 100 consecutive operations of a phase, and
    the number of its events whose key is a hot key. *)
Definition block (b : nat) (l : list event) : list event :=
  firstn 100 (skipn (100 * b) l).

Definition is_hot_key `{Harness} (x : HotDataAccessTest.t) (e : event)
  : bool :=
  (0 <=? event_key e) && (event_key e <? HotDataAccessTest.hotKeys x).

Definition hot_count `{Harness} (x : HotDataAccessTest.t) (l : list event)
  : Z :=
  Z.of_nat (length (filter (is_hot_key x) l)).

(** [b] is [b0] after some calls of [gen()]: nothing but the generator
    differs. *)
Definition same_but_gen `{Harness} (b0 b : CacheTest) : Prop :=
  config b = config b0 /\ hits b = hits b0 /\
  operations b = operations b0 /\
  forall type, getCache type b = getCache type b0.

Definition loop_value (key : Z) : string := ("loop" ++ to_string key)%string.
Definition init_value (key : Z) : string := ("init" ++ to_string key)%string.
Definition new_value (key : Z) : string := ("new" ++ to_string key)%string.

(** From [b] to [b'] one operation was counted for [type], and one hit
    exactly when [get] on the cache of [b] returned a value for the key
    looked up; the configuration is the same. *)
Definition counts_one_get `{Harness} (type : CacheType) (b b' : CacheTest)
  : Prop :=
  config b' = config b /\
  operations b' type = operations b type + 1 /\
  exists key,
    hits b' type =
    hits b type +
    match fst (get key (getCache type b)) with Some _ => 1 | None => 0 end.

(** From [b] to [b'] nothing was counted for [type]. *)
Definition counts_nothing `{Harness} (type : CacheType) (b b' : CacheTest)
  : Prop :=
  config b' = config b /\
  operations b' type = operations b type /\
  hits b' type = hits b type.

(** A property of cache objects that [put] and [get] preserve. *)
Definition preserved `{Harness} (I : C -> Prop) : Prop :=
  (forall c k v, I c -> I (put k v c)) /\
  (forall c k, I c -> I (snd (get k c))).

(** From [b] to [b'] the cache of [type] was reached through [put] and
    [get] only, and the two other caches were left alone. *)
Definition touches_only `{Harness} (type : CacheType) (b b' : CacheTest)
  : Prop :=
  (forall I, preserved I -> I (getCache type b) -> I (getCache type b')) /\
  (forall type', type' <> type -> getCache type' b' = getCache type' b).

(** [make_unique<K...Cache<int, std::string>>(capacity)] for the member
    [getCache(type)] points to. *)
Definition constructor `{Harness} (type : CacheType) : Z -> C :=
  match type with
  | LRU => KLruCache
  | LFU => KLfuCache
  | ARC => KArcCache
  end.

(** Every [put] of the trace stored ["value" + to_string(key)]. *)
Definition hot_puts_only (l : list event) : Prop :=
  forall k v, In (EvPut k v) l -> v = hot_value k.

(** The three recording caches of a [HotDataAccessTest] grew from freshly
    constructed caches, and saw only such puts. *)
Definition hot_caches_ok {H : Harness}
  (x : @HotDataAccessTest.t (Logging H)) : Prop :=
  forall type,
    (exists cap,
        faithful H (@constructor H type cap)
          (@getCache (Logging H) type (HotDataAccessTest.base x))) /\
    hot_puts_only (trace type (HotDataAccessTest.base x)).

(** The settings of a hot-spot test: capacity, operations, hot keys,
    cold keys, hot ratio. *)
Definition hot_settings `{Harness} (x : HotDataAccessTest.t)
  : Z * Z * Z * Z * Z :=
  (TestConfig.capacity (config (HotDataAccessTest.base x)),
   TestConfig.operations (config (HotDataAccessTest.base x)),
   HotDataAccessTest.hotKeys x,
   HotDataAccessTest.coldKeys x,
   HotDataAccessTest.hotRatio x).

(** The invariant of the two ratios of [LoopPatternTest]. *)
Definition ratios_ok `{Harness} (x : LoopPatternTest.t) : Prop :=
  0 <= LoopPatternTest.sequentialRatio x <= 100 /\
  0 <= LoopPatternTest.randomRatio x <= 100 /\
  LoopPatternTest.sequentialRatio x + LoopPatternTest.randomRatio x <= 100.

(** [ratio] clamped to [[0, 100]]. *)
Definition clamp (ratio : Z) : Z := Z.min 100 (Z.max 0 ratio).

(** The number of sequential-scan operations among the first [n]
    operations of the access phase of [LoopPatternTest]. *)
Fixpoint scans (sequentialRatio : Z) (n : nat) : Z :=
  match n with
  | O => 0
  | S m =>
      scans sequentialRatio m
      + (if Z.of_nat m mod 100 <? sequentialRatio then 1 else 0)
  end.

(** The key operation [op] of the access phase reads: the scan position
    for a sequential operation, a key of the loop for a random one, a key
    of the range above the loop otherwise. *)
Definition loop_key `{Harness} (x : LoopPatternTest.t) (op key : Z) : Prop :=
  if op mod 100 <? LoopPatternTest.sequentialRatio x then
    key = scans (LoopPatternTest.sequentialRatio x) (Z.to_nat op)
          mod LoopPatternTest.loopSize x
  else if op mod 100
          <? LoopPatternTest.sequentialRatio x + LoopPatternTest.randomRatio x
  then 0 <= key < LoopPatternTest.loopSize x
  else LoopPatternTest.loopSize x <= key < 2 * LoopPatternTest.loopSize x.

(** The puts of the fill phase: keys [0 .. n-1] in order. *)
Definition loop_fill_events (n : nat) : list event :=
  map (fun j => EvPut (Z.of_nat j) (loop_value (Z.of_nat j))) (seq 0 n).

(** The key pattern of [WorkloadShiftTest] for operation [op] with phases
    of length [L]: selected by [phase % 5], [phase] being [op / L]. *)
Definition work_pattern `{Harness} (x : WorkloadShiftTest.t) (L op key : Z)
  : Prop :=
  let phase := op / L in
  let sel := phase mod 5 in
  if sel =? 0 then 0 <= key < 5
  else if sel =? 1 then 0 <= key < WorkloadShiftTest.initialDataSize x
  else if sel =? 2 then key = (op - phase * L) mod 100
  else if sel =? 3 then
    let locality := (op / 1000) mod 10 in
    20 * locality <= key < 20 * locality + 20
  else
    let r := fst (draw (WorkloadShiftTest.base x)) mod 100 in
    if r <? 30 then 0 <= key < 5
    else if r <? 60 then 5 <= key < 100
    else 100 <= key < WorkloadShiftTest.initialDataSize x.

(** [y] has the fields of [x], the base object apart. *)
Definition same_work `{Harness} (x y : WorkloadShiftTest.t) : Prop :=
  WorkloadShiftTest.initialDataSize y = WorkloadShiftTest.initialDataSize x /\
  WorkloadShiftTest.phases y = WorkloadShiftTest.phases x /\
  WorkloadShiftTest.putProbability y = WorkloadShiftTest.putProbability x.

(** The puts of the fill phase of [WorkloadShiftTest]. *)
Definition init_events (n : nat) : list event :=
  map (fun j => EvPut (Z.of_nat j) (init_value (Z.of_nat j))) (seq 0 n).

(** The put and the get of operation [op] in a run of
    [HotDataAccessTest]: the key comes from some generator word. *)
Definition hot_put_event {H : Harness}
  (x : @HotDataAccessTest.t (Logging H)) (op : Z) (e : event) : Prop :=
  exists k g,
    0 <= g < 2 ^ 32 /\ hot_choice x op g = Ok k /\ e = EvPut k (hot_value k).

Definition hot_get_event {H : Harness}
  (x : @HotDataAccessTest.t (Logging H)) (op : Z) (e : event) : Prop :=
  exists k g r,
    0 <= g < 2 ^ 32 /\ hot_choice x op g = Ok k /\ e = EvGet k r.

(** [y] has the fields of [x], the base object apart. *)
Definition same_hot {H : Harness} (x y : @HotDataAccessTest.t (Logging H))
  : Prop :=
  HotDataAccessTest.hotKeys y = HotDataAccessTest.hotKeys x /\
  HotDataAccessTest.coldKeys y = HotDataAccessTest.coldKeys x /\
  HotDataAccessTest.hotRatio y = HotDataAccessTest.hotRatio x.

Definition same_loop `{Harness} (x y : LoopPatternTest.t) : Prop :=
  LoopPatternTest.loopSize y = LoopPatternTest.loopSize x /\
  LoopPatternTest.sequentialRatio y = LoopPatternTest.sequentialRatio x /\
  LoopPatternTest.randomRatio y = LoopPatternTest.randomRatio x.

(** [z] is the object when operation [op] of the access loop begins, in
    a run of [type] from [x] with phases of length [L]: the fill loop and
    the first [op] operations have run. *)
Definition work_state_at `{Harness} (type : CacheType)
  (x : WorkloadShiftTest.t) (L op : Z) (z : WorkloadShiftTest.t) : Prop :=
  exists y,
    for_range 0 (WorkloadShiftTest.initialDataSize x)
      (WorkloadShiftTest.fill_step type)
      (WorkloadShiftTest.with_base
         (resetStats type (WorkloadShiftTest.base x)) x) = Ok y /\
    for_loop (Z.to_nat op) 0 (WorkloadShiftTest.access_step type L) y = Ok z.

(** The events of operation [op] of [WorkloadShiftTest], run from the
    state [z]: the [get] of a key that follows the pattern of the phase,
    the word that decides a mixed phase being the one the generator of
    [z] yields, then possibly the [put] of that key. *)
Definition work_events {H : Harness}
  (z : @WorkloadShiftTest.t (Logging H)) (L op : Z) (evs : list event)
  : Prop :=
  exists key r rest,
    work_pattern z L op key /\
    evs = EvGet key r :: rest /\
    (rest = [] \/ rest = [EvPut key ("new" ++ to_string key)%string]).

(** The invariants behind the capacity bound of each policy.  LRU: the
    list fits the capacity. *)
Definition lru_within (s : Lru.t) : Prop :=
  (length (Lru.entries s) <= Lru.cap s)%nat.

(** LFU: the resident nodes fit the capacity, no key is indexed twice,
    and the bucket of [min_freq] is not empty unless the cache is. *)
Definition lfu_ok (s : Lfu.t) : Prop :=
  (length (Lfu.nodes s) <= Lfu.cap s)%nat /\
  NoDup (map Lfu.key (Lfu.nodes s)) /\
  (Lfu.nodes s <> [] ->
   exists n, In n (Lfu.nodes s) /\ Lfu.count n = Lfu.min_freq s).

(** ARC: the invariants of section 3 that bound the resident entries. *)
Definition arc_ok (s : Arc.t) : Prop :=
  (length (Arc.T1 s) + length (Arc.T2 s) <= Arc.c s)%nat /\
  (length (Arc.T1 s) + length (Arc.B1 s) <= Arc.c s)%nat /\
  (Arc.p s <= Arc.c s)%nat.

(** The invariant of each policy, with its configured capacity. *)
Definition sound_policy (cap : nat) (o : policy) : Prop :=
  match o with
  | PLru s => lru_within s /\ Lru.cap s = cap
  | PLfu s => lfu_ok s /\ Lfu.cap s = cap
  | PArc s => arc_ok s /\ Arc.c s = cap
  end.

(** The same seen through a recording cache: from [b] to [b'] the cache
    of [type] served exactly one [get], for [key] with result [r] (and
    possibly puts after it); one operation was counted, and one hit
    exactly when [r] is a value. *)
Definition counts_logged_get {H : Harness} (type : CacheType)
  (b b' : @CacheTest (Logging H)) : Prop :=
  exists key r rest,
    trace type b' = trace type b ++ EvGet key r :: rest /\
    (forall e, In e rest -> is_put e = true) /\
    operations b' type = operations b type + 1 /\
    hits b' type = hits b type + (if is_hit (EvGet key r) then 1 else 0).

(** From [b] to [b'] the counters and the caches of the policies other
    than [type] are the same. *)
Definition others_kept `{Harness} (type : CacheType) (b b' : CacheTest)
  : Prop :=
  forall type', type' <> type ->
    hits b' type' = hits b type' /\
    operations b' type' = operations b type' /\
    getCache type' b' = getCache type' b.

(** The statistics [printResults] reads after [runTest]: for each policy
    the operations counted are [max(0, n)] and the hits lie between 0 and
    the operations. *)
Definition final_statistics `{Harness} (n : Z) (b : CacheTest) : Prop :=
  forall type,
    operations b type = Z.max 0 n /\ 0 <= hits b type <= operations b type.

(** The events of one operation of [WorkloadShiftTest] with write
    probability [p]: the [get] of [key] with result [r], then the [put]
    of that key when the word [w] drawn for the decision is below [p]. *)
Definition work_op_events (p key : Z) (r : option string) (w : Z)
  : list event :=
  EvGet key r :: (if w <? p then [EvPut key (new_value key)] else []).

(** Every [put] of the trace stored a value that [ok] allows for its
    key. *)
Definition puts_store (ok : Z -> string -> Prop) (l : list event) : Prop :=
  forall k v, In (EvPut k v) l -> ok k v.

(** The values [LoopPatternTest] and [WorkloadShiftTest] write for a
    key. *)
Definition loop_written (k : Z) (v : string) : Prop := v = loop_value k.

Definition work_written (k : Z) (v : string) : Prop :=
  v = init_value k \/ v = new_value k.

(** The recording caches of an object grew from freshly constructed
    caches and were given only values that [ok] allows. *)
Definition caches_store {H : Harness} (ok : Z -> string -> Prop)
  (b : @CacheTest (Logging H)) : Prop :=
  forall type,
    (exists cap,
        faithful H (@constructor H type cap)
          (@getCache (Logging H) type b)) /\
    puts_store ok (trace type b).

(** The word the generator yields at its [i]-th call from state [g]. *)
Definition word_at (g : mt19937) (i : nat) : Z :=
  words g (drawn g + i) mod 2 ^ 32.

(** The put and the get of operation [op] of [HotDataAccessTest], their
    keys computed from the generator words [w] and [w']. *)
Definition hot_put_of {H : Harness} (x : @HotDataAccessTest.t (Logging H))
  (op w : Z) (e : event) : Prop :=
  exists k, hot_choice x op w = Ok k /\ e = EvPut k (hot_value k).

Definition hot_get_of {H : Harness} (x : @HotDataAccessTest.t (Logging H))
  (op w : Z) (e : event) : Prop :=
  exists k r, hot_choice x op w = Ok k /\ e = EvGet k r.

(** The number of events of a trace that satisfy [p]; the [get]s. *)
Definition count_events (p : event -> bool) (l : list event) : Z :=
  Z.of_nat (length (filter p l)).

Definition is_get (e : event) : bool := negb (is_put e).

(** From [b] to [b'] the cache of [type] served the calls [evs], and the
    two counters of [type] grew by the number of [get]s and by the number
    of [get]s that returned a value. *)
Definition counts_logged {H : Harness} (type : CacheType)
  (b b' : @CacheTest (Logging H)) (evs : list event) : Prop :=
  trace type b' = trace type b ++ evs /\
  operations b' type = operations b type + count_events is_get evs /\
  hits b' type = hits b type + count_events is_hit evs.

(** A generator state and small configurations to run the driver on. *)
Definition seed0 : mt19937 :=
  {| words := fun n => Z.of_nat n * 2654435761 + 12345; drawn := 0 |}.

(** [main]'s hot-spot test cut down to [n] operations, linked against the
    three policies behind recording caches. *)
Definition hot_small (n : Z) : @HotDataAccessTest.t (Logging linked) :=
  let hotTest := main_hotTest seed0 in
  HotDataAccessTest.with_base
    (setOperations n (HotDataAccessTest.base hotTest)) hotTest.

Definition hot_small_end (n : Z) : @HotDataAccessTest.t (Logging linked) :=
  match HotDataAccessTest.runTestForCacheType LRU (hot_small n) with
  | Ok x => x
  | UB _ => hot_small n
  end.

(** The same after [setHotKeys(-1)]. *)
Definition hot_negative : @HotDataAccessTest.t (Logging linked) :=
  HotDataAccessTest.setHotKeys (-1) (hot_small 1).

(** [main]'s loop test cut down to a loop of [size] keys and [n]
    operations. *)
Definition loop_small (size n : Z) : @LoopPatternTest.t (Logging linked) :=
  let loopTest := main_loopTest seed0 in
  LoopPatternTest.setLoopSize size
    (LoopPatternTest.with_base
       (setOperations n (LoopPatternTest.base loopTest)) loopTest).

Definition loop_small_end (size n : Z) : @LoopPatternTest.t (Logging linked) :=
  match LoopPatternTest.runTestForCacheType LRU (loop_small size n) with
  | Ok x => x
  | UB _ => loop_small size n
  end.

(** [main]'s workload test cut down to [n] operations in [count]
    phases. *)
Definition work_small (n count : Z) : @WorkloadShiftTest.t (Logging linked) :=
  let workloadTest := main_workloadTest seed0 in
  WorkloadShiftTest.setPhases count
    (WorkloadShiftTest.with_base
       (setOperations n (WorkloadShiftTest.base workloadTest)) workloadTest).

Definition work_small_end (n count : Z)
  : @WorkloadShiftTest.t (Logging linked) :=
  match WorkloadShiftTest.runTestForCacheType LRU (work_small n count) with
  | Ok x => x
  | UB _ => work_small n count
  end.

(** The workload test with 5 operations in 5 phases, after
    [setInitialDataSize(50)]. *)
Definition work_short : @WorkloadShiftTest.t (Logging linked) :=
  WorkloadShiftTest.setInitialDataSize 50 (work_small 5 5).

(** The loop test after [runTest] with a loop of 20 keys and one
    operation; the same after [setSequentialRatio(0)],
    [setRandomRatio(0)] and [setLoopSize(10)]. *)
Definition loop_first_end : @LoopPatternTest.t (Logging linked) :=
  match LoopPatternTest.runTest (loop_small 20 1) with
  | Ok x => x
  | UB _ => loop_small 20 1
  end.

Definition loop_second : @LoopPatternTest.t (Logging linked) :=
  LoopPatternTest.setLoopSize 10
    (LoopPatternTest.setRandomRatio 0
       (LoopPatternTest.setSequentialRatio 0 loop_first_end)).

(* ================================================================== *)
(** * Properties *)

(** ** Arithmetic of the key expressions *)

Lemma is_int_spec x : is_int x = true <-> INT_MIN <= x <= INT_MAX.
Proof. unfold is_int. rewrite andb_true_iff, !Z.leb_le. tauto. Qed.

Lemma checked_ok x : INT_MIN <= x <= INT_MAX -> checked x = Ok x.
Proof.
  intros Hx. unfold checked.
  destruct (is_int x) eqn:E; [reflexivity|].
  apply is_int_spec in Hx. congruence.
Qed.

Lemma pow_word_bits W : (32 <=? W) = true -> 2 ^ 32 <= 2 ^ W.
Proof. intros HW. apply Z.leb_le in HW. apply Z.pow_le_mono_r; lia. Qed.

Lemma to_unsigned_small W x :
  (32 <=? W) = true -> 0 <= x < 2 ^ 32 -> to_unsigned W x = x.
Proof.
  intros HW Hx. unfold to_unsigned. apply Z.mod_small.
  pose proof (pow_word_bits W HW). lia.
Qed.

Lemma to_int_small u : - 2 ^ 31 <= u < 2 ^ 31 -> to_int u = u.
Proof.
  intros Hu. unfold to_int.
  rewrite Z.mod_small by lia. lia.
Qed.

Lemma urem_ok W g d :
  (32 <=? W) = true -> 0 < d < 2 ^ 32 ->
  urem W g d = Ok (g mod d) /\ 0 <= g mod d < d.
Proof.
  intros HW Hd. unfold urem. rewrite to_unsigned_small by (auto; lia).
  destruct (d =? 0) eqn:E; [apply Z.eqb_eq in E; lia|].
  split; [reflexivity|]. apply Z.mod_pos_bound; lia.
Qed.

Lemma offset_urem_ok W a g d :
  (32 <=? W) = true -> 0 <= a -> 0 < d -> a + d <= 2 ^ 31 ->
  offset_urem W a g d = Ok (a + g mod d) /\ a <= a + g mod d < a + d.
Proof.
  intros HW Ha Hd Hs. unfold offset_urem.
  destruct (urem_ok W g d HW) as [-> Hr]; [lia|]. simpl.
  pose proof (pow_word_bits W HW) as HP.
  unfold uadd. rewrite to_unsigned_small by (auto; lia).
  rewrite Z.mod_small by lia.
  rewrite to_int_small by lia. split; [reflexivity|lia].
Qed.

Lemma rem_100_nonneg op : 0 <= op -> Z.rem op 100 = op mod 100.
Proof. intros Hop. apply Z.rem_mod_nonneg; lia. Qed.

(** ** Loops *)

Lemma for_loop_inv {St : Type} (P : Z -> St -> Prop) (body : Z -> St -> res St) :
  forall n i s s',
    P i s ->
    (forall j x x',
        i <= j < i + Z.of_nat n -> P j x -> body j x = Ok x' -> P (j + 1) x') ->
    for_loop n i body s = Ok s' ->
    P (i + Z.of_nat n) s'.
Proof.
  induction n as [|n IH]; intros i s s' Hs Hstep Hrun.
  - simpl in Hrun. injection Hrun as <-. now replace (i + Z.of_nat 0) with i by lia.
  - cbn [for_loop] in Hrun.
    destruct (body i s) as [x|f] eqn:Hb; [|discriminate].
    cbn [bind] in Hrun.
    replace (i + Z.of_nat (S n)) with ((i + 1) + Z.of_nat n) by lia.
    apply (IH (i + 1) x s'); auto.
    + apply (Hstep i s x); auto. lia.
    + intros j y y' Hj. apply Hstep. lia.
Qed.

Lemma for_loop_ok {St : Type} (P : Z -> St -> Prop) (body : Z -> St -> res St) :
  forall n i s,
    P i s ->
    (forall j x,
        i <= j < i + Z.of_nat n -> P j x ->
        exists x', body j x = Ok x' /\ P (j + 1) x') ->
    exists s', for_loop n i body s = Ok s' /\ P (i + Z.of_nat n) s'.
Proof.
  induction n as [|n IH]; intros i s Hs Hstep.
  - exists s. split; [reflexivity|]. now replace (i + Z.of_nat 0) with i by lia.
  - destruct (Hstep i s) as (x & Hb & Hx); [lia|assumption|].
    destruct (IH (i + 1) x Hx) as (s' & Hrun & Hs').
    + intros j y Hj. apply Hstep. lia.
    + exists s'. cbn [for_loop]. rewrite Hb. cbn [bind]. split; [assumption|].
      now replace (i + Z.of_nat (S n)) with ((i + 1) + Z.of_nat n) by lia.
Qed.

Lemma for_loop_snoc {St : Type} (body : Z -> St -> res St) :
  forall n i s z z',
    for_loop n i body s = Ok z -> body (i + Z.of_nat n) z = Ok z' ->
    for_loop (S n) i body s = Ok z'.
Proof.
  induction n as [|n IH]; intros i s z z' Hrun Hs.
  - cbn [for_loop] in Hrun. injection Hrun as ->.
    change (Z.of_nat 0) with 0 in Hs. rewrite Z.add_0_r in Hs.
    cbn [for_loop]. now rewrite Hs.
  - cbn [for_loop] in Hrun.
    destruct (body i s) as [s1|f] eqn:E; [|discriminate].
    cbn [bind] in Hrun.
    change (for_loop (S (S n)) i body s)
      with (s' <- body i s ;; for_loop (S n) (i + 1) body s').
    rewrite E. cbn [bind]. apply (IH (i + 1) s1 z z' Hrun).
    replace (i + 1 + Z.of_nat n) with (i + Z.of_nat (S n)) by lia.
    exact Hs.
Qed.

Lemma for_loop_fault {St : Type} (body : Z -> St -> res St) n i s f :
  body i s = UB f -> for_loop (S n) i body s = UB f.
Proof. intros Hb. simpl. now rewrite Hb. Qed.

(** The events a loop adds to a trace are those of its iterations, in
    order. *)
Lemma for_loop_trace {St : Type} (tr : St -> list event)
  (P : Z -> St -> Prop) (Q : Z -> list event -> Prop)
  (body : Z -> St -> res St) :
  forall n i s s',
    P i s ->
    (forall j x x',
        i <= j < i + Z.of_nat n -> P j x -> body j x = Ok x' ->
        P (j + 1) x' /\ exists evs, tr x' = tr x ++ evs /\ Q j evs) ->
    for_loop n i body s = Ok s' ->
    P (i + Z.of_nat n) s' /\
    exists ess,
      length ess = n /\ tr s' = tr s ++ concat ess /\
      forall j, (j < n)%nat -> Q (i + Z.of_nat j) (nth j ess []).
Proof.
  induction n as [|n IH]; intros i s s' Hs Hstep Hrun.
  - simpl in Hrun. injection Hrun as <-.
    replace (i + Z.of_nat 0) with i by lia. split; [assumption|].
    exists []. simpl. rewrite app_nil_r. repeat split; intros; lia.
  - cbn [for_loop] in Hrun.
    destruct (body i s) as [x|f] eqn:Hb; [|discriminate].
    cbn [bind] in Hrun.
    destruct (Hstep i s x) as (Hx & evs & Htr & Hq); [lia|assumption..|].
    destruct (IH (i + 1) x s' Hx) as (Hs' & ess & Hlen & Htr' & Hall); auto.
    { intros j y y' Hj. apply Hstep. lia. }
    replace (i + Z.of_nat (S n)) with ((i + 1) + Z.of_nat n) by lia.
    split; [assumption|].
    exists (evs :: ess). cbn [length concat]. split; [now rewrite Hlen|].
    split; [rewrite Htr', Htr, app_assoc; reflexivity|].
    intros [|j] Hj.
    + now replace (i + Z.of_nat 0) with i by lia.
    + replace (i + Z.of_nat (S j)) with ((i + 1) + Z.of_nat j) by lia.
      apply Hall. lia.
Qed.

(** When every iteration adds exactly one event. *)
Lemma concat_singletons (R : Z -> event -> Prop) :
  forall ess i,
    (forall j, (j < length ess)%nat ->
               exists e, nth j ess [] = [e] /\ R (i + Z.of_nat j) e) ->
    length (concat ess) = length ess /\
    forall j, (j < length ess)%nat ->
              exists e, nth_error (concat ess) j = Some e /\
                        R (i + Z.of_nat j) e.
Proof.
  induction ess as [|es ess IH]; intros i Hall.
  - simpl. split; [reflexivity|]. intros; lia.
  - destruct (Hall O) as (e & He & Hr); [simpl; lia|]. simpl in He. subst es.
    destruct (IH (i + 1)) as (Hlen & Hnth).
    { intros j Hj. destruct (Hall (S j)) as (e' & He' & Hr'); [simpl; lia|].
      exists e'. split; [exact He'|].
      now replace (i + 1 + Z.of_nat j) with (i + Z.of_nat (S j)) by lia. }
    simpl. split; [now rewrite Hlen|].
    intros [|j] Hj.
    + exists e. split; [reflexivity|exact Hr].
    + destruct (Hnth j) as (e' & He' & Hr'); [simpl in Hj; lia|].
      exists e'. split; [exact He'|].
      now replace (i + Z.of_nat (S j)) with (i + 1 + Z.of_nat j) by lia.
Qed.


(** ** The shared statements of [CacheTest] *)

Section CacheTestFacts.
Context `{H : Harness}.

Lemma set_counter_same m t v : set_counter m t v t = v.
Proof. unfold set_counter. now destruct t. Qed.

Lemma getCache_setCache type c (b : CacheTest) :
  getCache type (setCache type c b) = c.
Proof. now destruct type. Qed.

Lemma draw_fields (b : CacheTest) :
  config (snd (draw b)) = config b /\
  hits (snd (draw b)) = hits b /\
  operations (snd (draw b)) = operations b /\
  (forall type, getCache type (snd (draw b)) = getCache type b) /\
  0 <= fst (draw b) < 2 ^ 32.
Proof.
  unfold draw, next. cbn [fst snd config hits operations].
  repeat split; try (apply Z.mod_pos_bound; lia).
Qed.

Lemma cache_put_fields type k v (b : CacheTest) :
  config (cache_put type k v b) = config b /\
  hits (cache_put type k v b) = hits b /\
  operations (cache_put type k v b) = operations b /\
  getCache type (cache_put type k v b) = put k v (getCache type b).
Proof. unfold cache_put. destruct type; repeat split. Qed.

(** One [lookup] counts one operation, and one hit exactly when [get]
    returned a value. *)
Lemma lookup_fields type k (b : CacheTest) :
  config (lookup type k b) = config b /\
  operations (lookup type k b) type = operations b type + 1 /\
  hits (lookup type k b) type =
    hits b type +
      match fst (get k (getCache type b)) with Some _ => 1 | None => 0 end /\
  getCache type (lookup type k b) = snd (get k (getCache type b)).
Proof.
  unfold lookup.
  destruct (get k (getCache type b)) as [[v|] c'] eqn:E;
    destruct type; cbn; rewrite ?set_counter_same; repeat split; lia.
Qed.

Lemma resetStats_fields type (b : CacheTest) :
  config (resetStats type b) = config b /\
  hits (resetStats type b) type = 0 /\
  operations (resetStats type b) type = 0 /\
  (forall type', getCache type' (resetStats type b) = getCache type' b).
Proof.
  unfold resetStats. cbn [config hits operations].
  rewrite !set_counter_same. repeat split.
Qed.

Lemma srem_ok a d :
  0 <= a -> is_int a = true -> d <> 0 -> srem a d = Ok (Z.rem a d).
Proof.
  intros Ha Hint Hd. unfold srem.
  destruct (Z.eqb_spec d 0); [contradiction|].
  apply is_int_spec in Hint. unfold INT_MIN, INT_MAX in Hint.
  assert (Hq : Z.abs (Z.quot a d) <= a).
  { rewrite <- Z.quot_abs by assumption. rewrite (Z.abs_eq a) by lia.
    apply Z.quot_le_upper_bound; [lia|].
    assert (1 <= Z.abs d) by lia. nia. }
  destruct (is_int (Z.quot a d)) eqn:E; [reflexivity|].
  assert (is_int (Z.quot a d) = true).
  { apply is_int_spec. unfold INT_MIN, INT_MAX. lia. }
  congruence.
Qed.

Lemma showProgress_ok cfg current total :
  progress_ok cfg -> 0 <= current -> is_int current = true ->
  showProgress cfg current total = Ok tt.
Proof.
  intros Hbar Hc Hint. unfold showProgress.
  destruct (TestConfig.showProgressBar cfg) eqn:E; simpl; [|reflexivity].
  destruct Hbar as [Hbar|Hbar]; [congruence|].
  now rewrite srem_ok.
Qed.
End CacheTestFacts.

(** ** The recording caches *)

Section LoggingFacts.
Context {H : Harness}.

Lemma trace_cache_put type k v (b : @CacheTest (Logging H)) :
  trace type (cache_put type k v b) = trace type b ++ [EvPut k v].
Proof. unfold trace, cache_put. now rewrite getCache_setCache. Qed.

Lemma trace_lookup type k (b : @CacheTest (Logging H)) :
  exists r, trace type (lookup type k b) = trace type b ++ [EvGet k r] /\
            hits (lookup type k b) type =
              hits b type + (if is_hit (EvGet k r) then 1 else 0).
Proof.
  destruct (lookup_fields type k b) as (_ & _ & Hh & Hc).
  unfold trace. rewrite Hc, Hh.
  cbn [get C_policy Logging logged_policy].
  destruct (get k (fst (getCache type b))) as [r c'].
  exists r. split; [reflexivity|]. now destruct r.
Qed.

Lemma trace_draw type (b : @CacheTest (Logging H)) :
  trace type (snd (draw b)) = trace type b.
Proof.
  unfold trace. destruct (draw_fields b) as (_ & _ & _ & Hc & _).
  now rewrite Hc.
Qed.

Lemma trace_resetStats type (b : @CacheTest (Logging H)) :
  trace type (resetStats type b) = trace type b.
Proof.
  unfold trace. destruct (resetStats_fields type b) as (_ & _ & _ & Hc).
  now rewrite Hc.
Qed.

Lemma faithful_state c0 cl :
  faithful H c0 cl -> fst cl = exec c0 (map call_of (snd cl)).
Proof.
  induction 1 as [|cl k v _ IH|cl k _ IH]; [reflexivity| |].
  - cbn [put logged_policy fst snd]. rewrite map_app.
    unfold exec in *. rewrite fold_left_app. cbn. now rewrite IH.
  - cbn [get logged_policy]. destruct (get k (fst cl)) as [r c'] eqn:E.
    cbn [fst snd]. rewrite map_app. unfold exec in *.
    rewrite fold_left_app. cbn. now rewrite <- IH, E.
Qed.

(** In a recording cache grown from a cache without phantoms, a logged
    hit is preceded in the trace by the [put] of that key and value. *)
Lemma faithful_hit c0 cl :
  no_phantoms c0 -> faithful H c0 cl ->
  forall k v, In (EvGet k (Some v)) (snd cl) -> In (EvPut k v) (snd cl).
Proof.
  intros Hnp. induction 1 as [|cl k' v' Hf IH|cl k' Hf IH]; intros k v Hin.
  - contradiction.
  - cbn [put logged_policy fst snd] in *. apply in_app_iff in Hin.
    apply in_app_iff. destruct Hin as [Hin|[Hin|[]]]; [auto|discriminate].
  - cbn [get logged_policy] in *.
    destruct (get k' (fst cl)) as [r c'] eqn:E. cbn [fst snd] in *.
    apply in_app_iff in Hin. apply in_app_iff.
    destruct Hin as [Hin|[Hin|[]]]; [auto|].
    injection Hin as -> ->. left.
    rewrite (faithful_state _ _ Hf) in E.
    assert (Hp : In (Put k v) (map call_of (snd cl))).
    { apply Hnp. now rewrite E. }
    apply in_map_iff in Hp. destruct Hp as ([k0 v0|k0 r0] & Hc & Hp);
      [|discriminate].
    now injection Hc as -> ->.
Qed.
End LoggingFacts.

Lemma bind_ok {A B : Type} (m : res A) (k : A -> res B) (b : B) :
  bind m k = Ok b -> exists a, m = Ok a /\ k a = Ok b.
Proof. destruct m as [a|f]; [eauto|discriminate]. Qed.

Ltac inv_bind Hb :=
  let a := fresh "a" in
  let Ha := fresh "Ha" in
  apply bind_ok in Hb; destruct Hb as (a & Ha & Hb).

(** [runTest] that completes is its three runs, then [printResults]. *)
Lemma hot_runTest_runs `{H : Harness} (x x' : HotDataAccessTest.t) :
  HotDataAccessTest.runTest x = Ok x' ->
  exists x1 x2,
    HotDataAccessTest.runTestForCacheType LRU x = Ok x1 /\
    HotDataAccessTest.runTestForCacheType LFU x1 = Ok x2 /\
    HotDataAccessTest.runTestForCacheType ARC x2 = Ok x' /\
    printResults (HotDataAccessTest.base x') = Ok tt.
Proof.
  unfold HotDataAccessTest.runTest. intros Hrun.
  inv_bind Hrun. inv_bind Hrun. inv_bind Hrun. inv_bind Hrun.
  injection Hrun as <-. destruct a2. eauto 6.
Qed.

Lemma loop_runTest_runs `{H : Harness} (x x' : LoopPatternTest.t) :
  LoopPatternTest.runTest x = Ok x' ->
  exists x1 x2,
    LoopPatternTest.runTestForCacheType LRU x = Ok x1 /\
    LoopPatternTest.runTestForCacheType LFU x1 = Ok x2 /\
    LoopPatternTest.runTestForCacheType ARC x2 = Ok x' /\
    printResults (LoopPatternTest.base x') = Ok tt.
Proof.
  unfold LoopPatternTest.runTest. intros Hrun.
  inv_bind Hrun. inv_bind Hrun. inv_bind Hrun. inv_bind Hrun.
  injection Hrun as <-. destruct a2. eauto 6.
Qed.

Lemma work_runTest_runs `{H : Harness} (x x' : WorkloadShiftTest.t) :
  WorkloadShiftTest.runTest x = Ok x' ->
  exists x1 x2,
    WorkloadShiftTest.printTestParameters x = Ok tt /\
    WorkloadShiftTest.runTestForCacheType LRU x = Ok x1 /\
    WorkloadShiftTest.runTestForCacheType LFU x1 = Ok x2 /\
    WorkloadShiftTest.runTestForCacheType ARC x2 = Ok x' /\
    printResults (WorkloadShiftTest.base x') = Ok tt.
Proof.
  unfold WorkloadShiftTest.runTest. intros Hrun.
  inv_bind Hrun. inv_bind Hrun. inv_bind Hrun. inv_bind Hrun. inv_bind Hrun.
  injection Hrun as <-. destruct a, a3. eauto 8.
Qed.

(** ** [HotDataAccessTest]: one iteration *)

Section HotSteps.
Context `{H : Harness}.
Import HotDataAccessTest.

Lemma hot_pick_key op (x : t) :
  pick_key op x =
  (k <- hot_choice x op (fst (draw (base x))) ;; Ok (k, snd (draw (base x)))).
Proof.
  unfold pick_key, hot_choice.
  destruct (draw (base x)) as [g b]. cbn [fst snd].
  destruct (Z.rem op 100 <? hotRatio x); [|reflexivity].
  now destruct (urem word_bits g (hotKeys x)).
Qed.

Lemma hot_fill_step type op (x x' : t) :
  fill_step type op x = Ok x' ->
  exists key,
    hot_choice x op (fst (draw (base x))) = Ok key /\
    x' = with_base (cache_put type key (hot_value key) (snd (draw (base x)))) x.
Proof.
  unfold fill_step. rewrite hot_pick_key. intros Hs.
  inv_bind Hs. destruct a as [key b]. inv_bind Ha. injection Ha as <- <-.
  inv_bind Hs. injection Hs as <-. eauto.
Qed.

Lemma hot_access_step type op (x x' : t) :
  access_step type op x = Ok x' ->
  exists key,
    hot_choice x op (fst (draw (base x))) = Ok key /\
    x' = with_base (lookup type key (snd (draw (base x)))) x.
Proof.
  unfold access_step. rewrite hot_pick_key. intros Hs.
  inv_bind Hs. destruct a as [key b]. inv_bind Ha. injection Ha as <- <-.
  inv_bind Hs. injection Hs as <-. eauto.
Qed.

(** With non-empty key ranges that fit [int], the key of a hot operation
    is a hot key and the key of any other operation a cold key. *)
Lemma hot_choice_range (x : t) op g :
  0 <= op -> 0 < hotKeys x -> 0 < coldKeys x ->
  hotKeys x + coldKeys x <= 2 ^ 31 ->
  exists key,
    hot_choice x op g = Ok key /\
    if is_hot_op x op then in_hot_range x key else in_cold_range x key.
Proof.
  intros Hop Hh Hc Hs. unfold hot_choice, is_hot_op.
  rewrite rem_100_nonneg by assumption.
  destruct (op mod 100 <? hotRatio x).
  - destruct (urem_ok word_bits g (hotKeys x) word_bits_ge) as [-> Hr];
      [lia|].
    cbn [bind]. exists (to_int (g mod hotKeys x)). split; [reflexivity|].
    unfold in_hot_range. rewrite to_int_small; lia.
  - destruct (offset_urem_ok word_bits (hotKeys x) g (coldKeys x)
                word_bits_ge) as [-> Hr]; try lia.
    eexists. split; [reflexivity|]. exact Hr.
Qed.
End HotSteps.

(** ** [HotDataAccessTest]: a whole run, seen through recording caches *)

Section HotRun.
Context {H : Harness}.
Import HotDataAccessTest.

Local Abbreviation T := (@t (Logging H)).

Lemma hot_choice_same (x y : T) op g :
  same_hot x y -> hot_choice y op g = hot_choice x op g.
Proof. intros (Hh & Hc & Hr). unfold hot_choice. now rewrite Hh, Hc, Hr. Qed.

Lemma hot_fill_trace type (x : T) n : forall (y y' : T),
  same_hot x y ->
  for_loop n 0 (fill_step type) y = Ok y' ->
  (same_hot x y' /\ config (base y') = config (base y) /\
   hits (base y') = hits (base y) /\
   operations (base y') = operations (base y)) /\
  exists puts,
    trace type (base y') = trace type (base y) ++ puts /\
    length puts = n /\
    forall j, (j < n)%nat ->
      exists e, nth_error puts j = Some e /\ hot_put_event x (Z.of_nat j) e.
Proof.
  intros y y' Hy Hrun.
  destruct (for_loop_trace (fun z : T => trace type (base z))
              (fun _ (z : T) => same_hot x z /\
                               config (base z) = config (base y) /\
                               hits (base z) = hits (base y) /\
                               operations (base z) = operations (base y))
              (fun j evs => exists e, evs = [e] /\ hot_put_event x j e)
              (fill_step type) n 0 y y') as (HP & ess & Hlen & Htr & Hq);
    auto.
  - intros j z z' Hj (Hz & Hcfg & Hh & Ho) Hstep.
    apply hot_fill_step in Hstep. destruct Hstep as (key & Hk & ->).
    destruct (draw_fields (base z)) as (Hc1 & Hh1 & Ho1 & _ & Hg).
    destruct (cache_put_fields type key (hot_value key) (snd (draw (base z))))
      as (Hc2 & Hh2 & Ho2 & _).
    cbn [base with_base]. rewrite Hc2, Hh2, Ho2, Hc1, Hh1, Ho1.
    split; [auto|].
    exists [EvPut key (hot_value key)]. split.
    + now rewrite trace_cache_put, trace_draw.
    + exists (EvPut key (hot_value key)). split; [reflexivity|].
      exists key, (fst (draw (base z))). repeat split; try apply Hg.
      now rewrite <- (hot_choice_same x z).
  - split; [exact HP|].
    destruct (concat_singletons (hot_put_event x) ess 0) as (Hl & Hn).
    { intros j Hj. rewrite Hlen in Hj. apply (Hq j Hj). }
    exists (concat ess). rewrite Hl, Hlen. repeat split; auto.
    intros j Hj. rewrite <- Hlen in Hj. apply (Hn j Hj).
Qed.

Lemma hot_access_trace type (x : T) n : forall (y y' : T),
  same_hot x y ->
  for_loop n 0 (access_step type) y = Ok y' ->
  (same_hot x y' /\ config (base y') = config (base y)) /\
  exists gets,
    trace type (base y') = trace type (base y) ++ gets /\
    length gets = n /\
    forall j, (j < n)%nat ->
      exists e, nth_error gets j = Some e /\ hot_get_event x (Z.of_nat j) e.
Proof.
  intros y y' Hy Hrun.
  destruct (for_loop_trace (fun z : T => trace type (base z))
              (fun _ (z : T) => same_hot x z /\
                               config (base z) = config (base y))
              (fun j evs => exists e, evs = [e] /\ hot_get_event x j e)
              (access_step type) n 0 y y') as (HP & ess & Hlen & Htr & Hq);
    auto.
  - intros j z z' Hj (Hz & Hcfg) Hstep.
    apply hot_access_step in Hstep. destruct Hstep as (key & Hk & ->).
    destruct (draw_fields (base z)) as (Hc1 & _ & _ & _ & Hg).
    destruct (lookup_fields type key (snd (draw (base z)))) as (Hc2 & _).
    destruct (trace_lookup type key (snd (draw (base z)))) as (r & Hr & _).
    cbn [base with_base]. rewrite Hc2, Hc1.
    split; [auto|].
    exists [EvGet key r]. split.
    + now rewrite Hr, trace_draw.
    + exists (EvGet key r). split; [reflexivity|].
      exists key, (fst (draw (base z))), r. repeat split; try apply Hg.
      now rewrite <- (hot_choice_same x z).
  - split; [exact HP|].
    destruct (concat_singletons (hot_get_event x) ess 0) as (Hl & Hn).
    { intros j Hj. rewrite Hlen in Hj. apply (Hq j Hj). }
    exists (concat ess). rewrite Hl, Hlen. repeat split; auto.
    intros j Hj. rewrite <- Hlen in Hj. apply (Hn j Hj).
Qed.

(** The trace of one run: [n] puts, then [n] gets, the key of each
    computed from the operation index and a generator word. *)
Lemma hot_run_trace type (x x' : T) :
  runTestForCacheType type x = Ok x' ->
  let n := Z.to_nat (TestConfig.operations (config (base x))) in
  same_hot x x' /\ config (base x') = config (base x) /\
  exists puts gets,
    trace type (base x') = trace type (base x) ++ puts ++ gets /\
    length puts = n /\ length gets = n /\
    forall j, (j < n)%nat ->
      exists e e',
        nth_error puts j = Some e /\ hot_put_event x (Z.of_nat j) e /\
        nth_error gets j = Some e' /\ hot_get_event x (Z.of_nat j) e'.
Proof.
  unfold runTestForCacheType, for_range. intros Hrun.
  inv_bind Hrun. rename a into y.
  destruct (resetStats_fields type (base x)) as (Hc0 & _).
  cbn [base with_base] in *. rewrite Hc0, Z.sub_0_r in *.
  apply (hot_fill_trace type x) in Ha; [|now repeat split].
  destruct Ha as ((Hy & Hcy & _) & puts & Htr1 & Hl1 & Hp).
  cbn [base with_base] in *. rewrite Hc0 in Hcy. 
  apply (hot_access_trace type x) in Hrun; [|assumption].
  destruct Hrun as ((Hx' & Hcx) & gets & Htr2 & Hl2 & Hg).
  split; [assumption|]. split; [congruence|].
  exists puts, gets. rewrite Htr2, Htr1, trace_resetStats, app_assoc.
  repeat split; auto.
  intros j Hj. destruct (Hp j Hj) as (e & He & Hpe).
  destruct (Hg j Hj) as (e' & He' & Hge). eauto 6.
Qed.
End HotRun.

(** ** [HotDataAccessTest]: what every object satisfies *)

Section HotInvariant.
Context `{H : Harness}.
Import HotDataAccessTest.

Lemma hot_loop_fields (body : Z -> t -> res t) (x : t) :
  (forall j y y', body j y = Ok y' ->
     hotKeys y' = hotKeys y /\ coldKeys y' = coldKeys y /\
     hotRatio y' = hotRatio y /\ config (base y') = config (base y)) ->
  forall n i y y',
    for_loop n i body y = Ok y' ->
    hotKeys y' = hotKeys y /\ coldKeys y' = coldKeys y /\
    hotRatio y' = hotRatio y /\ config (base y') = config (base y).
Proof.
  intros Hbody n i y y' Hrun.
  apply (for_loop_inv
           (fun _ z => hotKeys z = hotKeys y /\ coldKeys z = coldKeys y /\
                       hotRatio z = hotRatio y /\
                       config (base z) = config (base y))
           body n i y y'); auto.
  intros j z z' _ (Hh & Hc & Hr & Hcfg) Hstep.
  apply Hbody in Hstep. destruct Hstep as (-> & -> & -> & ->). auto.
Qed.

Lemma hot_fill_fields type j (y y' : t) :
  fill_step type j y = Ok y' ->
  hotKeys y' = hotKeys y /\ coldKeys y' = coldKeys y /\
  hotRatio y' = hotRatio y /\ config (base y') = config (base y).
Proof.
  intros Hs. apply hot_fill_step in Hs. destruct Hs as (key & _ & ->).
  destruct (draw_fields (base y)) as (Hc1 & _).
  destruct (cache_put_fields type key (hot_value key) (snd (draw (base y))))
    as (Hc2 & _).
  cbn [base with_base hotKeys coldKeys hotRatio]. now rewrite Hc2, Hc1.
Qed.

Lemma hot_access_fields type j (y y' : t) :
  access_step type j y = Ok y' ->
  hotKeys y' = hotKeys y /\ coldKeys y' = coldKeys y /\
  hotRatio y' = hotRatio y /\ config (base y') = config (base y).
Proof.
  intros Hs. apply hot_access_step in Hs. destruct Hs as (key & _ & ->).
  destruct (draw_fields (base y)) as (Hc1 & _).
  destruct (lookup_fields type key (snd (draw (base y)))) as (Hc2 & _).
  cbn [base with_base hotKeys coldKeys hotRatio]. now rewrite Hc2, Hc1.
Qed.

Lemma hot_run_fields type (x x' : t) :
  runTestForCacheType type x = Ok x' ->
  hotKeys x' = hotKeys x /\ coldKeys x' = coldKeys x /\
  hotRatio x' = hotRatio x /\ config (base x') = config (base x).
Proof.
  unfold runTestForCacheType, for_range. intros Hrun. inv_bind Hrun.
  apply (hot_loop_fields (fill_step type) x (hot_fill_fields type)) in Ha.
  apply (hot_loop_fields (access_step type) x (hot_access_fields type))
    in Hrun.
  destruct (resetStats_fields type (base x)) as (Hc0 & _).
  cbn [base with_base hotKeys coldKeys hotRatio] in Ha.
  destruct Ha as (Ha1 & Ha2 & Ha3 & Ha4).
  destruct Hrun as (-> & -> & -> & ->). rewrite Ha4, Hc0. auto.
Qed.

Lemma hot_runTest_fields (x x' : t) :
  runTest x = Ok x' ->
  hotKeys x' = hotKeys x /\ coldKeys x' = coldKeys x /\
  hotRatio x' = hotRatio x /\ config (base x') = config (base x).
Proof.
  intros Hrun. apply hot_runTest_runs in Hrun.
  destruct Hrun as (a & a0 & Ha & Ha0 & Hrun & _).
  apply hot_run_fields in Ha, Ha0, Hrun.
  destruct Ha as (Ha1 & Ha2 & Ha3 & Ha4).
  destruct Ha0 as (Hb1 & Hb2 & Hb3 & Hb4).
  destruct Hrun as (-> & -> & -> & ->).
  rewrite Hb1, Hb2, Hb3, Hb4. auto.
Qed.

(** The constructor sets a ratio of 70 and [setHotRatio] clamps. *)
Lemma hot_ratio_bounds (x : t) : reachable x -> 0 <= hotRatio x <= 100.
Proof.
  induction 1 as [g| | | | | | |r x Hx IH Hr|x x' Hx IH Hrun
                 |ty x x' Hx IH Hrun];
    cbn [hotRatio new with_base setHotKeys setColdKeys]; try lia.
  - unfold setHotRatio. cbn [hotRatio].
    destruct (r <? 0) eqn:E1.
    + now destruct (0 >? 100) eqn:E2.
    + destruct (r >? 100) eqn:E2; lia.
  - apply hot_runTest_fields in Hrun. destruct Hrun as (_ & _ & -> & _). lia.
  - apply hot_run_fields in Hrun. destruct Hrun as (_ & _ & -> & _). lia.
Qed.
End HotInvariant.

(** ** Counting over aligned blocks *)

Lemma count_prefix_true {A : Type} (p : A -> bool) :
  forall (l : list A) (r : nat),
    (forall j, (j < length l)%nat ->
               exists e, nth_error l j = Some e /\ p e = (j <? r)%nat) ->
    length (filter p l) = Nat.min r (length l).
Proof.
  induction l as [|a l IH]; intros r Hall.
  - now rewrite Nat.min_0_r.
  - destruct (Hall O) as (e & He & Hp); [simpl; lia|].
    injection He as <-. cbn [filter length].
    assert (Htl : forall r', (forall j, (S j <? r)%nat = (j <? r')%nat) ->
                             length (filter p l) = Nat.min r' (length l)).
    { intros r' Hr'. apply IH. intros j Hj.
      destruct (Hall (S j)) as (e & He & Hpe); [simpl; lia|].
      exists e. split; [exact He|]. now rewrite Hpe. }
    destruct r as [|r].
    + rewrite Hp. cbn. apply (Htl O). intros j. reflexivity.
    + rewrite Hp. cbn [Nat.ltb Nat.leb length]. rewrite (Htl r); [lia|].
      intros j. reflexivity.
Qed.

Lemma block_nth (b j : nat) (l : list event) :
  (j < 100)%nat -> nth_error (block b l) j = nth_error l (100 * b + j).
Proof.
  intros Hj. unfold block. rewrite nth_error_firstn, nth_error_skipn.
  destruct (Nat.ltb_spec j 100); [reflexivity|lia].
Qed.

Lemma block_length (b : nat) (l : list event) :
  (100 * (b + 1) <= length l)%nat -> length (block b l) = 100%nat.
Proof.
  intros Hb. unfold block. rewrite length_firstn, length_skipn. lia.
Qed.

(** ** [HotDataAccessTest]: the key ranges of a run *)

Section HotKeys.
Context {H : Harness}.
Import HotDataAccessTest.

Lemma hot_cold_disjoint (x : @t (Logging H)) k :
  in_hot_range x k -> ~ in_cold_range x k.
Proof. unfold in_hot_range, in_cold_range. lia. Qed.

Lemma hot_block_count (x : @t (Logging H)) (l : list event) (b : nat) :
  0 < coldKeys x -> 0 <= hotRatio x <= 100 ->
  (100 * (b + 1) <= length l)%nat ->
  (forall j e, nth_error l j = Some e ->
     if is_hot_op x (Z.of_nat j) then in_hot_range x (event_key e)
     else in_cold_range x (event_key e)) ->
  hot_count x (block b l) = hotRatio x.
Proof.
  intros Hc Hr Hb Hall. unfold hot_count.
  rewrite (count_prefix_true (is_hot_key x) (block b l)
             (Z.to_nat (hotRatio x))).
  - rewrite block_length by assumption. lia.
  - rewrite block_length by assumption. intros j Hj.
    rewrite block_nth by assumption.
    destruct (nth_error l (100 * b + j)) as [e|] eqn:E.
    + exists e. split; [reflexivity|].
      specialize (Hall _ _ E). unfold is_hot_op in Hall.
      replace (Z.of_nat (100 * b + j) mod 100) with (Z.of_nat j) in Hall.
      * unfold is_hot_key, in_hot_range, in_cold_range in *.
        destruct (Z.ltb_spec (Z.of_nat j) (hotRatio x));
          destruct (Nat.ltb_spec j (Z.to_nat (hotRatio x))); try lia;
          destruct (Z.leb_spec 0 (event_key e));
          destruct (Z.ltb_spec (event_key e) (hotKeys x));
          cbn; try reflexivity; lia.
      * replace (Z.of_nat (100 * b + j)) with (Z.of_nat j + Z.of_nat b * 100)
          by lia.
        rewrite Z.mod_add by lia. rewrite Z.mod_small; lia.
    + apply nth_error_None in E. lia.
Qed.
End HotKeys.

Section HotClaims.
Context {H : Harness}.
Import HotDataAccessTest.

(** C2 (as amended).  In [HotDataAccessTest::runTestForCacheType], when
    the hot and cold ranges are non-empty and fit [int]
    ([hotKeys >= 1], [coldKeys >= 1], [hotKeys + coldKeys <= 2^31]), the
    run makes [operations] puts followed by [operations] gets, and for
    every operation index [op] of either phase the key lies in
    [[0, hotKeys)] if [op % 100 < hotRatio] and in
    [[hotKeys, hotKeys + coldKeys)] otherwise.  The two ranges are
    disjoint, and in every aligned block of 100 consecutive operations of
    a phase exactly [hotRatio] keys are hot ones. *)
Theorem hot_run_key_ranges (type : CacheType) (x x' : @t (Logging H)) :
  reachable x ->
  0 < hotKeys x -> 0 < coldKeys x -> hotKeys x + coldKeys x <= 2 ^ 31 ->
  runTestForCacheType type x = Ok x' ->
  exists puts gets,
    trace type (base x') = trace type (base x) ++ puts ++ gets /\
    length puts = Z.to_nat (TestConfig.operations (config (base x))) /\
    length gets = Z.to_nat (TestConfig.operations (config (base x))) /\
    (forall op, 0 <= op < TestConfig.operations (config (base x)) ->
       exists k v k' r,
         nth_error puts (Z.to_nat op) = Some (EvPut k v) /\
         nth_error gets (Z.to_nat op) = Some (EvGet k' r) /\
         if is_hot_op x op then in_hot_range x k /\ in_hot_range x k'
         else in_cold_range x k /\ in_cold_range x k') /\
    (forall k, in_hot_range x k -> ~ in_cold_range x k) /\
    (forall b : nat,
       (100 * (b + 1)
        <= Z.to_nat (TestConfig.operations (config (base x))))%nat ->
       hot_count x (block b puts) = hotRatio x /\
       hot_count x (block b gets) = hotRatio x).
Proof.
  intros Hreach Hh Hc Hsum Hrun.
  apply hot_ratio_bounds in Hreach.
  apply hot_run_trace in Hrun.
  destruct Hrun as (_ & _ & puts & gets & Htr & Hlp & Hlg & Hev).
  assert (Hkeys : forall j e e',
            nth_error puts j = Some e -> nth_error gets j = Some e' ->
            exists k v k' r,
              e = EvPut k v /\ e' = EvGet k' r /\
              if is_hot_op x (Z.of_nat j)
              then in_hot_range x k /\ in_hot_range x k'
              else in_cold_range x k /\ in_cold_range x k').
  { intros j e e' He He'.
    assert (Hj : (j < Z.to_nat (TestConfig.operations (config (base x))))%nat).
    { rewrite <- Hlp. apply nth_error_Some. congruence. }
    destruct (Hev j Hj) as (e1 & e2 & He1 & Hp & He2 & Hg).
    rewrite He in He1. rewrite He' in He2.
    injection He1 as <-. injection He2 as <-.
    destruct Hp as (k & g & _ & Hk & ->).
    destruct Hg as (k' & g' & r & _ & Hk' & ->).
    destruct (hot_choice_range x (Z.of_nat j) g) as (k0 & Hk0 & Hr0);
      try lia.
    destruct (hot_choice_range x (Z.of_nat j) g') as (k1 & Hk1 & Hr1);
      try lia.
    rewrite Hk in Hk0. rewrite Hk' in Hk1.
    injection Hk0 as <-. injection Hk1 as <-.
    exists k, (hot_value k), k', r. repeat split.
    destruct (is_hot_op x (Z.of_nat j)); auto. }
  exists puts, gets. repeat split; auto.
  - intros op Hop.
    assert (Hj : (Z.to_nat op
                  < Z.to_nat (TestConfig.operations (config (base x))))%nat)
      by lia.
    destruct (Hev _ Hj) as (e1 & e2 & He1 & _ & He2 & _).
    destruct (Hkeys _ _ _ He1 He2) as (k & v & k' & r & -> & -> & Hr).
    exists k, v, k', r. rewrite Z2Nat.id in Hr by lia. auto.
  - apply hot_cold_disjoint.
  - apply hot_block_count; try lia.
    intros j e He.
    destruct (nth_error gets j) as [e'|] eqn:He'.
    + destruct (Hkeys _ _ _ He He') as (k & v & k' & r & -> & -> & Hr).
      cbn [event_key]. now destruct (is_hot_op x (Z.of_nat j)).
    + apply nth_error_None in He'.
      assert (j < length puts)%nat by (apply nth_error_Some; congruence).
      lia.
  - apply hot_block_count; try lia.
    intros j e He'.
    destruct (nth_error puts j) as [e0|] eqn:He.
    + destruct (Hkeys _ _ _ He He') as (k & v & k' & r & -> & -> & Hr).
      cbn [event_key]. now destruct (is_hot_op x (Z.of_nat j)).
    + apply nth_error_None in He.
      assert (j < length gets)%nat by (apply nth_error_Some; congruence).
      lia.
Qed.
End HotClaims.

Lemma hot_small_reachable n :
  is_int n = true -> HotDataAccessTest.reachable (hot_small n).
Proof.
  intros Hn. unfold hot_small, main_hotTest.
  apply HotDataAccessTest.r_setOperations; [|assumption].
  apply HotDataAccessTest.r_setHotRatio; [|reflexivity].
  apply HotDataAccessTest.r_setColdKeys; [|reflexivity].
  apply HotDataAccessTest.r_setHotKeys; [|reflexivity].
  apply HotDataAccessTest.r_setOperations; [|reflexivity].
  apply HotDataAccessTest.r_setCapacity; [|reflexivity].
  apply HotDataAccessTest.r_new.
Qed.

Lemma hot_run_key_ranges_witness :
  exists puts gets,
    trace LRU (HotDataAccessTest.base (hot_small_end 200))
    = trace LRU (HotDataAccessTest.base (hot_small 200)) ++ puts ++ gets /\
    hot_count (hot_small 200) (block 1 puts)
    = HotDataAccessTest.hotRatio (hot_small 200) /\
    hot_count (hot_small 200) (block 1 gets)
    = HotDataAccessTest.hotRatio (hot_small 200).
Proof.
  destruct (hot_run_key_ranges LRU (hot_small 200) (hot_small_end 200))
    as (puts & gets & Htr & _ & _ & _ & _ & Hb).
  - apply hot_small_reachable. reflexivity.
  - cbn. lia.
  - cbn. lia.
  - cbn. lia.
  - vm_compute. reflexivity.
  - exists puts, gets. destruct (Hb 1%nat) as [Hb1 Hb2].
    + vm_compute. lia.
    + split; [exact Htr|]. split; [exact Hb1|exact Hb2].
Defined.

(** C2 as stated fails when [setHotKeys] was given a value that is not
    positive: after [setHotKeys(-1)] operation 0 is a hot one and its key
    is 12345. *)
Lemma hot_keys_counterexample :
  is_hot_op hot_negative 0 = true /\
  (exists x',
      HotDataAccessTest.runTestForCacheType LRU hot_negative = Ok x' /\
      nth_error (trace LRU (HotDataAccessTest.base x')) 0
      = Some (EvPut 12345 "value12345")) /\
  ~ in_hot_range hot_negative 12345.
Proof.
  split; [reflexivity|]. split.
  - eexists. split; vm_compute; reflexivity.
  - unfold in_hot_range. cbn. lia.
Qed.

(** ** [LoopPatternTest] and [WorkloadShiftTest]: one iteration *)

Section OtherSteps.
Context `{H : Harness}.

Lemma same_but_gen_refl (b : CacheTest) : same_but_gen b b.
Proof. repeat split. Qed.

Lemma same_but_gen_draw (b0 b : CacheTest) :
  same_but_gen b0 b -> same_but_gen b0 (snd (draw b)).
Proof.
  intros (Hc & Hh & Ho & Hg).
  destruct (draw_fields b) as (Hc1 & Hh1 & Ho1 & Hg1 & _).
  repeat split; try congruence; intros type; now rewrite Hg1.
Qed.

Lemma loop_fill_step type key (x x' : LoopPatternTest.t) :
  LoopPatternTest.fill_step type key x = Ok x' ->
  x' = LoopPatternTest.with_base
         (cache_put type key (loop_value key) (LoopPatternTest.base x)) x.
Proof.
  unfold LoopPatternTest.fill_step. intros Hs. inv_bind Hs.
  now injection Hs as <-.
Qed.

Lemma loop_pick_key op pos (x : LoopPatternTest.t) key b pos' :
  LoopPatternTest.pick_key op pos x = Ok (key, b, pos') ->
  same_but_gen (LoopPatternTest.base x) b.
Proof.
  unfold LoopPatternTest.pick_key. intros Hp.
  destruct (Z.rem op 100 <? LoopPatternTest.sequentialRatio x).
  - inv_bind Hp. inv_bind Hp. injection Hp as _ <- _.
    apply same_but_gen_refl.
  - inv_bind Hp.
    destruct (Z.rem op 100 <? a);
      destruct (draw (LoopPatternTest.base x)) as [g b1] eqn:E;
      inv_bind Hp; injection Hp as _ <- _;
      replace b1 with (snd (draw (LoopPatternTest.base x)))
        by (now rewrite E);
      apply same_but_gen_draw, same_but_gen_refl.
Qed.

Lemma loop_access_step type op (x x' : LoopPatternTest.t) pos pos' :
  LoopPatternTest.access_step type op (x, pos) = Ok (x', pos') ->
  exists key b,
    LoopPatternTest.pick_key op pos x = Ok (key, b, pos') /\
    x' = LoopPatternTest.with_base (lookup type key b) x.
Proof.
  unfold LoopPatternTest.access_step. intros Hs.
  inv_bind Hs. destruct a as [[key b] p]. inv_bind Hs.
  injection Hs as <- <-. eauto.
Qed.

Lemma work_fill_step type key (x x' : WorkloadShiftTest.t) :
  WorkloadShiftTest.fill_step type key x = Ok x' ->
  x' = WorkloadShiftTest.with_base
         (cache_put type key (init_value key) (WorkloadShiftTest.base x)) x.
Proof.
  unfold WorkloadShiftTest.fill_step. intros Hs. inv_bind Hs.
  now injection Hs as <-.
Qed.

Lemma work_pick_key L op phase (x : WorkloadShiftTest.t) key b :
  WorkloadShiftTest.pick_key L op phase x = Ok (key, b) ->
  same_but_gen (WorkloadShiftTest.base x) b.
Proof.
  unfold WorkloadShiftTest.pick_key. intros Hp.
  assert (D1 : forall b0 g b1, draw b0 = (g, b1) ->
                 same_but_gen (WorkloadShiftTest.base x) b0 ->
                 same_but_gen (WorkloadShiftTest.base x) b1).
  { intros b0 g b1 E Hb0. replace b1 with (snd (draw b0)) by (now rewrite E).
    now apply same_but_gen_draw. }
  pose proof (same_but_gen_refl (WorkloadShiftTest.base x)) as H0.
  cbv zeta in Hp.
  destruct (Z.rem phase 5 =? 0).
  { destruct (draw (WorkloadShiftTest.base x)) as [g b1] eqn:E.
    inv_bind Hp. injection Hp as _ <-. exact (D1 _ _ _ E H0). }
  destruct (Z.rem phase 5 =? 1).
  { destruct (draw (WorkloadShiftTest.base x)) as [g b1] eqn:E.
    inv_bind Hp. injection Hp as _ <-. exact (D1 _ _ _ E H0). }
  destruct (Z.rem phase 5 =? 2).
  { inv_bind Hp. inv_bind Hp. injection Hp as _ <-. exact H0. }
  destruct (Z.rem phase 5 =? 3).
  { destruct (draw (WorkloadShiftTest.base x)) as [g b1] eqn:E.
    inv_bind Hp. injection Hp as _ <-. exact (D1 _ _ _ E H0). }
  destruct (draw (WorkloadShiftTest.base x)) as [g b1] eqn:E.
  pose proof (D1 _ _ _ E H0) as H1.
  inv_bind Hp.
  destruct (to_int a <? 30);
    [|destruct (to_int a <? 60); [|inv_bind Hp]];
    destruct (draw b1) as [g2 b2] eqn:E2;
    pose proof (D1 _ _ _ E2 H1) as H2;
    inv_bind Hp; injection Hp as _ <-; exact H2.
Qed.

Lemma work_access_step type L op (x x' : WorkloadShiftTest.t) :
  WorkloadShiftTest.access_step type L op x = Ok x' ->
  exists phase key b b',
    sdiv op L = Ok phase /\
    WorkloadShiftTest.pick_key L op phase x = Ok (key, b) /\
    same_but_gen (lookup type key b) b' /\
    (x' = WorkloadShiftTest.with_base b' x \/
     x' = WorkloadShiftTest.with_base
            (cache_put type key (new_value key) b') x).
Proof.
  unfold WorkloadShiftTest.access_step. intros Hs.
  inv_bind Hs. rename a into phase. inv_bind Hs.
  inv_bind Hs. destruct a0 as [key b].
  destruct (draw (lookup type key b)) as [g b'] eqn:E.
  inv_bind Hs. inv_bind Hs. injection Hs as <-.
  exists phase, key, b, b'.
  split; [assumption|]. split; [assumption|]. split.
  - replace b' with (snd (draw (lookup type key b))) by (now rewrite E).
    apply same_but_gen_draw, same_but_gen_refl.
  - destruct (a0 <? to_unsigned word_bits (WorkloadShiftTest.putProbability x));
      auto.
Qed.
End OtherSteps.

(** ** The statistics of a run *)

Section Statistics.
Context `{H : Harness}.

Lemma lookup_counts type key (b0 b : CacheTest) :
  same_but_gen b0 b -> counts_one_get type b0 (lookup type key b).
Proof.
  intros (Hc & Hh & Ho & Hg).
  destruct (lookup_fields type key b) as (Hc1 & Ho1 & Hh1 & _).
  unfold counts_one_get. rewrite Hc1, Ho1, Hh1, Hc, Hh, Ho, Hg.
  repeat split. now exists key.
Qed.

Lemma put_counts type key v (b : CacheTest) :
  counts_nothing type b (cache_put type key v b).
Proof.
  destruct (cache_put_fields type key v b) as (Hc & Hh & Ho & _).
  unfold counts_nothing. now rewrite Hc, Hh, Ho.
Qed.

Lemma counts_one_then (type : CacheType) (b0 b1 b2 : CacheTest) :
  counts_one_get type b0 b1 -> counts_nothing type b1 b2 ->
  counts_one_get type b0 b2.
Proof.
  intros (Hc & Ho & key & Hh) (Hc' & Ho' & Hh').
  unfold counts_one_get. rewrite Hc', Ho', Hh', Hc, Ho, Hh.
  repeat split. now exists key.
Qed.

Lemma same_but_gen_counts type (b0 b : CacheTest) :
  same_but_gen b0 b -> counts_nothing type b0 b.
Proof.
  intros (Hc & Hh & Ho & _). unfold counts_nothing. now rewrite Hc, Hh, Ho.
Qed.

Lemma loop_counts_one {St : Type} (proj : St -> CacheTest) type
  (body : Z -> St -> res St) :
  (forall j z z', body j z = Ok z' ->
                  counts_one_get type (proj z) (proj z')) ->
  forall n i z z',
    for_loop n i body z = Ok z' ->
    config (proj z') = config (proj z) /\
    operations (proj z') type = operations (proj z) type + Z.of_nat n /\
    hits (proj z) type <= hits (proj z') type
    <= hits (proj z) type + Z.of_nat n.
Proof.
  intros Hbody n i z z' Hrun.
  pose (P := fun (j : Z) (y : St) =>
               config (proj y) = config (proj z) /\
               operations (proj y) type = operations (proj z) type + (j - i) /\
               hits (proj z) type <= hits (proj y) type
               <= hits (proj z) type + (j - i)).
  assert (HP : P (i + Z.of_nat n) z').
  { apply (for_loop_inv P body n i z z'); auto.
    - unfold P. repeat split; lia.
    - intros j y y' Hj (Hc & Ho & Hh) Hstep.
      apply Hbody in Hstep. destruct Hstep as (Hc' & Ho' & key & Hh').
      unfold P. rewrite Hc', Ho', Hh', Hc, Ho.
      destruct (fst (get key (getCache type (proj y)))); repeat split; lia. }
  destruct HP as (Hc & Ho & Hh).
  replace (i + Z.of_nat n - i) with (Z.of_nat n) in * by lia. auto.
Qed.

Lemma loop_counts_nothing {St : Type} (proj : St -> CacheTest) type
  (body : Z -> St -> res St) :
  (forall j z z', body j z = Ok z' ->
                  counts_nothing type (proj z) (proj z')) ->
  forall n i z z',
    for_loop n i body z = Ok z' -> counts_nothing type (proj z) (proj z').
Proof.
  intros Hbody n i z z' Hrun.
  apply (for_loop_inv (fun _ y => counts_nothing type (proj z) (proj y))
           body n i z z'); auto.
  - repeat split.
  - intros j y y' _ (Hc & Ho & Hh) Hstep.
    apply Hbody in Hstep. destruct Hstep as (Hc' & Ho' & Hh').
    unfold counts_nothing. now rewrite Hc', Ho', Hh'.
Qed.

Lemma hot_access_counts type op (x x' : HotDataAccessTest.t) :
  HotDataAccessTest.access_step type op x = Ok x' ->
  counts_one_get type (HotDataAccessTest.base x) (HotDataAccessTest.base x').
Proof.
  intros Hs. apply hot_access_step in Hs. destruct Hs as (key & _ & ->).
  apply lookup_counts, same_but_gen_draw, same_but_gen_refl.
Qed.

Lemma hot_fill_counts type op (x x' : HotDataAccessTest.t) :
  HotDataAccessTest.fill_step type op x = Ok x' ->
  counts_nothing type (HotDataAccessTest.base x) (HotDataAccessTest.base x').
Proof.
  intros Hs. apply hot_fill_step in Hs. destruct Hs as (key & _ & ->).
  cbn [HotDataAccessTest.base HotDataAccessTest.with_base].
  destruct (same_but_gen_counts type (HotDataAccessTest.base x)
              (snd (draw (HotDataAccessTest.base x)))) as (Hc & Ho & Hh).
  { apply same_but_gen_draw, same_but_gen_refl. }
  destruct (put_counts type key (hot_value key)
              (snd (draw (HotDataAccessTest.base x)))) as (Hc' & Ho' & Hh').
  unfold counts_nothing. now rewrite Hc', Ho', Hh'.
Qed.

Lemma loop_access_counts type op (st st' : LoopPatternTest.t * Z) :
  LoopPatternTest.access_step type op st = Ok st' ->
  counts_one_get type (LoopPatternTest.base (fst st))
    (LoopPatternTest.base (fst st')).
Proof.
  destruct st as [x pos], st' as [x' pos']. intros Hs.
  apply loop_access_step in Hs. destruct Hs as (key & b & Hp & ->).
  apply loop_pick_key in Hp. now apply lookup_counts.
Qed.

Lemma loop_fill_counts type key (x x' : LoopPatternTest.t) :
  LoopPatternTest.fill_step type key x = Ok x' ->
  counts_nothing type (LoopPatternTest.base x) (LoopPatternTest.base x').
Proof. intros Hs. apply loop_fill_step in Hs. subst x'. apply put_counts. Qed.

Lemma work_access_counts type L op (x x' : WorkloadShiftTest.t) :
  WorkloadShiftTest.access_step type L op x = Ok x' ->
  counts_one_get type (WorkloadShiftTest.base x) (WorkloadShiftTest.base x').
Proof.
  intros Hs. apply work_access_step in Hs.
  destruct Hs as (phase & key & b & b' & _ & Hp & Hb' & Hx').
  apply work_pick_key in Hp.
  pose proof (lookup_counts type key _ _ Hp) as H1.
  pose proof (counts_one_then type _ _ _ H1 (same_but_gen_counts type _ _ Hb'))
    as H2.
  destruct Hx' as [-> | ->]; [exact H2|].
  apply (counts_one_then type _ _ _ H2). apply put_counts.
Qed.

Lemma work_fill_counts type key (x x' : WorkloadShiftTest.t) :
  WorkloadShiftTest.fill_step type key x = Ok x' ->
  counts_nothing type (WorkloadShiftTest.base x) (WorkloadShiftTest.base x').
Proof. intros Hs. apply work_fill_step in Hs. subst x'. apply put_counts. Qed.

(** After the reset, a fill loop that counts nothing and an access loop
    of [n] iterations that each count one [get]. *)
Lemma run_counts type (b0 b1 b2 : CacheTest) (n : Z) :
  counts_nothing type (resetStats type b0) b1 ->
  operations b2 type = operations b1 type + Z.of_nat (Z.to_nat n) ->
  hits b1 type <= hits b2 type <= hits b1 type + Z.of_nat (Z.to_nat n) ->
  operations b2 type = Z.max 0 n /\
  0 <= hits b2 type <= operations b2 type.
Proof.
  intros (Hc1 & Ho1 & Hh1) Ho2 Hh2.
  destruct (resetStats_fields type b0) as (Hc0 & Hh0 & Ho0 & _).
  rewrite Ho2, Ho1, Ho0. rewrite Hh1, Hh0 in Hh2.
  repeat split; lia.
Qed.
End Statistics.

Section StatisticsClaim.
Context `{H : Harness}.

Lemma hot_run_counts type (x x' : HotDataAccessTest.t) :
  HotDataAccessTest.runTestForCacheType type x = Ok x' ->
  operations (HotDataAccessTest.base x') type
  = Z.max 0 (TestConfig.operations (config (HotDataAccessTest.base x))) /\
  0 <= hits (HotDataAccessTest.base x') type
  <= operations (HotDataAccessTest.base x') type.
Proof.
  unfold HotDataAccessTest.runTestForCacheType, for_range. intros Hrun.
  inv_bind Hrun. rename a into y.
  destruct (resetStats_fields type (HotDataAccessTest.base x)) as (Hc0 & _).
  cbn [HotDataAccessTest.base HotDataAccessTest.with_base] in *.
  rewrite Hc0, Z.sub_0_r in *.
  apply (loop_counts_nothing HotDataAccessTest.base type _
           (hot_fill_counts type)) in Ha.
  apply (loop_counts_one HotDataAccessTest.base type _
           (hot_access_counts type)) in Hrun.
  cbn [HotDataAccessTest.base HotDataAccessTest.with_base] in Ha.
  destruct Hrun as (_ & Ho & Hh).
  exact (run_counts type _ _ _ _ Ha Ho Hh).
Qed.

Lemma loop_run_counts type (x x' : LoopPatternTest.t) :
  LoopPatternTest.runTestForCacheType type x = Ok x' ->
  operations (LoopPatternTest.base x') type
  = Z.max 0 (TestConfig.operations (config (LoopPatternTest.base x))) /\
  0 <= hits (LoopPatternTest.base x') type
  <= operations (LoopPatternTest.base x') type.
Proof.
  unfold LoopPatternTest.runTestForCacheType, for_range. intros Hrun.
  inv_bind Hrun. rename a into y. inv_bind Hrun. injection Hrun as <-.
  cbn [LoopPatternTest.base LoopPatternTest.with_base
       LoopPatternTest.loopSize] in *.
  rewrite Z.sub_0_r in *.
  apply (loop_counts_nothing LoopPatternTest.base type _
           (loop_fill_counts type)) in Ha.
  apply (loop_counts_one (fun st => LoopPatternTest.base (fst st)) type _
           (loop_access_counts type)) in Ha0.
  cbn [fst LoopPatternTest.base LoopPatternTest.with_base] in Ha, Ha0.
  destruct (resetStats_fields type (LoopPatternTest.base x)) as (Hc0 & _).
  destruct Ha as (Hc & Ho & Hh). rewrite Hc, Hc0 in Ha0.
  destruct Ha0 as (_ & Ho' & Hh').
  exact (run_counts type _ _ _ _ (conj Hc (conj Ho Hh)) Ho' Hh').
Qed.

Lemma work_run_counts type (x x' : WorkloadShiftTest.t) :
  WorkloadShiftTest.runTestForCacheType type x = Ok x' ->
  operations (WorkloadShiftTest.base x') type
  = Z.max 0 (TestConfig.operations (config (WorkloadShiftTest.base x))) /\
  0 <= hits (WorkloadShiftTest.base x') type
  <= operations (WorkloadShiftTest.base x') type.
Proof.
  unfold WorkloadShiftTest.runTestForCacheType, for_range. intros Hrun.
  inv_bind Hrun. rename a into y. inv_bind Hrun. rename a into L.
  cbn [WorkloadShiftTest.base WorkloadShiftTest.with_base
       WorkloadShiftTest.initialDataSize WorkloadShiftTest.phases] in *.
  rewrite Z.sub_0_r in *.
  apply (loop_counts_nothing WorkloadShiftTest.base type _
           (work_fill_counts type)) in Ha.
  apply (loop_counts_one WorkloadShiftTest.base type _
           (work_access_counts type L)) in Hrun.
  cbn [WorkloadShiftTest.base WorkloadShiftTest.with_base] in Ha.
  destruct (resetStats_fields type (WorkloadShiftTest.base x)) as (Hc0 & _).
  destruct Ha as (Hc & Ho & Hh). rewrite Hc, Hc0 in Hrun.
  destruct Hrun as (_ & Ho' & Hh').
  exact (run_counts type _ _ _ _ (conj Hc (conj Ho Hh)) Ho' Hh').
Qed.

End StatisticsClaim.

(** ** The caches a run touches *)

Section Frame.
Context `{H : Harness}.

Lemma touches_refl type (b : CacheTest) : touches_only type b b.
Proof. split; auto. Qed.

Lemma touches_trans type (b0 b1 b2 : CacheTest) :
  touches_only type b0 b1 -> touches_only type b1 b2 ->
  touches_only type b0 b2.
Proof.
  intros (H1 & F1) (H2 & F2). split.
  - intros I HI Hb. apply H2, H1; auto.
  - intros type' Hne. now rewrite F2, F1.
Qed.

Lemma touches_same_but_gen type (b0 b : CacheTest) :
  same_but_gen b0 b -> touches_only type b0 b.
Proof.
  intros (_ & _ & _ & Hg). split.
  - intros I _ Hb. now rewrite Hg.
  - intros type' _. apply Hg.
Qed.

Lemma touches_put type key v (b : CacheTest) :
  touches_only type b (cache_put type key v b).
Proof.
  split.
  - intros I (Hput & _) Hb.
    destruct (cache_put_fields type key v b) as (_ & _ & _ & ->). auto.
  - intros type' Hne. unfold cache_put.
    destruct type, type'; try reflexivity; contradiction.
Qed.

Lemma touches_lookup type key (b : CacheTest) :
  touches_only type b (lookup type key b).
Proof.
  split.
  - intros I (_ & Hget) Hb.
    destruct (lookup_fields type key b) as (_ & _ & _ & ->). auto.
  - intros type' Hne. unfold lookup.
    destruct (get key (getCache type b)) as [r c'].
    destruct type, type'; try reflexivity; contradiction.
Qed.

Lemma touches_reset type (b : CacheTest) :
  touches_only type b (resetStats type b).
Proof.
  destruct (resetStats_fields type b) as (_ & _ & _ & Hg).
  split; [intros I _ Hb; now rewrite Hg|intros type' _; apply Hg].
Qed.

Lemma loop_touches {St : Type} (proj : St -> CacheTest) type
  (body : Z -> St -> res St) :
  (forall j z z', body j z = Ok z' ->
                  touches_only type (proj z) (proj z')) ->
  forall n i z z',
    for_loop n i body z = Ok z' -> touches_only type (proj z) (proj z').
Proof.
  intros Hbody n i z z' Hrun.
  apply (for_loop_inv (fun _ y => touches_only type (proj z) (proj y))
           body n i z z'); auto using touches_refl.
  intros j y y' _ Hy Hstep. eapply touches_trans; eauto.
Qed.

Lemma hot_run_touches type (x x' : HotDataAccessTest.t) :
  HotDataAccessTest.runTestForCacheType type x = Ok x' ->
  touches_only type (HotDataAccessTest.base x) (HotDataAccessTest.base x').
Proof.
  unfold HotDataAccessTest.runTestForCacheType, for_range. intros Hrun.
  inv_bind Hrun.
  apply (loop_touches HotDataAccessTest.base type) in Ha.
  apply (loop_touches HotDataAccessTest.base type) in Hrun.
  - eapply touches_trans; [|exact Hrun].
    eapply touches_trans; [|exact Ha]. apply touches_reset.
  - intros j z z' Hs. apply hot_access_step in Hs.
    destruct Hs as (key & _ & ->).
    eapply touches_trans; [|apply touches_lookup].
    apply touches_same_but_gen, same_but_gen_draw, same_but_gen_refl.
  - intros j z z' Hs. apply hot_fill_step in Hs.
    destruct Hs as (key & _ & ->).
    eapply touches_trans; [|apply touches_put].
    apply touches_same_but_gen, same_but_gen_draw, same_but_gen_refl.
Qed.

Lemma loop_run_touches type (x x' : LoopPatternTest.t) :
  LoopPatternTest.runTestForCacheType type x = Ok x' ->
  touches_only type (LoopPatternTest.base x) (LoopPatternTest.base x').
Proof.
  unfold LoopPatternTest.runTestForCacheType, for_range. intros Hrun.
  inv_bind Hrun. inv_bind Hrun. injection Hrun as <-.
  apply (loop_touches LoopPatternTest.base type) in Ha.
  apply (loop_touches (fun st => LoopPatternTest.base (fst st)) type) in Ha0.
  - eapply touches_trans; [|exact Ha0].
    eapply touches_trans; [|exact Ha]. apply touches_reset.
  - intros j [z p] [z' p'] Hs. apply loop_access_step in Hs.
    destruct Hs as (key & b & Hp & ->). apply loop_pick_key in Hp.
    eapply touches_trans; [|apply touches_lookup].
    now apply touches_same_but_gen.
  - intros j z z' Hs. apply loop_fill_step in Hs. subst z'.
    apply touches_put.
Qed.

Lemma work_run_touches type (x x' : WorkloadShiftTest.t) :
  WorkloadShiftTest.runTestForCacheType type x = Ok x' ->
  touches_only type (WorkloadShiftTest.base x) (WorkloadShiftTest.base x').
Proof.
  unfold WorkloadShiftTest.runTestForCacheType, for_range. intros Hrun.
  inv_bind Hrun. inv_bind Hrun. rename a0 into L.
  apply (loop_touches WorkloadShiftTest.base type) in Ha.
  apply (loop_touches WorkloadShiftTest.base type) in Hrun.
  - eapply touches_trans; [|exact Hrun].
    eapply touches_trans; [|exact Ha]. apply touches_reset.
  - intros j z z' Hs. apply work_access_step in Hs.
    destruct Hs as (phase & key & b & b' & _ & Hp & Hb' & Hz').
    apply work_pick_key in Hp.
    assert (Ht : touches_only type (WorkloadShiftTest.base z) b').
    { apply (touches_trans type _ b);
        [apply touches_same_but_gen; exact Hp|].
      apply (touches_trans type _ (lookup type key b));
        [apply touches_lookup|].
      apply touches_same_but_gen; exact Hb'. }
    destruct Hz' as [-> | ->]; [exact Ht|].
    eapply touches_trans; [exact Ht|apply touches_put].
  - intros j z z' Hs. apply work_fill_step in Hs. subst z'.
    apply touches_put.
Qed.
End Frame.

(** ** [HotDataAccessTest]: the values read back *)

Section HotValues.
Context {H : Harness}.
Import HotDataAccessTest.

Lemma CacheType_eqb_eq a b : CacheType_eqb a b = true <-> a = b.
Proof. destruct a, b; cbn; split; congruence. Qed.

Lemma faithful_preserved (c0 : @C H) :
  @preserved (Logging H) (faithful H c0).
Proof.
  split.
  - intros c k v Hc. now apply faithful_put.
  - intros c k Hc. now apply faithful_get.
Qed.

Lemma hot_run_values type (x x' : @t (Logging H)) (c0 : @C H) :
  faithful H c0 (getCache type (base x)) ->
  hot_puts_only (trace type (base x)) ->
  runTestForCacheType type x = Ok x' ->
  faithful H c0 (getCache type (base x')) /\
  hot_puts_only (trace type (base x')) /\
  exists puts gets,
    trace type (base x') = trace type (base x) ++ puts ++ gets /\
    length puts = Z.to_nat (TestConfig.operations (config (base x))) /\
    length gets = Z.to_nat (TestConfig.operations (config (base x))) /\
    (forall e, In e puts -> exists k, e = EvPut k (hot_value k)) /\
    (forall e, In e gets -> exists k r, e = EvGet k r).
Proof.
  intros Hf Hold Hrun.
  pose proof (hot_run_touches type x x' Hrun) as (Hpres & _).
  apply hot_run_trace in Hrun.
  destruct Hrun as (_ & _ & puts & gets & Htr & Hlp & Hlg & Hev).
  assert (Hputs : forall e, In e puts -> exists k, e = EvPut k (hot_value k)).
  { intros e He. apply In_nth_error in He. destruct He as (j & He).
    assert (Hj : (j < length puts)%nat) by (apply nth_error_Some; congruence).
    rewrite Hlp in Hj. destruct (Hev j Hj) as (e1 & _ & He1 & Hp & _).
    rewrite He in He1. injection He1 as <-.
    destruct Hp as (k & _ & _ & _ & ->). eauto. }
  assert (Hgets : forall e, In e gets -> exists k r, e = EvGet k r).
  { intros e He. apply In_nth_error in He. destruct He as (j & He).
    assert (Hj : (j < length gets)%nat) by (apply nth_error_Some; congruence).
    rewrite Hlg in Hj. destruct (Hev j Hj) as (_ & e2 & _ & _ & He2 & Hg).
    rewrite He in He2. injection He2 as <-.
    destruct Hg as (k & _ & r & _ & _ & ->). eauto. }
  split; [apply Hpres; [apply faithful_preserved|assumption]|].
  split.
  - intros k v Hin. rewrite Htr in Hin.
    apply in_app_iff in Hin. destruct Hin as [Hin|Hin]; [auto|].
    apply in_app_iff in Hin. destruct Hin as [Hin|Hin].
    + apply Hputs in Hin. destruct Hin as (k' & Hk). now injection Hk as -> ->.
    + apply Hgets in Hin. destruct Hin as (k' & r & Hk). discriminate.
  - exists puts, gets. auto 6.
Qed.

Lemma hot_reachable_caches (x : @t (Logging H)) :
  reachable x -> hot_caches_ok x.
Proof.
  assert (Hfresh : forall b : @CacheTest (Logging H),
            forall type,
              (exists cap, faithful H (@constructor H type cap)
                             (getCache type (initCaches b))) /\
              hot_puts_only (trace type (initCaches b))).
  { intros b type. split.
    - exists (TestConfig.capacity (config b)).
      destruct type; apply faithful_new.
    - intros k v Hin. destruct type; contradiction. }
  assert (Hstep : forall ty (y y' : @t (Logging H)),
            hot_caches_ok y -> runTestForCacheType ty y = Ok y' ->
            hot_caches_ok y').
  { intros ty y y' Hy Hr type.
    destruct (CacheType_eqb ty type) eqn:E.
    - apply CacheType_eqb_eq in E. subst type.
      destruct (Hy ty) as ((cap & Hf) & Hp).
      destruct (hot_run_values ty y y' _ Hf Hp Hr) as (Hf' & Hp' & _).
      split; [now exists cap|assumption].
    - assert (Hne : type <> ty).
      { intros ->. rewrite (proj2 (CacheType_eqb_eq ty ty) eq_refl) in E.
        discriminate. }
      destruct (hot_run_touches ty y y' Hr) as (_ & Hfr).
      unfold trace. rewrite (Hfr type Hne). apply Hy. }
  induction 1 as [g|c x Hx IH Hc|n x Hx IH Hn|s x Hx IH|i x Hx IH Hi
                 |c x Hx IH Hc|c x Hx IH Hc|r x Hx IH Hr|x x' Hx IH Hrun
                 |ty x x' Hx IH Hrun];
    try exact IH.
  - intros type. apply Hfresh.
  - intros type. apply Hfresh.
  - apply hot_runTest_runs in Hrun.
    destruct Hrun as (x1 & x2 & Ha & Ha0 & Hrun & _).
    eapply Hstep; [|exact Hrun]. eapply Hstep; [|exact Ha0].
    eapply Hstep; [|exact Ha]. exact IH.
  - exact (Hstep ty x x' IH Hrun).
Qed.

(** C7.  In the fill phase of [HotDataAccessTest] every [put] for a key
    [k] passes the value ["value" + to_string(k)], a function of the key
    alone; hence, with caches that have no phantoms, every successful
    [get(key, result)] of the access phase yields
    [result == "value" + to_string(key)]. *)
Theorem hot_values_read_back (type : CacheType) (x x' : @t (Logging H)) :
  reachable x ->
  (forall cap, no_phantoms (@constructor H type cap)) ->
  runTestForCacheType type x = Ok x' ->
  exists puts gets,
    trace type (base x') = trace type (base x) ++ puts ++ gets /\
    length puts = Z.to_nat (TestConfig.operations (config (base x))) /\
    length gets = Z.to_nat (TestConfig.operations (config (base x))) /\
    (forall e, In e puts ->
               exists k, e = EvPut k ("value" ++ to_string k)%string) /\
    (forall e, In e gets -> exists k r, e = EvGet k r) /\
    (forall k v, In (EvGet k (Some v)) gets ->
                 v = ("value" ++ to_string k)%string).
Proof.
  intros Hreach Hnp Hrun.
  destruct (hot_reachable_caches x Hreach type) as ((cap & Hf) & Hold).
  destruct (hot_run_values type x x' _ Hf Hold Hrun)
    as (Hf' & Hnew & puts & gets & Htr & Hlp & Hlg & Hputs & Hgets).
  exists puts, gets. repeat split; auto.
  intros k v Hin.
  apply (Hnew k v).
  apply (faithful_hit _ _ (Hnp cap) Hf').
  fold (trace type (base x')). rewrite Htr.
  apply in_app_iff. right. apply in_app_iff. now right.
Qed.
End HotValues.

(** ** The three policies: capacity *)

Lemma length_removelast {A : Type} (l : list A) :
  length (removelast l) = Nat.pred (length l).
Proof.
  rewrite removelast_firstn_len, length_firstn. lia.
Qed.

Lemma filter_drops {A : Type} (f : A -> bool) (l : list A) (x : A) :
  In x l -> f x = false -> (length (filter f l) < length l)%nat.
Proof.
  induction l as [|a l IH]; intros Hin Hf; [contradiction|].
  cbn [filter length]. destruct Hin as [->|Hin].
  - rewrite Hf. pose proof (filter_length_le f l). lia.
  - specialize (IH Hin Hf). destruct (f a); cbn [length]; lia.
Qed.

Lemma find_key_drops {V : Type} (k : Z) (l : list (Z * V)) (v : V) :
  find_key k l = Some v -> (length (remove_key k l) < length l)%nat.
Proof.
  unfold find_key, remove_key. intros Hf.
  destruct (find (fun e => fst e =? k) l) as [e|] eqn:E; [|discriminate].
  apply find_some in E. destruct E as (Hin & He).
  apply (filter_drops _ l e Hin). now rewrite He.
Qed.

Lemma exec_invariant {C : Type} `{KICachePolicy C} (I : C -> Prop) :
  (forall c x, I c -> I (exec_call c x)) ->
  forall l c0, I c0 -> I (exec c0 l).
Proof.
  intros Hstep. unfold exec.
  induction l as [|x l IH]; intros c0 Hc; [assumption|].
  cbn [fold_left]. apply IH, Hstep, Hc.
Qed.

Module LruFacts.
Import Lru.

Lemma lru_touch_within k v (s : t) w :
  lru_within s -> find_key k (entries s) = Some w ->
  lru_within {| cap := cap s; entries := (k, v) :: remove_key k (entries s) |}.
Proof.
  unfold lru_within. cbn [cap entries length]. intros Hs Hf.
  apply find_key_drops in Hf. lia.
Qed.

Lemma lru_put_within k v (s : t) : lru_within s -> lru_within (put k v s).
Proof.
  intros Hs. unfold put.
  destruct (Nat.eqb_spec (cap s) 0) as [Hc|Hc]; [assumption|].
  destruct (find_key k (entries s)) as [w|] eqn:E.
  - now apply (lru_touch_within k v s w).
  - unfold lru_within in *. cbn [cap entries length].
    destruct (Nat.eqb_spec (length (entries s)) (cap s)) as [Hfull|Hfree].
    + rewrite length_removelast. lia.
    + lia.
Qed.

Lemma lru_get_within k (s : t) : lru_within s -> lru_within (snd (get k s)).
Proof.
  intros Hs. unfold get.
  destruct (find_key k (entries s)) as [w|] eqn:E; [|assumption].
  now apply (lru_touch_within k w s w).
Qed.

Lemma lru_put_cap k v s : cap (put k v s) = cap s.
Proof.
  unfold put. destruct (Nat.eqb (cap s) 0); [reflexivity|].
  now destruct (find_key k (entries s)).
Qed.

Lemma lru_get_cap k s : cap (snd (get k s)) = cap s.
Proof. unfold get. now destruct (find_key k (entries s)). Qed.
End LruFacts.

Module LfuFacts.
Import Lfu.

Lemma lookup_in k l n : lookup k l = Some n -> In n l /\ key n = k.
Proof.
  unfold lookup. intros Hf. apply find_some in Hf.
  destruct Hf as (Hin & Hk). split; [assumption|now apply Z.eqb_eq].
Qed.

Lemma lookup_none k l : lookup k l = None -> ~ In k (map key l).
Proof.
  unfold lookup. intros Hf Hin. apply in_map_iff in Hin.
  destruct Hin as (n & Hk & Hin).
  apply (find_none _ _ Hf) in Hin. cbn in Hin. rewrite Hk, Z.eqb_refl in Hin.
  discriminate.
Qed.

Lemma detach_in k l n : In n (detach k l) <-> In n l /\ key n <> k.
Proof.
  unfold detach. rewrite filter_In, negb_true_iff, Z.eqb_neq. tauto.
Qed.

Lemma detach_keys k l : ~ In k (map key (detach k l)).
Proof.
  intros Hin. apply in_map_iff in Hin. destruct Hin as (n & Hk & Hin).
  apply detach_in in Hin. tauto.
Qed.

Lemma detach_nodup k l : NoDup (map key l) -> NoDup (map key (detach k l)).
Proof.
  induction l as [|a l IH]; intros Hnd; [constructor|].
  cbn [map] in Hnd. inversion Hnd as [|? ? Hnotin Hnd']; subst.
  unfold detach in *. cbn [filter].
  destruct (negb (key a =? k)); [|auto].
  cbn [map]. constructor; [|auto].
  intros Hin. apply Hnotin. apply in_map_iff in Hin.
  destruct Hin as (n & Hk & Hin). apply filter_In in Hin.
  apply in_map_iff. exists n. tauto.
Qed.

Lemma snoc_nodup (l : list node) (n : node) :
  NoDup (map key l) -> ~ In (key n) (map key l) ->
  NoDup (map key (l ++ [n])).
Proof.
  intros Hnd Hnotin. rewrite map_app. cbn [map].
  apply NoDup_app; [assumption|repeat constructor; auto|].
  intros k Hin [<-|[]]. contradiction.
Qed.

Lemma detach_shrinks l n :
  In n l -> (length (detach (key n) l) < length l)%nat.
Proof.
  intros Hin. unfold detach. apply (filter_drops _ l n Hin).
  now rewrite Z.eqb_refl.
Qed.

Lemma key_determines l n w :
  NoDup (map key l) -> In n l -> In w l -> key w = key n -> w = n.
Proof.
  induction l as [|a l IH]; intros Hnd Hin Hw Hk; [contradiction|].
  cbn [map] in Hnd. inversion Hnd as [|? ? Hnotin Hnd']; subst.
  destruct Hin as [->|Hin], Hw as [->|Hw]; auto.
  - exfalso. apply Hnotin. rewrite <- Hk. now apply in_map.
  - exfalso. apply Hnotin. rewrite Hk. now apply in_map.
Qed.

Lemma promote_ok n v s : lfu_ok s -> In n (nodes s) -> lfu_ok (promote n v s).
Proof.
  intros (Hlen & Hnd & Hmin) Hin. unfold lfu_ok, promote.
  cbn [nodes cap min_freq]. split; [|split].
  - rewrite length_app. cbn [length].
    pose proof (detach_shrinks _ _ Hin). lia.
  - apply snoc_nodup; [now apply detach_nodup|apply detach_keys].
  - intros _.
    destruct Hmin as (w & Hw & Hcw);
      [intros Hnil; rewrite Hnil in Hin; contradiction|].
    assert (Hother : count n <> min_freq s ->
              In w (detach (key n) (nodes s) ++
                    [{| key := key n; value := v; count := S (count n) |}])).
    { intros Hf. apply in_app_iff. left. apply detach_in.
      split; [assumption|]. intros Hk. apply Hf. rewrite <- Hcw.
      now rewrite (key_determines _ _ _ Hnd Hin Hw Hk). }
    destruct (bucket (count n) (detach (key n) (nodes s))) as [|m ms] eqn:Eb;
      destruct (Nat.eqb_spec (count n) (min_freq s)) as [Hf|Hf];
      try (exists w; split; [now apply Hother|assumption]).
    + eexists. split; [apply in_app_iff; right; left; reflexivity|].
      reflexivity.
    + assert (Hm : In m (bucket (count n) (detach (key n) (nodes s))))
        by (rewrite Eb; now left).
      unfold bucket in Hm. apply filter_In in Hm. destruct Hm as (Hm & Hc).
      apply Nat.eqb_eq in Hc. exists m. split; [|congruence].
      apply in_app_iff. now left.
Qed.

Lemma least_attained l : l <> [] -> exists n, In n l /\ count n = least l.
Proof.
  destruct l as [|a l]; [congruence|]. intros _. unfold least.
  assert (Hgen : forall (l : list node) (a : node),
            exists n, In n (a :: l) /\
                      count n = fold_left Nat.min (map count l) (count a)).
  { clear. induction l as [|b l IH]; intros a.
    - exists a. split; [now left|reflexivity].
    - cbn [map fold_left].
      destruct (Nat.le_ge_cases (count a) (count b)) as [Hle|Hle].
      + rewrite Nat.min_l by assumption.
        destruct (IH a) as (n & Hin & Hn). exists n. split; [|assumption].
        destruct Hin as [->|Hin]; [now left|right; now right].
      + rewrite Nat.min_r by assumption.
        destruct (IH b) as (n & Hin & Hn). exists n. split; [|assumption].
        now right. }
  apply Hgen.
Qed.

Lemma decay_ok s : lfu_ok s -> lfu_ok (decay s).
Proof.
  intros (Hlen & Hnd & Hmin). unfold decay.
  destruct (_ && _); [|repeat split; assumption].
  unfold lfu_ok. cbn [nodes cap min_freq]. split; [|split].
  - now rewrite length_map.
  - rewrite map_map. cbn [halve key]. exact Hnd.
  - apply least_attained.
Qed.

Lemma evict_shrinks s :
  lfu_ok s -> nodes s <> [] ->
  (length (nodes (evict s)) < length (nodes s))%nat /\
  NoDup (map key (nodes (evict s))) /\ cap (evict s) = cap s /\
  max_avg_freq (evict s) = max_avg_freq s.
Proof.
  intros (Hlen & Hnd & Hmin) Hne. destruct (Hmin Hne) as (w & Hw & Hcw).
  unfold evict.
  destruct (bucket (min_freq s) (nodes s)) as [|n ns] eqn:Eb.
  - exfalso. assert (Hin : In w (bucket (min_freq s) (nodes s))).
    { unfold bucket. apply filter_In. split; [assumption|].
      now apply Nat.eqb_eq. }
    rewrite Eb in Hin. contradiction.
  - cbn [nodes cap max_avg_freq].
    assert (Hn : In n (nodes s)).
    { assert (Hin : In n (bucket (min_freq s) (nodes s)))
        by (rewrite Eb; now left).
      unfold bucket in Hin. now apply filter_In in Hin. }
    split; [now apply detach_shrinks|]. split; [now apply detach_nodup|].
    auto.
Qed.

Lemma evict_keys s k :
  ~ In k (map key (nodes s)) -> ~ In k (map key (nodes (evict s))).
Proof.
  intros Hnotin. unfold evict.
  destruct (bucket (min_freq s) (nodes s)) as [|n ns]; [assumption|].
  cbn [nodes]. intros Hin. apply Hnotin. apply in_map_iff in Hin.
  destruct Hin as (m & Hk & Hin). apply detach_in in Hin.
  apply in_map_iff. exists m. tauto.
Qed.

Lemma lfu_put_ok k v s : lfu_ok s -> lfu_ok (put k v s).
Proof.
  intros Hs. unfold put.
  destruct (Nat.eqb_spec (cap s) 0) as [Hc|Hc]; [assumption|].
  destruct (lookup k (nodes s)) as [n|] eqn:E.
  - apply promote_ok; [assumption|]. now apply lookup_in in E.
  - apply lookup_none in E.
    destruct (Nat.eqb_spec (length (nodes s)) (cap s)) as [Hfull|Hfree].
    + assert (Hne : nodes s <> []).
      { intros Hnil. rewrite Hnil in Hfull. cbn in Hfull. lia. }
      destruct (evict_shrinks s Hs Hne) as (Hlt & Hnd & Hcap & _).
      destruct Hs as (Hlen & _ & _).
      unfold lfu_ok. cbn [nodes cap min_freq]. split; [|split].
      * rewrite length_app. cbn [length]. lia.
      * apply snoc_nodup; [assumption|]. cbn [key]. now apply evict_keys.
      * intros _. eexists. split; [apply in_app_iff; right; now left|].
        reflexivity.
    + destruct Hs as (Hlen & Hnd & _).
      unfold lfu_ok. cbn [nodes cap min_freq]. split; [|split].
      * rewrite length_app. cbn [length]. lia.
      * now apply snoc_nodup.
      * intros _. eexists. split; [apply in_app_iff; right; now left|].
        reflexivity.
Qed.

Lemma lfu_get_ok k s : lfu_ok s -> lfu_ok (snd (get k s)).
Proof.
  intros Hs. unfold get.
  destruct (lookup k (nodes s)) as [n|] eqn:E; [|assumption].
  cbn [snd]. apply decay_ok, promote_ok; [assumption|].
  now apply lookup_in in E.
Qed.

Lemma lfu_put_cap k v s : cap (put k v s) = cap s.
Proof.
  unfold put. destruct (Nat.eqb (cap s) 0); [reflexivity|].
  destruct (lookup k (nodes s)); [reflexivity|].
  destruct (Nat.eqb (length (nodes s)) (cap s)); [|reflexivity].
  cbn [cap]. unfold evict.
  now destruct (bucket (min_freq s) (nodes s)).
Qed.

Lemma lfu_get_cap k s : cap (snd (get k s)) = cap s.
Proof.
  unfold get. destruct (lookup k (nodes s)); [|reflexivity].
  cbn [snd]. unfold decay. now destruct (_ && _).
Qed.
End LfuFacts.

Module ArcFacts.
Import Arc.

Lemma mem_key_length k l : mem_key k l = true -> (0 < length l)%nat.
Proof. destruct l; [discriminate|cbn; lia]. Qed.

Lemma rev_head_length {A : Type} (l : list A) :
  rev l = [] -> length l = 0%nat.
Proof. intros Hr. rewrite <- length_rev, Hr. reflexivity. Qed.

(** [REPLACE] moves one resident entry to a ghost list, unless the list
    it selects is empty. *)
Lemma replace_lengths k s :
  c (replace k s) = c s /\ p (replace k s) = p s /\
  ((0 < length (T1 s))%nat /\
   S (length (T1 (replace k s))) = length (T1 s) /\
   length (B1 (replace k s)) = S (length (B1 s)) /\
   T2 (replace k s) = T2 s /\ B2 (replace k s) = B2 s
   \/
   ((length (T1 s) = 0)%nat \/
    (length (T1 s) <= p s)%nat /\
    (mem_key k (B2 s) = false \/ length (T1 s) <> p s)) /\
   T1 (replace k s) = T1 s /\ B1 (replace k s) = B1 s /\
   ((0 < length (T2 s))%nat /\
    S (length (T2 (replace k s))) = length (T2 s) /\
    length (B2 (replace k s)) = S (length (B2 s))
    \/
    length (T2 s) = 0%nat /\ replace k s = s)).
Proof.
  unfold replace.
  destruct (Nat.ltb_spec 0 (length (T1 s))) as [Hpos|Hzero]; cbn [andb].
  - destruct (Nat.ltb_spec (p s) (length (T1 s))) as [Hgt|Hle]; cbn [orb].
    + destruct (rev (T1 s)) as [|[k' v'] r] eqn:Er.
      { apply rev_head_length in Er. lia. }
      cbn [c p T1 T2 B1 B2 length]. rewrite length_removelast.
      split; [reflexivity|]. split; [reflexivity|]. left.
      repeat split; lia.
    + destruct (mem_key k (B2 s)) eqn:Em; cbn [andb];
        [destruct (Nat.eqb_spec (length (T1 s)) (p s)) as [Heq|Hne]|].
      * destruct (rev (T1 s)) as [|[k' v'] r] eqn:Er.
        { apply rev_head_length in Er. lia. }
        cbn [c p T1 T2 B1 B2 length]. rewrite length_removelast.
        split; [reflexivity|]. split; [reflexivity|]. left.
        repeat split; lia.
      * destruct (rev (T2 s)) as [|[k' v'] r] eqn:Er.
        { apply rev_head_length in Er. repeat split; auto.
          right. repeat split; auto. }
        cbn [c p T1 T2 B1 B2 length]. rewrite length_removelast.
        assert (0 < length (T2 s))%nat.
        { rewrite <- length_rev, Er. cbn. lia. }
        repeat split; auto. right. repeat split; auto. left. lia.
      * destruct (rev (T2 s)) as [|[k' v'] r] eqn:Er.
        { apply rev_head_length in Er. repeat split; auto.
          right. repeat split; auto. }
        cbn [c p T1 T2 B1 B2 length]. rewrite length_removelast.
        assert (0 < length (T2 s))%nat.
        { rewrite <- length_rev, Er. cbn. lia. }
        repeat split; auto. right. repeat split; auto. left. lia.
  - destruct (rev (T2 s)) as [|[k' v'] r] eqn:Er.
    { apply rev_head_length in Er. repeat split; auto.
      right. split; [left; lia|]. repeat split; auto. }
    cbn [c p T1 T2 B1 B2 length]. rewrite length_removelast.
    assert (0 < length (T2 s))%nat.
    { rewrite <- length_rev, Er. cbn. lia. }
    repeat split; auto. right. split; [left; lia|].
    repeat split; auto. left. lia.
Qed.

Lemma replace_sizes k s :
  c (replace k s) = c s /\ p (replace k s) = p s /\
  ((0 < length (T1 s))%nat /\
   S (length (T1 (replace k s))) = length (T1 s) /\
   length (B1 (replace k s)) = S (length (B1 s)) /\
   length (T2 (replace k s)) = length (T2 s) /\
   length (B2 (replace k s)) = length (B2 s)
   \/
   ((length (T1 s) = 0)%nat \/
    (length (T1 s) <= p s)%nat /\
    (mem_key k (B2 s) = false \/ length (T1 s) <> p s)) /\
   length (T1 (replace k s)) = length (T1 s) /\
   length (B1 (replace k s)) = length (B1 s) /\
   ((0 < length (T2 s))%nat /\
    S (length (T2 (replace k s))) = length (T2 s) /\
    length (B2 (replace k s)) = S (length (B2 s))
    \/
    length (T2 s) = 0%nat /\ length (T2 (replace k s)) = 0%nat /\
    length (B2 (replace k s)) = length (B2 s))).
Proof.
  destruct (replace_lengths k s)
    as (Hc & Hp &
        [(H1 & H2 & H3 & H4 & H5)
        |(H1 & H2 & H3 & [(H4 & H5 & H6)|(H4 & H5)])]).
  - rewrite H4, H5. auto 10.
  - rewrite H2, H3. split; [assumption|]. split; [assumption|].
    right. auto 10.
  - rewrite H5. split; [reflexivity|]. split; [reflexivity|].
    right. auto 10.
Qed.

Ltac replace_cases k s :=
  let Hc := fresh "Hc" in
  let Hp := fresh "Hp" in
  destruct (replace_sizes k s)
    as (Hc & Hp &
        [(? & ? & ? & ? & ?)
        |(? & ? & ? & [(? & ? & ?)|(? & ? & ?)])]).

Lemma to_T2_ok k v w s :
  arc_ok s -> resident_key k s = Some w -> arc_ok (to_T2 k v s).
Proof.
  intros (H12 & H11 & Hp) Hres. unfold arc_ok, to_T2.
  cbn [c p T1 T2 B1 B2 length].
  pose proof (filter_length_le (fun e : Z * string => negb (fst e =? k))
                (T1 s)) as L1.
  pose proof (filter_length_le (fun e : Z * string => negb (fst e =? k))
                (T2 s)) as L2.
  fold (remove_key k (T1 s)) in L1. fold (remove_key k (T2 s)) in L2.
  unfold resident_key in Hres.
  destruct (find_key k (T1 s)) as [u|] eqn:E1.
  - apply find_key_drops in E1. lia.
  - apply find_key_drops in Hres. lia.
Qed.

Ltac abstract_state s1 s0 :=
  let E1 := fresh "E" in let E2 := fresh "E" in let E3 := fresh "E" in
  let E4 := fresh "E" in let E5 := fresh "E" in
  assert (E1 : c s1 = c s0) by reflexivity;
  assert (E2 : T1 s1 = T1 s0) by reflexivity;
  assert (E3 : T2 s1 = T2 s0) by reflexivity;
  assert (E4 : B1 s1 = B1 s0) by reflexivity;
  assert (E5 : B2 s1 = B2 s0) by reflexivity;
  clearbody s1.

Lemma ghost_B1_ok k v s :
  arc_ok s -> c s <> 0%nat -> mem_key k (B1 s) = true ->
  arc_ok (let s := replace k (adapt_B1 s) in
      {| c := c s; p := p s; T1 := T1 s; T2 := (k, v) :: T2 s;
         B1 := drop_key k (B1 s); B2 := B2 s |}).
Proof.
  intros (H12 & H11 & Hp) Hc0 Hmem. apply mem_key_length in Hmem.
  cbv zeta. unfold arc_ok. cbn [c p T1 T2 B1 B2 length].
  assert (Hp' : (p (adapt_B1 s) <= c s)%nat).
  { unfold adapt_B1, with_p. cbn [p]. apply Nat.le_min_l. }
  set (s1 := adapt_B1 s) in *. abstract_state s1 s.
  pose proof (filter_length_le (fun k' => negb (k' =? k))
                (B1 (replace k s1))) as LB.
  fold (drop_key k (B1 (replace k s1))) in LB.
  replace_cases k s1; rewrite ?E, ?E0, ?E1, ?E2, ?E3 in *; lia.
Qed.

Lemma ghost_B2_ok k v s :
  arc_ok s -> c s <> 0%nat -> mem_key k (B2 s) = true ->
  arc_ok (let s := replace k (adapt_B2 s) in
      {| c := c s; p := p s; T1 := T1 s; T2 := (k, v) :: T2 s;
         B1 := B1 s; B2 := drop_key k (B2 s) |}).
Proof.
  intros (H12 & H11 & Hp) Hc0 Hmem.
  cbv zeta. unfold arc_ok. cbn [c p T1 T2 B1 B2 length].
  assert (Hp' : (p (adapt_B2 s) <= c s)%nat).
  { unfold adapt_B2, with_p. cbn [p].
    apply Nat.le_trans with (p s); [apply Nat.le_sub_l|assumption]. }
  set (s1 := adapt_B2 s) in *. abstract_state s1 s.
  replace_cases k s1; rewrite ?E, ?E0, ?E1, ?E2, ?E3 in *; try lia.
  all: repeat match goal with
         | Hx : _ \/ _ |- _ => destruct Hx
         | Hx : _ /\ _ |- _ => destruct Hx
         end; try lia; congruence.
Qed.

Lemma make_room_ok k v s :
  arc_ok s -> c s <> 0%nat ->
  arc_ok (let s := make_room k s in
      {| c := c s; p := p s; T1 := (k, v) :: T1 s; T2 := T2 s;
         B1 := B1 s; B2 := B2 s |}).
Proof.
  intros (H12 & H11 & Hp) Hc0.
  cbv zeta. unfold arc_ok, make_room. cbn [c p T1 T2 B1 B2 length].
  destruct (Nat.eqb_spec (length (T1 s) + length (B1 s)) (c s)) as [Hfull|Hnf].
  - destruct (Nat.ltb_spec (length (T1 s)) (c s)) as [Hlt|Hge].
    + match goal with
      | |- context [replace k ?s0] => replace_cases k s0
      end; cbn [c p T1 T2 B1 B2] in *;
        rewrite ?length_removelast in *; lia.
    + cbn [c p T1 T2 B1 B2]. rewrite length_removelast. lia.
  - destruct (Nat.ltb_spec (length (T1 s) + length (B1 s)) (c s)) as [Hlt|Hge];
      cbn [andb]; [|cbn [c p T1 T2 B1 B2]; lia].
    destruct (Nat.leb_spec (c s)
                (length (T1 s) + length (B1 s) + length (T2 s)
                 + length (B2 s))) as [Htot|Htot];
      [|cbn [c p T1 T2 B1 B2]; lia].
    destruct (Nat.eqb (length (T1 s) + length (B1 s) + length (T2 s)
                       + length (B2 s)) (2 * c s));
      match goal with
      | |- context [replace k ?s0] => replace_cases k s0
      end; cbn [c p T1 T2 B1 B2] in *;
        rewrite ?length_removelast in *; lia.
Qed.

Lemma arc_put_ok k v s : arc_ok s -> arc_ok (put k v s).
Proof.
  intros Hs. unfold put.
  destruct (Nat.eqb_spec (c s) 0) as [Hc|Hc]; [assumption|].
  destruct (resident_key k s) as [w|] eqn:Eres.
  - now apply (to_T2_ok k v w).
  - destruct (mem_key k (B1 s)) eqn:E1; [now apply ghost_B1_ok|].
    destruct (mem_key k (B2 s)) eqn:E2; [now apply ghost_B2_ok|].
    now apply make_room_ok.
Qed.

Lemma arc_get_ok k s : arc_ok s -> arc_ok (snd (get k s)).
Proof.
  intros Hs. unfold get.
  destruct (resident_key k s) as [w|] eqn:Eres.
  - now apply (to_T2_ok k w w).
  - destruct Hs as (H12 & H11 & Hp).
    destruct (mem_key k (B1 s)); [|destruct (mem_key k (B2 s))];
      unfold arc_ok, adapt_B1, adapt_B2, with_p; cbn [snd c p T1 T2 B1 B2];
      repeat split; lia.
Qed.

Lemma replace_c k s : c (replace k s) = c s.
Proof. apply replace_lengths. Qed.

Lemma put_c k v s : c (put k v s) = c s.
Proof.
  unfold put. destruct (Nat.eqb (c s) 0); [reflexivity|].
  destruct (resident_key k s); [reflexivity|].
  destruct (mem_key k (B1 s)); [cbn [c]; now rewrite replace_c|].
  destruct (mem_key k (B2 s)); [cbn [c]; now rewrite replace_c|].
  cbn [c]. unfold make_room.
  repeat match goal with
         | |- context [if ?b then _ else _] => destruct b
         end; rewrite ?replace_c; reflexivity.
Qed.

Lemma get_c k s : c (snd (get k s)) = c s.
Proof.
  unfold get. destruct (resident_key k s); [reflexivity|].
  destruct (mem_key k (B1 s)); [reflexivity|].
  now destruct (mem_key k (B2 s)).
Qed.
End ArcFacts.

Lemma sound_policy_call cap (o : policy) (x : call) :
  sound_policy cap o -> sound_policy cap (exec_call o x).
Proof.
  destruct o as [s|s|s], x as [k v|k]; cbn [exec_call put get policy_cache
    policy_put policy_get sound_policy]; intros (Hs & Hc).
  - split; [now apply LruFacts.lru_put_within|now rewrite LruFacts.lru_put_cap].
  - pose proof (LruFacts.lru_get_within k s Hs).
    pose proof (LruFacts.lru_get_cap k s).
    destruct (Lru.get k s). cbn [snd sound_policy] in *. split; congruence.
  - split; [now apply LfuFacts.lfu_put_ok|now rewrite LfuFacts.lfu_put_cap].
  - pose proof (LfuFacts.lfu_get_ok k s Hs).
    pose proof (LfuFacts.lfu_get_cap k s).
    destruct (Lfu.get k s). cbn [snd sound_policy] in *. split; congruence.
  - split; [now apply ArcFacts.arc_put_ok|now rewrite ArcFacts.put_c].
  - pose proof (ArcFacts.arc_get_ok k s Hs).
    pose proof (ArcFacts.get_c k s).
    destruct (Arc.get k s). cbn [snd sound_policy] in *. split; congruence.
Qed.

Lemma sound_policy_resident cap (o : policy) :
  sound_policy cap o -> (resident o <= cap)%nat.
Proof.
  destruct o as [s|s|s]; cbn [sound_policy resident].
  - intros (Hs & <-). exact Hs.
  - intros ((Hs & _) & <-). exact Hs.
  - intros ((Hs & _) & <-). exact Hs.
Qed.

(** C4.  For every policy (LRU, LFU, ARC) with configured capacity [c] and
    every sequence of [put]/[get] operations, the number of resident
    entries does not exceed [c] at any point of the sequence (after any
    prefix of it). *)
Theorem resident_within_capacity (c max_avg_freq : nat) (l : list call)
  (n : nat) :
  (resident (exec (PLru (Lru.new c)) (firstn n l)) <= c)%nat /\
  (resident (exec (PLfu (Lfu.new c max_avg_freq)) (firstn n l)) <= c)%nat /\
  (resident (exec (PArc (Arc.new c)) (firstn n l)) <= c)%nat.
Proof.
  repeat split; apply (sound_policy_resident c);
    apply (exec_invariant (sound_policy c) (sound_policy_call c)).
  - cbn. unfold lru_within. cbn. split; [lia|reflexivity].
  - cbn. unfold lfu_ok. cbn. repeat split; try lia; try constructor.
    congruence.
  - cbn. unfold arc_ok. cbn. repeat split; lia.
Qed.

(** ** The LRU policy has no phantoms *)

Lemma find_key_in {V : Type} (k : Z) (l : list (Z * V)) (v : V) :
  find_key k l = Some v -> In (k, v) l.
Proof.
  unfold find_key. intros Hf.
  destruct (find (fun e => fst e =? k) l) as [[k' v']|] eqn:E;
    [|discriminate].
  apply find_some in E. destruct E as (Hin & Hk).
  cbn in Hk, Hf. apply Z.eqb_eq in Hk. injection Hf as <-. now subst k'.
Qed.

Lemma in_removelast {A : Type} (l : list A) (x : A) :
  In x (removelast l) -> In x l.
Proof.
  induction l as [|a l IH]; [contradiction|].
  destruct l as [|b l]; [contradiction|].
  intros [->|Hin]; [now left|right; now apply IH].
Qed.

Lemma lru_history (c : nat) (l : list call) :
  exists s,
    exec (PLru (Lru.new c)) l = PLru s /\
    forall k v, In (k, v) (Lru.entries s) -> In (Put k v) l.
Proof.
  induction l as [|x l IH] using rev_ind.
  - exists (Lru.new c). split; [reflexivity|]. intros k v [].
  - destruct IH as (s & Hs & Hin). unfold exec in *.
    rewrite fold_left_app, Hs. cbn [fold_left].
    assert (Htouch : forall k v w,
              find_key k (Lru.entries s) = Some w ->
              forall k' v',
                In (k', v') ((k, v) :: remove_key k (Lru.entries s)) ->
                (k', v') = (k, v) \/ In (k', v') (Lru.entries s)).
    { intros k v w _ k' v' [Heq|Hrem]; [now left|right].
      unfold remove_key in Hrem. now apply filter_In in Hrem. }
    destruct x as [k v|k]; cbn [exec_call put get policy_cache policy_put
                                 policy_get].
    + eexists. split; [reflexivity|]. intros k' v' Hk'.
      apply in_app_iff. unfold Lru.put in Hk'.
      destruct (Nat.eqb (Lru.cap s) 0); [left; auto|].
      destruct (find_key k (Lru.entries s)) as [w|] eqn:E;
        cbn [Lru.entries] in Hk'.
      * destruct (Htouch k v w E k' v' Hk') as [Heq|Hold]; [|left; auto].
        injection Heq as -> ->. right. now left.
      * destruct Hk' as [Heq|Hold].
        -- injection Heq as -> ->. right. now left.
        -- left. apply Hin.
           destruct (Nat.eqb (length (Lru.entries s)) (Lru.cap s));
             [now apply in_removelast|assumption].
    + unfold Lru.get.
      destruct (find_key k (Lru.entries s)) as [w|] eqn:E; cbn [snd].
      * eexists. split; [reflexivity|]. intros k' v' Hk'.
        cbn [Lru.entries] in Hk'. apply in_app_iff. left. apply Hin.
        destruct (Htouch k w w E k' v' Hk') as [Heq|Hold]; [|assumption].
        injection Heq as -> ->. now apply find_key_in.
      * exists s. split; [reflexivity|]. intros k' v' Hk'.
        apply in_app_iff. left. auto.
Qed.

Lemma lru_no_phantoms (c : nat) : no_phantoms (PLru (Lru.new c)).
Proof.
  intros l k v Hget. destruct (lru_history c l) as (s & Hs & Hin).
  rewrite Hs in Hget. cbn [get policy_cache policy_get] in Hget.
  apply Hin. unfold Lru.get in Hget.
  destruct (find_key k (Lru.entries s)) as [w|] eqn:E;
    cbn [fst] in Hget; [|discriminate].
  injection Hget as <-. now apply find_key_in.
Qed.

Lemma hot_values_read_back_witness :
  exists puts gets,
    trace LRU (HotDataAccessTest.base (hot_small_end 200))
    = trace LRU (HotDataAccessTest.base (hot_small 200)) ++ puts ++ gets /\
    forall k v, In (EvGet k (Some v)) gets ->
                v = ("value" ++ to_string k)%string.
Proof.
  destruct (hot_values_read_back (H:=linked) LRU (hot_small 200)
              (hot_small_end 200))
    as (puts & gets & Htr & _ & _ & _ & _ & Hgets).
  - apply hot_small_reachable. reflexivity.
  - intros cap. apply lru_no_phantoms.
  - vm_compute. reflexivity.
  - exists puts, gets. split; [exact Htr|exact Hgets].
Defined.

(** ** The configuration done by [main] *)

(** C1 (as amended).  [main] sets [HotDataAccessTest] to capacity 50,
    200000 operations, 20 hot keys, 5000 cold keys and a 70% hot-access
    ratio, the configuration of scenario E6.  The constructors use the
    same capacity, hot keys, cold keys and hot ratio as defaults, but a
    default of 100000 operations. *)
Theorem main_hot_configuration `{H : Harness} (g : mt19937) :
  hot_settings (main_hotTest g) = (50, 200000, 20, 5000, 70) /\
  hot_settings (HotDataAccessTest.new g) = (50, 100000, 20, 5000, 70).
Proof. split; reflexivity. Qed.

(** C1 as stated fails: the operation count [main] sets is not the one
    the constructor leaves. *)
Lemma main_hot_configuration_counterexample :
  hot_settings (main_hotTest (H:=linked) seed0)
  <> hot_settings (HotDataAccessTest.new (H:=linked) seed0).
Proof. cbv [hot_settings]. cbn. discriminate. Qed.

(** ** [CacheTest::setCapacity] *)

(** C10.  [setCapacity(capacity)] stores the capacity, replaces the three
    caches by caches newly constructed with it and sets the [hits] and
    [operations] counters of the three policies to 0; the caches and the
    counters after the call do not depend on what they were before, and
    a recording cache has an empty trace after it. *)
Theorem setCapacity_resets `{H : Harness} (capacity : Z) (t : CacheTest) :
  TestConfig.capacity (config (setCapacity capacity t)) = capacity /\
  lruCache (setCapacity capacity t) = KLruCache capacity /\
  lfuCache (setCapacity capacity t) = KLfuCache capacity /\
  arcCache (setCapacity capacity t) = KArcCache capacity /\
  (forall type,
      hits (setCapacity capacity t) type = 0 /\
      operations (setCapacity capacity t) type = 0) /\
  (forall (t2 : CacheTest) type,
      getCache type (setCapacity capacity t2)
      = getCache type (setCapacity capacity t) /\
      hits (setCapacity capacity t2) type
      = hits (setCapacity capacity t) type /\
      operations (setCapacity capacity t2) type
      = operations (setCapacity capacity t) type) /\
  (forall (tl : @CacheTest (Logging H)) type,
      trace type (@setCapacity (Logging H) capacity tl) = []).
Proof.
  repeat split; try (destruct type; reflexivity).
Qed.

(** ** [LoopPatternTest]: the two ratios *)

Section LoopRatios.
Context `{H : Harness}.
Import LoopPatternTest.

Lemma clamp_spec ratio :
  (let r := if ratio <? 0 then 0 else ratio in
   if r >? 100 then 100 else r) = clamp ratio.
Proof.
  unfold clamp. cbv zeta.
  destruct (Z.ltb_spec ratio 0);
    [destruct (Z.gtb_spec 0 100)|destruct (Z.gtb_spec ratio 100)]; lia.
Qed.

Lemma clamp_range ratio : 0 <= clamp ratio <= 100.
Proof. unfold clamp. lia. Qed.

Lemma setSequentialRatio_spec ratio (x : t) :
  sequentialRatio (setSequentialRatio ratio x) = clamp ratio /\
  randomRatio (setSequentialRatio ratio x)
  = (if clamp ratio + randomRatio x >? 100 then 100 - clamp ratio
     else randomRatio x) /\
  loopSize (setSequentialRatio ratio x) = loopSize x /\
  base (setSequentialRatio ratio x) = base x.
Proof.
  unfold setSequentialRatio. cbn [sequentialRatio randomRatio loopSize base].
  pose proof (clamp_spec ratio) as Hc. cbv zeta in Hc. rewrite !Hc. auto.
Qed.

Lemma setRandomRatio_spec ratio (x : t) :
  randomRatio (setRandomRatio ratio x) = clamp ratio /\
  sequentialRatio (setRandomRatio ratio x)
  = (if sequentialRatio x + clamp ratio >? 100 then 100 - clamp ratio
     else sequentialRatio x) /\
  loopSize (setRandomRatio ratio x) = loopSize x /\
  base (setRandomRatio ratio x) = base x.
Proof.
  unfold setRandomRatio. cbn [sequentialRatio randomRatio loopSize base].
  pose proof (clamp_spec ratio) as Hc. cbv zeta in Hc. rewrite !Hc. auto.
Qed.

Lemma setSequentialRatio_ok ratio (x : t) :
  ratios_ok x -> ratios_ok (setSequentialRatio ratio x).
Proof.
  intros (Hs & Hr & Hsum). unfold ratios_ok.
  destruct (setSequentialRatio_spec ratio x) as (-> & -> & _).
  pose proof (clamp_range ratio).
  destruct (Z.gtb_spec (clamp ratio + randomRatio x) 100); lia.
Qed.

Lemma setRandomRatio_ok ratio (x : t) :
  ratios_ok x -> ratios_ok (setRandomRatio ratio x).
Proof.
  intros (Hs & Hr & Hsum). unfold ratios_ok.
  destruct (setRandomRatio_spec ratio x) as (-> & -> & _).
  pose proof (clamp_range ratio).
  destruct (Z.gtb_spec (sequentialRatio x + clamp ratio) 100); lia.
Qed.

Lemma loop_run_fields type (x x' : t) :
  runTestForCacheType type x = Ok x' -> same_loop x x'.
Proof.
  unfold runTestForCacheType, for_range. intros Hrun.
  inv_bind Hrun. rename a into y. inv_bind Hrun. injection Hrun as <-.
  apply (for_loop_inv (fun _ z => same_loop x z)) in Ha.
  - apply (for_loop_inv (fun _ st => same_loop x (fst st))) in Ha0; auto.
    intros j [z p] [z' p'] _ Hz Hs. apply loop_access_step in Hs.
    destruct Hs as (key & b & _ & ->). exact Hz.
  - repeat split.
  - intros j z z' _ Hz Hs. apply loop_fill_step in Hs. subst z'. exact Hz.
Qed.

Lemma loop_runTest_fields (x x' : t) : runTest x = Ok x' -> same_loop x x'.
Proof.
  intros Hrun. apply loop_runTest_runs in Hrun.
  destruct Hrun as (a & a0 & Ha & Ha0 & Hrun & _).
  apply loop_run_fields in Ha, Ha0, Hrun.
  destruct Ha as (A1 & A2 & A3), Ha0 as (B1 & B2 & B3),
    Hrun as (C1 & C2 & C3).
  repeat split; congruence.
Qed.

Lemma loop_reachable_ratios (x : t) : reachable x -> ratios_ok x.
Proof.
  induction 1 as [g| | | | | | | |x x' Hx IH Hrun|ty x x' Hx IH Hrun];
    try exact IHreachable.
  - unfold ratios_ok. cbn. lia.
  - now apply setSequentialRatio_ok.
  - now apply setRandomRatio_ok.
  - apply loop_runTest_fields in Hrun. destruct Hrun as (_ & Hs & Hr).
    unfold ratios_ok in *. rewrite Hs, Hr. exact IH.
  - apply loop_run_fields in Hrun. destruct Hrun as (_ & Hs & Hr).
    unfold ratios_ok in *. rewrite Hs, Hr. exact IH.
Qed.

(** C8.  [LoopPatternTest] maintains
    [0 <= sequentialRatio <= 100], [0 <= randomRatio <= 100] and
    [sequentialRatio + randomRatio <= 100]: the constructor establishes it
    (60 and 30), [setSequentialRatio] and [setRandomRatio] clamp their
    argument to [[0, 100]], shrink the other ratio when the sum would
    exceed 100 and so preserve it, and it holds of every object the public
    member functions can produce; the out-of-range share
    [100 - sequentialRatio - randomRatio] is then not negative. *)
Theorem loop_ratios_invariant :
  (forall g, ratios_ok (new g) /\
             sequentialRatio (new g) = 60 /\ randomRatio (new g) = 30) /\
  (forall ratio x,
      sequentialRatio (setSequentialRatio ratio x) = clamp ratio /\
      randomRatio (setSequentialRatio ratio x) <= randomRatio x /\
      (ratios_ok x -> ratios_ok (setSequentialRatio ratio x))) /\
  (forall ratio x,
      randomRatio (setRandomRatio ratio x) = clamp ratio /\
      sequentialRatio (setRandomRatio ratio x) <= sequentialRatio x /\
      (ratios_ok x -> ratios_ok (setRandomRatio ratio x))) /\
  (forall x, reachable x ->
             ratios_ok x /\ 0 <= 100 - sequentialRatio x - randomRatio x).
Proof.
  split; [|split; [|split]].
  - intros g. unfold ratios_ok. cbn. lia.
  - intros ratio x.
    destruct (setSequentialRatio_spec ratio x) as (Hs & Hr & _).
    split; [exact Hs|]. split; [|apply setSequentialRatio_ok].
    rewrite Hr. destruct (Z.gtb_spec (clamp ratio + randomRatio x) 100); lia.
  - intros ratio x.
    destruct (setRandomRatio_spec ratio x) as (Hr & Hs & _).
    split; [exact Hr|]. split; [|apply setRandomRatio_ok].
    rewrite Hs.
    destruct (Z.gtb_spec (sequentialRatio x + clamp ratio) 100); lia.
  - intros x Hx. pose proof (loop_reachable_ratios x Hx) as Hall.
    split; [assumption|]. unfold ratios_ok in Hall. lia.
Qed.
End LoopRatios.

Lemma loop_ratios_invariant_witness :
  ratios_ok
    (LoopPatternTest.setRandomRatio 250
       (LoopPatternTest.setSequentialRatio 80
          (LoopPatternTest.new (H:=linked) seed0))).
Proof.
  destruct (loop_ratios_invariant (H:=linked)) as (_ & _ & _ & Hreach).
  apply Hreach.
  apply LoopPatternTest.r_setRandomRatio; [|reflexivity].
  apply LoopPatternTest.r_setSequentialRatio; [|reflexivity].
  apply LoopPatternTest.r_new.
Defined.

(** ** [LoopPatternTest]: the keys of a run *)

Lemma concat_exact (f : Z -> event) :
  forall ess i,
    (forall j, (j < length ess)%nat -> nth j ess [] = [f (i + Z.of_nat j)]) ->
    concat ess = map (fun j => f (i + Z.of_nat j)) (seq 0 (length ess)).
Proof.
  induction ess as [|es ess IH]; intros i Hall; [reflexivity|].
  pose proof (Hall O) as H0. cbn [nth length] in H0.
  rewrite Z.add_0_r in H0. cbn [length concat seq map].
  rewrite H0 by lia. rewrite Z.add_0_r. cbn [app]. f_equal.
  rewrite <- seq_shift, map_map. rewrite (IH (i + 1)).
  - apply map_ext. intros j. f_equal. lia.
  - intros j Hj. specialize (Hall (S j)). cbn [nth length] in Hall.
    rewrite Hall by lia. f_equal. f_equal. lia.
Qed.

Section LoopKeys.
Context `{H : Harness}.
Import LoopPatternTest.

(** One iteration, with a loop that is not empty and whose doubled size
    fits [int]. *)
Lemma loop_pick_key_range (x : t) op pos :
  1 <= loopSize x <= 2 ^ 30 -> ratios_ok x ->
  0 <= op -> pos = scans (sequentialRatio x) (Z.to_nat op) mod loopSize x ->
  exists key b,
    pick_key op pos x
    = Ok (key, b,
          scans (sequentialRatio x) (Z.to_nat (op + 1)) mod loopSize x) /\
    loop_key x op key.
Proof.
  intros HL (Hs & Hr & Hsum) Hop Hpos.
  assert (Hscan : scans (sequentialRatio x) (Z.to_nat (op + 1))
                  = scans (sequentialRatio x) (Z.to_nat op)
                    + (if op mod 100 <? sequentialRatio x then 1 else 0)).
  { replace (Z.to_nat (op + 1)) with (S (Z.to_nat op)) by lia.
    cbn [scans]. now rewrite Z2Nat.id by lia. }
  assert (Hrange : 0 <= pos < loopSize x).
  { subst pos. apply Z.mod_pos_bound. lia. }
  unfold pick_key, loop_key. rewrite rem_100_nonneg by assumption.
  rewrite Hscan.
  destruct (op mod 100 <? sequentialRatio x) eqn:E.
  - unfold sadd. rewrite checked_ok by (unfold INT_MIN, INT_MAX; lia).
    cbn [bind]. rewrite srem_ok;
      [|lia|apply is_int_spec; unfold INT_MIN, INT_MAX; lia|lia].
    cbn [bind]. exists pos, (base x). split; [|assumption].
    rewrite Z.rem_mod_nonneg by lia.
    replace ((pos + 1) mod loopSize x)
      with ((scans (sequentialRatio x) (Z.to_nat op) + 1) mod loopSize x);
      [reflexivity|].
    subst pos. now rewrite Zplus_mod_idemp_l.
  - unfold sadd. rewrite checked_ok by (unfold INT_MIN, INT_MAX; lia).
    cbn [bind]. rewrite Z.add_0_r, <- Hpos.
    destruct (draw (base x)) as [g b].
    destruct (op mod 100 <? sequentialRatio x + randomRatio x).
    + destruct (urem_ok word_bits g (loopSize x) word_bits_ge) as [-> Hk];
        [lia|].
      cbn [bind]. exists (to_int (g mod loopSize x)), b.
      split; [reflexivity|]. rewrite to_int_small; lia.
    + destruct (offset_urem_ok word_bits (loopSize x) g (loopSize x)
                  word_bits_ge) as [-> Hk]; try lia.
      cbn [bind]. eexists _, b. split; [reflexivity|]. lia.
Qed.
End LoopKeys.

Section LoopRun.
Context {H : Harness}.
Import LoopPatternTest.

Local Abbreviation T := (@t (Logging H)).

Lemma trace_same_but_gen type (b0 b : @CacheTest (Logging H)) :
  same_but_gen b0 b -> trace type b = trace type b0.
Proof. intros (_ & _ & _ & Hg). unfold trace. now rewrite Hg. Qed.

Lemma loop_key_same (x y : T) op k :
  same_loop x y -> loop_key y op k -> loop_key x op k.
Proof. intros (HL & Hs & Hr). unfold loop_key. now rewrite HL, Hs, Hr. Qed.

Lemma loop_fill_trace type (x : T) n : forall (y y' : T),
  for_loop n 0 (fill_step type) y = Ok y' ->
  same_loop y y' /\
  trace type (base y') = trace type (base y) ++ loop_fill_events n.
Proof.
  intros y y' Hrun.
  destruct (for_loop_trace (fun z : T => trace type (base z))
              (fun _ (z : T) => same_loop y z)
              (fun j evs => evs = [EvPut j (loop_value j)])
              (fill_step type) n 0 y y') as (HP & ess & Hlen & Htr & Hq);
    auto.
  - repeat split.
  - intros j z z' _ Hz Hs. apply loop_fill_step in Hs. subst z'.
    split; [exact Hz|]. eexists. split; [|reflexivity].
    cbn [base with_base]. apply trace_cache_put.
  - split; [exact HP|]. rewrite Htr. f_equal.
    rewrite (concat_exact (fun j => EvPut j (loop_value j)) ess 0).
    + rewrite Hlen. reflexivity.
    + intros j Hj. apply Hq. lia.
Qed.

Lemma loop_access_trace type (x : T) n : forall (y : T) (st' : T * Z),
  1 <= loopSize x <= 2 ^ 30 -> ratios_ok x -> same_loop x y ->
  for_loop n 0 (access_step type) (y, 0) = Ok st' ->
  exists gets,
    trace type (base (fst st')) = trace type (base y) ++ gets /\
    length gets = n /\
    forall j, (j < n)%nat ->
      exists e, nth_error gets j = Some e /\
                exists k r, e = EvGet k r /\ loop_key x (Z.of_nat j) k.
Proof.
  intros y st' HL Hrat Hy Hrun.
  destruct (for_loop_trace (fun st : T * Z => trace type (base (fst st)))
              (fun j (st : T * Z) =>
                 same_loop x (fst st) /\
                 snd st = scans (sequentialRatio x) (Z.to_nat j)
                          mod loopSize x)
              (fun j evs => exists e, evs = [e] /\
                              exists k r, e = EvGet k r /\ loop_key x j k)
              (access_step type) n 0 (y, 0) st')
    as (HP & ess & Hlen & Htr & Hq);
    [split; [exact Hy|cbn [snd Z.to_nat scans]; now rewrite Zmod_0_l]
    | |exact Hrun|].
  - intros j [z pos] [z' pos'] Hj (Hz & Hpos) Hs. cbn [fst snd] in *.
    apply loop_access_step in Hs. destruct Hs as (key & b & Hp & ->).
    pose proof Hz as (EL & Es & Er).
    destruct (loop_pick_key_range z j pos) as (key0 & b0 & Hp0 & Hk0).
    { now rewrite EL. }
    { unfold ratios_ok. now rewrite Es, Er. }
    { lia. }
    { now rewrite Es, EL. }
    rewrite Hp0 in Hp. injection Hp as -> -> <-.
    apply loop_pick_key in Hp0.
    destruct (trace_lookup type key b) as (r & Hr & _).
    cbn [base with_base fst snd]. split; [split|].
    + exact Hz.
    + now rewrite Es, EL.
    + exists [EvGet key r]. split.
      * now rewrite Hr, (trace_same_but_gen type _ _ Hp0).
      * eexists. split; [reflexivity|]. exists key, r.
        split; [reflexivity|]. now apply (loop_key_same x z).
  - destruct (concat_singletons
                (fun j e => exists k r, e = EvGet k r /\ loop_key x j k)
                ess 0) as (Hl & Hn).
    { intros j Hj. rewrite Hlen in Hj. apply (Hq j Hj). }
    exists (concat ess). rewrite Hl, Hlen. repeat split; auto.
    intros j Hj. rewrite <- Hlen in Hj. apply (Hn j Hj).
Qed.

Lemma loop_run_trace type (x x' : T) :
  1 <= loopSize x <= 2 ^ 30 -> ratios_ok x ->
  runTestForCacheType type x = Ok x' ->
  exists gets,
    trace type (base x')
    = trace type (base x) ++ loop_fill_events (Z.to_nat (loopSize x)) ++ gets /\
    length gets = Z.to_nat (TestConfig.operations (config (base x))) /\
    forall j, (j < Z.to_nat (TestConfig.operations (config (base x))))%nat ->
      exists e, nth_error gets j = Some e /\
                exists k r, e = EvGet k r /\ loop_key x (Z.of_nat j) k.
Proof.
  intros HL Hrat. unfold runTestForCacheType, for_range. intros Hrun.
  inv_bind Hrun. rename a into y. inv_bind Hrun. injection Hrun as <-.
  cbn [base with_base loopSize] in *. rewrite Z.sub_0_r in *.
  pose proof (loop_counts_nothing base type _ (loop_fill_counts type) _ _ _ _ Ha)
    as (Hcfg & _).
  apply (loop_fill_trace type x) in Ha. destruct Ha as (Hy & Htr1).
  cbn [base with_base] in *.
  destruct (resetStats_fields type (base x)) as (Hc0 & _).
  rewrite Hcfg, Hc0 in Ha0.
  apply (loop_access_trace type x) in Ha0; auto.
  destruct Ha0 as (gets & Htr2 & Hlen & Hg).
  exists gets. rewrite Htr2, Htr1, trace_resetStats, app_assoc. auto.
Qed.
End LoopRun.

Section LoopClaim.
Context {H : Harness}.
Import LoopPatternTest.

Local Abbreviation T := (@t (Logging H)).

Lemma loop_reachable_faithful (x : T) :
  reachable x ->
  forall type,
    exists cap, faithful H (@constructor H type cap) (getCache type (base x)).
Proof.
  assert (Hfresh : forall (b : @CacheTest (Logging H)) type,
            exists cap, faithful H (@constructor H type cap)
                          (getCache type (initCaches b))).
  { intros b type. exists (TestConfig.capacity (config b)).
    destruct type; apply faithful_new. }
  assert (Hstep : forall ty (y y' : T),
            (forall type, exists cap,
                faithful H (@constructor H type cap)
                  (getCache type (base y))) ->
            runTestForCacheType ty y = Ok y' ->
            forall type, exists cap,
              faithful H (@constructor H type cap)
                (getCache type (base y'))).
  { intros ty y y' Hy Hr type.
    destruct (loop_run_touches ty y y' Hr) as (Hpres & Hfr).
    destruct (CacheType_eqb ty type) eqn:E.
    - apply CacheType_eqb_eq in E. subst type.
      destruct (Hy ty) as (cap & Hf). exists cap.
      apply Hpres; [apply faithful_preserved|assumption].
    - assert (Hne : type <> ty).
      { intros ->. rewrite (proj2 (CacheType_eqb_eq ty ty) eq_refl) in E.
        discriminate. }
      rewrite (Hfr type Hne). apply Hy. }
  induction 1 as [g|c x Hx IH Hc|n x Hx IH Hn|s x Hx IH|i x Hx IH Hi
                 |c x Hx IH Hc|c x Hx IH Hc|r x Hx IH Hr|x x' Hx IH Hrun
                 |ty x x' Hx IH Hrun];
    try exact IH.
  - intros type. apply Hfresh.
  - intros type. apply Hfresh.
  - apply loop_runTest_runs in Hrun.
    destruct Hrun as (x1 & x2 & Ha & Ha0 & Hrun & _).
    eapply Hstep; [|exact Hrun]. eapply Hstep; [|exact Ha0].
    eapply Hstep; [|exact Ha]. exact IH.
  - exact (Hstep ty x x' IH Hrun).
Qed.

Lemma loop_fill_events_keys n k v :
  In (EvPut k v) (loop_fill_events n) -> 0 <= k < Z.of_nat n.
Proof.
  unfold loop_fill_events. intros Hin. apply in_map_iff in Hin.
  destruct Hin as (j & Hj & Hin). apply in_seq in Hin.
  injection Hj as <- _. lia.
Qed.

(** C5 (as amended).  In [LoopPatternTest::runTestForCacheType], when
    [1 <= loopSize <= 2^30], the fill phase puts exactly the keys
    [0 .. loopSize-1]; in the access phase every operation with
    [op % 100 < sequentialRatio] reads the scan position, which starts at 0
    and advances by one modulo [loopSize] at each such operation, every
    operation with [sequentialRatio <= op % 100 < sequentialRatio +
    randomRatio] reads a key in [[0, loopSize)], and every remaining
    operation reads a key in [[loopSize, 2*loopSize)].  The run puts no key
    of that range; on a cache without phantoms that was given none before
    the run, those gets miss. *)
Theorem loop_run_pattern (type : CacheType) (x x' : T) :
  reachable x ->
  1 <= loopSize x <= 2 ^ 30 ->
  runTestForCacheType type x = Ok x' ->
  exists gets,
    trace type (base x')
    = trace type (base x)
      ++ map (fun j => EvPut (Z.of_nat j) ("loop" ++ to_string (Z.of_nat j)))
           (seq 0 (Z.to_nat (loopSize x)))
      ++ gets /\
    length gets = Z.to_nat (TestConfig.operations (config (base x))) /\
    (forall op, 0 <= op < TestConfig.operations (config (base x)) ->
       exists k r,
         nth_error gets (Z.to_nat op) = Some (EvGet k r) /\
         loop_key x op k) /\
    ((forall cap, no_phantoms (@constructor H type cap)) ->
     (forall k v, In (EvPut k v) (trace type (base x)) -> k < loopSize x) ->
     forall k r, In (EvGet k r) gets -> loopSize x <= k -> r = None).
Proof.
  intros Hreach HL Hrun.
  pose proof (loop_reachable_ratios x Hreach) as Hrat.
  destruct (loop_reachable_faithful x Hreach type) as (cap & Hf).
  destruct (loop_run_touches type x x' Hrun) as (Hpres & _).
  apply loop_run_trace in Hrun; auto.
  destruct Hrun as (gets & Htr & Hlen & Hg).
  exists gets. split; [exact Htr|]. split; [exact Hlen|]. split.
  - intros op Hop.
    destruct (Hg (Z.to_nat op)) as (e & He & k & r & -> & Hk); [lia|].
    exists k, r. rewrite Z2Nat.id in Hk by lia. auto.
  - intros Hnp Hold k r Hin Hk. destruct r as [v|]; [|reflexivity].
    exfalso.
    assert (Hf' : faithful H (@constructor H type cap)
                    (getCache type (base x'))).
    { apply Hpres; [apply faithful_preserved|assumption]. }
    assert (Hput : In (EvPut k v) (trace type (base x'))).
    { apply (faithful_hit _ _ (Hnp cap) Hf').
      fold (trace type (base x')). rewrite Htr.
      apply in_app_iff. right. apply in_app_iff. now right. }
    rewrite Htr in Hput. apply in_app_iff in Hput.
    destruct Hput as [Hput|Hput]; [apply Hold in Hput; lia|].
    apply in_app_iff in Hput. destruct Hput as [Hput|Hput].
    + apply loop_fill_events_keys in Hput. lia.
    + apply In_nth_error in Hput. destruct Hput as (j & Hj).
      assert (Hlt : (j < length gets)%nat)
        by (apply nth_error_Some; congruence).
      rewrite Hlen in Hlt.
      destruct (Hg j Hlt) as (e & He & k' & r' & -> & _). congruence.
Qed.
End LoopClaim.

Lemma loop_small_reachable size n :
  is_int size = true -> is_int n = true ->
  LoopPatternTest.reachable (loop_small size n).
Proof.
  intros Hs Hn. unfold loop_small, main_loopTest.
  apply LoopPatternTest.r_setLoopSize; [|assumption].
  apply LoopPatternTest.r_setOperations; [|assumption].
  apply LoopPatternTest.r_setRandomRatio; [|reflexivity].
  apply LoopPatternTest.r_setSequentialRatio; [|reflexivity].
  apply LoopPatternTest.r_setLoopSize; [|reflexivity].
  apply LoopPatternTest.r_setOperations; [|reflexivity].
  apply LoopPatternTest.r_setCapacity; [|reflexivity].
  apply LoopPatternTest.r_new.
Qed.

Lemma loop_run_pattern_witness :
  exists gets,
    trace LRU (LoopPatternTest.base (loop_small_end 60 300))
    = trace LRU (LoopPatternTest.base (loop_small 60 300))
      ++ map (fun j => EvPut (Z.of_nat j) ("loop" ++ to_string (Z.of_nat j)))
           (seq 0 60)
      ++ gets /\
    forall k r, In (EvGet k r) gets -> 60 <= k -> r = None.
Proof.
  destruct (loop_run_pattern (H:=linked) LRU (loop_small 60 300)
              (loop_small_end 60 300))
    as (gets & Htr & _ & _ & Hmiss).
  - apply loop_small_reachable; reflexivity.
  - cbn. lia.
  - vm_compute. reflexivity.
  - exists gets. split; [exact Htr|].
    apply Hmiss.
    + intros cap. apply lru_no_phantoms.
    + intros k v [].
Defined.

(** C5 as stated fails in two ways.  [setLoopSize] validates nothing:
    with a loop size of -3 the sequential operation 0 reads key 0, which
    is not in [[0, loopSize)], and with a loop size of 0 that operation
    divides by zero.  And a get of a key in [[loopSize, 2*loopSize)] can
    hit, since the caches keep what earlier runs put: after [runTest]
    with a loop of 20 keys, then [setSequentialRatio(0)],
    [setRandomRatio(0)] and [setLoopSize(10)], the run puts the keys
    0 to 9 and its operation, an out-of-range one, reads key 15 and gets
    ["loop15"], put by the earlier run. *)
Lemma loop_run_pattern_counterexample :
  (0 mod 100 <? LoopPatternTest.sequentialRatio (loop_small (-3) 1)) = true /\
  (exists x',
      LoopPatternTest.runTestForCacheType LRU (loop_small (-3) 1) = Ok x' /\
      trace LRU (LoopPatternTest.base x') = [EvGet 0 None]) /\
  ~ (0 <= 0 < LoopPatternTest.loopSize (loop_small (-3) 1)) /\
  LoopPatternTest.runTestForCacheType LRU (loop_small 0 1) = UB DivByZero /\
  LoopPatternTest.runTest (loop_small 20 1) = Ok loop_first_end /\
  LoopPatternTest.loopSize loop_second = 10 /\
  (exists x',
      LoopPatternTest.runTestForCacheType LRU loop_second = Ok x' /\
      trace LRU (LoopPatternTest.base x')
      = trace LRU (LoopPatternTest.base loop_second)
        ++ map (fun j => EvPut (Z.of_nat j) ("loop" ++ to_string (Z.of_nat j)))
             (seq 0 10)
        ++ [EvGet 15 (Some "loop15"%string)]).
Proof.
  split; [reflexivity|]. split; [|split; [|split; [|split; [|split]]]].
  - eexists. split; vm_compute; reflexivity.
  - cbn. lia.
  - vm_compute. reflexivity.
  - vm_compute. reflexivity.
  - reflexivity.
  - eexists. split; vm_compute; reflexivity.
Qed.

(** ** [WorkloadShiftTest]: the key of an operation *)

Lemma sdiv_ok a d :
  0 <= a -> is_int a = true -> d <> 0 -> sdiv a d = Ok (Z.quot a d).
Proof.
  intros Ha Hint Hd. unfold sdiv.
  destruct (Z.eqb_spec d 0); [contradiction|].
  apply is_int_spec in Hint. unfold INT_MIN, INT_MAX in Hint.
  assert (Hq : Z.abs (Z.quot a d) <= a).
  { rewrite <- Z.quot_abs by assumption. rewrite (Z.abs_eq a) by lia.
    apply Z.quot_le_upper_bound; [lia|].
    assert (1 <= Z.abs d) by lia. nia. }
  apply checked_ok. unfold INT_MIN, INT_MAX. lia.
Qed.

Section WorkKeys.
Context `{H : Harness}.
Import WorkloadShiftTest.

Lemma work_pick_key_total (x : t) L op :
  0 <= op <= INT_MAX -> 1 <= L ->
  100 < initialDataSize x <= INT_MAX ->
  exists key b,
    pick_key L op (Z.quot op L) x = Ok (key, b) /\ work_pattern x L op key.
Proof.
  intros Hop HL Hids. unfold INT_MAX in *.
  pose proof (Z.quot_div_nonneg op L) as Hq. rewrite Hq by lia.
  assert (Hph : 0 <= op / L) by (apply Z.div_pos; lia).
  assert (Hmul : 0 <= op / L * L <= op).
  { pose proof (Z.mul_div_le op L). nia. }
  unfold pick_key, work_pattern. cbv zeta.
  rewrite (Z.rem_mod_nonneg (op / L) 5) by lia.
  destruct (op / L mod 5 =? 0).
  { destruct (draw (base x)) as [g b].
    destruct (urem_ok word_bits g 5 word_bits_ge) as [-> Hk]; [lia|].
    cbn [bind]. eexists _, b. split; [reflexivity|].
    rewrite to_int_small; lia. }
  destruct (op / L mod 5 =? 1).
  { destruct (draw (base x)) as [g b].
    destruct (urem_ok word_bits g (initialDataSize x) word_bits_ge)
      as [-> Hk]; [lia|].
    cbn [bind]. eexists _, b. split; [reflexivity|].
    rewrite to_int_small; lia. }
  destruct (op / L mod 5 =? 2).
  { unfold smul, ssub.
    rewrite checked_ok by (unfold INT_MIN, INT_MAX; lia). cbn [bind].
    rewrite checked_ok by (unfold INT_MIN, INT_MAX; lia). cbn [bind].
    eexists _, (base x). split; [reflexivity|].
    apply Z.rem_mod_nonneg; lia. }
  destruct (op / L mod 5 =? 3).
  { rewrite (Z.quot_div_nonneg op 1000) by lia.
    assert (0 <= op / 1000) by (apply Z.div_pos; lia).
    rewrite (Z.rem_mod_nonneg (op / 1000) 10) by lia.
    pose proof (Z.mod_pos_bound (op / 1000) 10 ltac:(lia)) as Hloc.
    destruct (draw (base x)) as [g b].
    destruct (offset_urem_ok word_bits (op / 1000 mod 10 * 20) g 20
                word_bits_ge) as [-> Hk]; try lia.
    cbn [bind]. eexists _, b. split; [reflexivity|]. lia. }
  destruct (draw (base x)) as [g b] eqn:Ed. cbn [fst].
  destruct (urem_ok word_bits g 100 word_bits_ge) as [-> Hr]; [lia|].
  cbn [bind]. rewrite to_int_small by lia.
  destruct (g mod 100 <? 30).
  { destruct (draw b) as [g2 b2].
    destruct (urem_ok word_bits g2 5 word_bits_ge) as [-> Hk]; [lia|].
    cbn [bind]. eexists _, b2. split; [reflexivity|].
    rewrite to_int_small; lia. }
  destruct (g mod 100 <? 60).
  { destruct (draw b) as [g2 b2].
    destruct (offset_urem_ok word_bits 5 g2 95 word_bits_ge) as [-> Hk];
      try lia.
    cbn [bind]. eexists _, b2. split; [reflexivity|]. lia. }
  unfold ssub. rewrite checked_ok by (unfold INT_MIN, INT_MAX; lia).
  cbn [bind]. destruct (draw b) as [g2 b2].
  destruct (offset_urem_ok word_bits 100 g2 (initialDataSize x - 100)
              word_bits_ge) as [-> Hk]; try lia.
  cbn [bind]. eexists _, b2. split; [reflexivity|]. lia.
Qed.
End WorkKeys.

Section WorkSteps.
Context `{H : Harness}.
Import WorkloadShiftTest.

Lemma same_but_gen_config (b0 b : CacheTest) :
  same_but_gen b0 b -> config b = config b0.
Proof. now intros (Hc & _). Qed.

Lemma work_fill_total type key (x : t) :
  0 <= key < INT_MAX -> progress_ok (config (base x)) ->
  fill_step type key x
  = Ok (with_base (cache_put type key (init_value key) (base x)) x).
Proof.
  intros Hk Hbar. unfold fill_step.
  destruct (cache_put_fields type key (init_value key) (base x)) as (Hc & _).
  fold (init_value key).
  destruct ((Z.rem key 100 =? 0) || (key =? initialDataSize x - 1));
    [|reflexivity].
  rewrite showProgress_ok; [reflexivity| |lia|].
  - now rewrite Hc.
  - apply is_int_spec. unfold INT_MIN, INT_MAX in *. lia.
Qed.

Lemma work_access_total type (x : t) L op :
  0 <= op < INT_MAX -> 1 <= L ->
  100 < initialDataSize x <= INT_MAX ->
  progress_ok (config (base x)) ->
  exists x' key b b',
    access_step type L op x = Ok x' /\
    pick_key L op (Z.quot op L) x = Ok (key, b) /\
    work_pattern x L op key /\
    same_but_gen (base x) b /\
    same_but_gen (lookup type key b) b' /\
    (x' = with_base b' x \/
     x' = with_base (cache_put type key (new_value key) b') x).
Proof.
  intros Hop HL Hids Hbar.
  assert (Hint : is_int op = true).
  { apply is_int_spec. unfold INT_MIN, INT_MAX in *. lia. }
  destruct (work_pick_key_total x L op) as (key & b & Hp & Hpat);
    try lia.
  pose proof (work_pick_key _ _ _ _ _ _ Hp) as Hb.
  unfold access_step.
  rewrite sdiv_ok by (auto; lia). cbn [bind].
  rewrite srem_ok by (auto; lia). cbn [bind].
  rewrite Hp. cbn [bind].
  destruct (draw (lookup type key b)) as [g b'] eqn:Ed.
  assert (Hb' : same_but_gen (lookup type key b) b').
  { replace b' with (snd (draw (lookup type key b))) by (now rewrite Ed).
    apply same_but_gen_draw, same_but_gen_refl. }
  destruct (urem_ok word_bits g 100 word_bits_ge) as [-> Hr]; [lia|].
  cbn [bind]. fold (new_value key).
  assert (Hcfg : config b' = config (base x)).
  { rewrite (same_but_gen_config _ _ Hb').
    destruct (lookup_fields type key b) as (-> & _).
    apply (same_but_gen_config _ _ Hb). }
  destruct (g mod 100 <? to_unsigned word_bits (putProbability x)).
  - destruct (cache_put_fields type key (new_value key) b') as (Hc & _).
    rewrite showProgress_ok;
      [|now rewrite Hc, Hcfg|lia
       |apply is_int_spec; unfold INT_MIN, INT_MAX in *; lia].
    cbn [bind]. eexists _, key, b, b'. split; [reflexivity|]. auto 8.
  - rewrite showProgress_ok;
      [|now rewrite Hcfg|lia
       |apply is_int_spec; unfold INT_MIN, INT_MAX in *; lia].
    cbn [bind]. eexists _, key, b, b'. split; [reflexivity|]. auto 8.
Qed.
End WorkSteps.

(** ** [WorkloadShiftTest]: a whole run *)

Section WorkRun.
Context `{H : Harness}.
Import WorkloadShiftTest.

Lemma phase_length_ok (x : t) :
  1 <= phases x <= TestConfig.operations (config (base x)) ->
  TestConfig.operations (config (base x)) <= INT_MAX ->
  sdiv (TestConfig.operations (config (base x))) (phases x)
  = Ok (TestConfig.operations (config (base x)) / phases x) /\
  1 <= TestConfig.operations (config (base x)) / phases x.
Proof.
  intros Hph Hops. unfold INT_MAX in *.
  rewrite sdiv_ok;
    [|lia|apply is_int_spec; unfold INT_MIN, INT_MAX; lia|lia].
  rewrite Z.quot_div_nonneg by lia. split; [reflexivity|].
  apply Z.div_le_lower_bound; lia.
Qed.

(** With at least one operation per phase, more than 100 initial keys and
    a progress bar that cannot fault, the run completes. *)
Lemma work_run_total type (x : t) :
  1 <= phases x <= TestConfig.operations (config (base x)) ->
  TestConfig.operations (config (base x)) <= INT_MAX ->
  100 < initialDataSize x <= INT_MAX ->
  progress_ok (config (base x)) ->
  exists x', runTestForCacheType type x = Ok x'.
Proof.
  intros Hph Hops Hids Hbar.
  destruct (phase_length_ok x Hph Hops) as (HL & HL1).
  destruct (resetStats_fields type (base x)) as (Hc0 & _).
  unfold runTestForCacheType, for_range.
  cbn [base with_base initialDataSize phases]. rewrite !Z.sub_0_r.
  pose (P := fun (_ : Z) (z : t) =>
               same_work x z /\ config (base z) = config (base x)).
  destruct (for_loop_ok P (fill_step type)
              (Z.to_nat (initialDataSize x)) 0
              (with_base (resetStats type (base x)) x))
    as (y & Hfill & (Hy & Hcy)).
  { split; [repeat split|exact Hc0]. }
  { intros j z Hj (Hz & Hcz). eexists. split.
    - apply work_fill_total; [unfold INT_MAX in *; lia|now rewrite Hcz].
    - split; [exact Hz|]. cbn [base with_base].
      destruct (cache_put_fields type j (init_value j) (base z)) as (-> & _).
      exact Hcz. }
  rewrite Hfill. cbn [bind]. pose proof Hy as (_ & Hpy & _).
  rewrite Hcy, Hpy, HL. cbn [bind].
  destruct (for_loop_ok P
              (access_step type
                 (TestConfig.operations (config (base x)) / phases x))
              (Z.to_nat (TestConfig.operations (config (base x)))) 0 y)
    as (x' & Hacc & _).
  { split; assumption. }
  { intros j z Hj (Hz & Hcz). pose proof Hz as (Ei & Ep & Eq).
    destruct (work_access_total type z
                (TestConfig.operations (config (base x)) / phases x) j)
      as (z' & key & b & b' & Hs & _ & _ & Hb & Hb' & Hz');
      try (unfold INT_MAX in *; lia).
    { now rewrite Hcz. }
    exists z'. split; [exact Hs|].
    assert (Hcb' : config b' = config (base x)).
    { rewrite (same_but_gen_config _ _ Hb').
      destruct (lookup_fields type key b) as (-> & _).
      now rewrite (same_but_gen_config _ _ Hb). }
    destruct Hz' as [-> | ->]; (split; [exact Hz|]); cbn [base with_base];
      [exact Hcb'|].
    destruct (cache_put_fields type key (new_value key) b') as (-> & _).
    exact Hcb'. }
  exists x'. rewrite Z.sub_0_r. exact Hacc.
Qed.
End WorkRun.

Section WorkTotality.
Context `{H : Harness}.
Import WorkloadShiftTest.

Lemma work_fill_fields type n : forall i (y y' : t),
  for_loop n i (fill_step type) y = Ok y' ->
  same_work y y' /\ config (base y') = config (base y).
Proof.
  intros i y y' Hrun.
  apply (for_loop_inv
           (fun _ z => same_work y z /\ config (base z) = config (base y))
           (fill_step type) n i y y'); auto.
  - split; [repeat split|reflexivity].
  - intros j z z' _ (Hz & Hc) Hs. apply work_fill_step in Hs. subst z'.
    split; [exact Hz|]. cbn [base with_base].
    destruct (cache_put_fields type j (init_value j) (base z)) as (-> & _).
    exact Hc.
Qed.

Lemma work_fill_completes type (x : t) :
  progress_ok (config (base x)) -> initialDataSize x <= INT_MAX ->
  exists y, for_range 0 (initialDataSize x) (fill_step type) x = Ok y.
Proof.
  intros Hbar Hids. unfold for_range.
  destruct (for_loop_ok (fun _ z => config (base z) = config (base x))
              (fill_step type) (Z.to_nat (initialDataSize x - 0)) 0 x)
    as (y & Hy & _); [reflexivity| |eauto].
  intros j z Hj Hc. eexists. split.
  - apply work_fill_total; [unfold INT_MAX in *; lia|now rewrite Hc].
  - cbn [base with_base].
    destruct (cache_put_fields type j (init_value j) (base z)) as (-> & _).
    exact Hc.
Qed.

(** What the run does once the fill loop is over, when the phase length
    cannot be computed or is zero. *)
Lemma work_run_faults type (x : t) :
  phases x = 0 \/
  1 <= TestConfig.operations (config (base x)) < Z.abs (phases x) ->
  completes (runTestForCacheType type x) = false /\
  (progress_ok (config (base x)) -> initialDataSize x <= INT_MAX ->
   runTestForCacheType type x = UB DivByZero).
Proof.
  intros Hbad.
  destruct (resetStats_fields type (base x)) as (Hc0 & _).
  assert (Hafter : forall y,
            for_range 0 (initialDataSize x) (fill_step type)
              (with_base (resetStats type (base x)) x) = Ok y ->
            runTestForCacheType type x = UB DivByZero).
  { intros y Hfill. unfold runTestForCacheType.
    cbn [base with_base initialDataSize]. rewrite Hfill. cbn [bind].
    unfold for_range in Hfill. apply work_fill_fields in Hfill.
    destruct Hfill as ((_ & Hp & _) & Hc).
    cbn [base with_base phases] in Hp, Hc. rewrite Hc, Hc0, Hp.
    destruct Hbad as [Hz|Hsmall].
    - rewrite Hz. unfold sdiv. reflexivity.
    - assert (Hq : Z.quot (TestConfig.operations (config (base x)))
                     (phases x) = 0).
      { apply Z.quot_small_iff; lia. }
      unfold sdiv. destruct (Z.eqb_spec (phases x) 0) as [E|E]; [lia|].
      rewrite Hq. cbn [checked is_int bind].
      unfold for_range.
      replace (Z.to_nat (TestConfig.operations (config (base x)) - 0))
        with (S (Z.to_nat (TestConfig.operations (config (base x)) - 1)))
        by lia.
      apply for_loop_fault. reflexivity. }
  split.
  - destruct (for_range 0 (initialDataSize x) (fill_step type)
                (with_base (resetStats type (base x)) x)) as [y|f] eqn:E.
    + now rewrite (Hafter y eq_refl).
    + unfold runTestForCacheType. cbn [base with_base initialDataSize].
      now rewrite E.
  - intros Hbar Hids.
    destruct (work_fill_completes type
                (with_base (resetStats type (base x)) x)) as (y & Hy).
    + cbn [base with_base]. now rewrite Hc0.
    + exact Hids.
    + exact (Hafter y Hy).
Qed.

(** C9 (as amended).  [setPhases] stores its argument without validation,
    and [runTestForCacheType] computes [config.operations / phases], then
    [op / phaseLength] and [op % phaseLength] at every operation:
    [phases == 0] divides by zero right after the fill loop, and
    [1 <= config.operations < |phases|] makes [phaseLength] zero, so that
    the first operation divides by zero.  Under the precondition
    [phases >= 1] and [config.operations >= phases] (with more than 100
    initial keys and a progress bar that is off or has an interval other
    than 0) the run completes; the precondition is sufficient, not
    necessary. *)
Theorem phases_precondition (type : CacheType) :
  (forall count x,
      phases (setPhases count x) = count /\
      initialDataSize (setPhases count x) = initialDataSize x /\
      putProbability (setPhases count x) = putProbability x /\
      base (setPhases count x) = base x) /\
  (forall x,
      phases x = 0 ->
      completes (runTestForCacheType type x) = false /\
      (progress_ok (config (base x)) -> initialDataSize x <= INT_MAX ->
       runTestForCacheType type x = UB DivByZero)) /\
  (forall x,
      1 <= TestConfig.operations (config (base x)) < Z.abs (phases x) ->
      completes (runTestForCacheType type x) = false /\
      (progress_ok (config (base x)) -> initialDataSize x <= INT_MAX ->
       runTestForCacheType type x = UB DivByZero)) /\
  (forall x,
      1 <= phases x <= TestConfig.operations (config (base x)) ->
      TestConfig.operations (config (base x)) <= INT_MAX ->
      100 < initialDataSize x <= INT_MAX ->
      progress_ok (config (base x)) ->
      completes (runTestForCacheType type x) = true).
Proof.
  split; [|split; [|split]].
  - intros count x. repeat split.
  - intros x Hz. apply work_run_faults. now left.
  - intros x Hsmall. apply work_run_faults. now right.
  - intros x Hph Hops Hids Hbar.
    destruct (work_run_total type x Hph Hops Hids Hbar) as (x' & ->).
    reflexivity.
Qed.
End WorkTotality.

Lemma phases_precondition_witness :
  completes
    (WorkloadShiftTest.runTestForCacheType LRU (work_small 40 5)) = true /\
  WorkloadShiftTest.runTestForCacheType LRU (work_small 40 0) = UB DivByZero /\
  WorkloadShiftTest.runTestForCacheType LRU (work_small 3 5) = UB DivByZero.
Proof.
  destruct (phases_precondition (H:=Logging linked) LRU)
    as (_ & Hzero & Hsmall & Htotal).
  split; [|split].
  - apply Htotal.
    + cbn. lia.
    + cbn. unfold INT_MAX. lia.
    + cbn. unfold INT_MAX. lia.
    + right. cbn. lia.
  - apply (Hzero (work_small 40 0)).
    + reflexivity.
    + right. cbn. lia.
    + cbn. unfold INT_MAX. lia.
  - apply (Hsmall (work_small 3 5)).
    + cbn. lia.
    + right. cbn. lia.
    + cbn. unfold INT_MAX. lia.
Defined.

(** C9 as stated fails: the run also completes with [phases == -1] and 5
    operations, and with 7 phases and no operation. *)
Lemma phases_precondition_counterexample :
  completes
    (WorkloadShiftTest.runTestForCacheType LRU (work_small 5 (-1))) = true /\
  completes
    (WorkloadShiftTest.runTestForCacheType LRU (work_small 0 7)) = true.
Proof. split; vm_compute; reflexivity. Qed.

(** ** [WorkloadShiftTest]: phases and key patterns of a run *)

Section WorkPhases.
Context {H : Harness}.
Import WorkloadShiftTest.

Local Abbreviation T := (@t (Logging H)).

Lemma work_fill_trace type n : forall (y y' : T),
  for_loop n 0 (fill_step type) y = Ok y' ->
  trace type (base y') = trace type (base y) ++ init_events n.
Proof.
  intros y y' Hrun.
  destruct (for_loop_trace (fun z : T => trace type (base z))
              (fun _ (z : T) => True)
              (fun j evs => evs = [EvPut j (init_value j)])
              (fill_step type) n 0 y y') as (_ & ess & Hlen & Htr & Hq);
    auto.
  - intros j z z' _ _ Hs. apply work_fill_step in Hs. subst z'.
    split; [exact I|]. eexists. split; [|reflexivity].
    cbn [base with_base]. apply trace_cache_put.
  - rewrite Htr. f_equal.
    rewrite (concat_exact (fun j => EvPut j (init_value j)) ess 0).
    + rewrite Hlen. reflexivity.
    + intros j Hj. apply Hq. lia.
Qed.

Lemma work_access_trace type (x : T) L n : forall (y y' : T),
  Z.of_nat n <= INT_MAX -> 1 <= L ->
  100 < initialDataSize x <= INT_MAX ->
  same_work x y ->
  for_loop n 0 (access_step type L) y = Ok y' ->
  exists accesses,
    length accesses = n /\
    trace type (base y') = trace type (base y) ++ concat accesses /\
    forall j, (j < n)%nat ->
      exists z,
        for_loop j 0 (access_step type L) y = Ok z /\
        same_work x z /\
        work_events z L (Z.of_nat j) (nth j accesses []).
Proof.
  intros y y' Hn HL Hids Hy Hrun.
  destruct (for_loop_trace (fun z : T => trace type (base z))
              (fun j (z : T) =>
                 same_work x z /\
                 for_loop (Z.to_nat j) 0 (access_step type L) y = Ok z)
              (fun j evs =>
                 exists z,
                   for_loop (Z.to_nat j) 0 (access_step type L) y = Ok z /\
                   same_work x z /\ work_events z L j evs)
              (access_step type L) n 0 y y')
    as (_ & ess & Hlen & Htr & Hq); [split; [exact Hy|reflexivity]| |exact Hrun|].
  - intros j z z' Hj (Hz & Hpre) Hs. pose proof Hz as (Ei & Ep & Eq).
    assert (Hnext : for_loop (Z.to_nat (j + 1)) 0 (access_step type L) y
                    = Ok z').
    { replace (Z.to_nat (j + 1)) with (S (Z.to_nat j)) by lia.
      apply (for_loop_snoc _ _ _ _ z z' Hpre).
      now replace (0 + Z.of_nat (Z.to_nat j)) with j by lia. }
    apply work_access_step in Hs.
    destruct Hs as (phase & key & b & b' & Hph & Hp & Hb' & Hz').
    assert (Hint : is_int j = true).
    { apply is_int_spec. unfold INT_MIN, INT_MAX in *. lia. }
    rewrite sdiv_ok in Hph by (auto; lia). injection Hph as <-.
    destruct (work_pick_key_total z L j) as (key0 & b0 & Hp0 & Hpat);
      try (unfold INT_MAX in *; lia).
    rewrite Hp in Hp0. injection Hp0 as <- <-.
    pose proof (work_pick_key _ _ _ _ _ _ Hp) as Hb.
    destruct (trace_lookup type key b) as (r & Hr & _).
    assert (Htb' : trace type b' = trace type (base z) ++ [EvGet key r]).
    { rewrite (trace_same_but_gen type _ _ Hb'), Hr.
      now rewrite (trace_same_but_gen type _ _ Hb). }
    destruct Hz' as [-> | ->]; cbn [base with_base].
    + split; [split; [exact Hz|exact Hnext]|].
      exists [EvGet key r]. split; [exact Htb'|].
      exists z. split; [exact Hpre|]. split; [exact Hz|].
      exists key, r, []. auto.
    + split; [split; [exact Hz|exact Hnext]|].
      exists [EvGet key r; EvPut key (new_value key)]. split.
      * rewrite trace_cache_put, Htb', <- app_assoc. reflexivity.
      * exists z. split; [exact Hpre|]. split; [exact Hz|].
        exists key, r, [EvPut key (new_value key)]. auto.
  - exists ess. split; [exact Hlen|]. split; [exact Htr|].
    intros j Hj. specialize (Hq j Hj). cbn beta in Hq.
    rewrite Z.add_0_l, Nat2Z.id in Hq. exact Hq.
Qed.

(** C6 (as amended).  In [WorkloadShiftTest::runTestForCacheType], with
    [1 <= phases <= config.operations] and [initialDataSize > 100], the
    first [phases * L] operations, [L = config.operations / phases], make
    [phases] consecutive blocks of length [L]: operation [op] belongs to
    the block [phase = op / L], and the key it reads is selected by
    [phase % 5]: 0 draws from [[0, 5)]; 1 from [[0, initialDataSize)];
    2 scans sequentially modulo 100 from the start of the block; 3 draws
    from the 20-key window of index [(op / 1000) % 10], which moves every
    1000 operations; 4 draws [r = gen() % 100], from the generator as it
    stands when the operation begins, and then a key from [[0, 5)] if
    [r < 30], from [[5, 100)] if [r < 60], from
    [[100, initialDataSize)] otherwise. *)
Theorem workload_phase_patterns (type : CacheType) (x x' : T) :
  1 <= phases x <= TestConfig.operations (config (base x)) ->
  TestConfig.operations (config (base x)) <= INT_MAX ->
  100 < initialDataSize x <= INT_MAX ->
  runTestForCacheType type x = Ok x' ->
  exists accesses,
    1 <= TestConfig.operations (config (base x)) / phases x /\
    length accesses = Z.to_nat (TestConfig.operations (config (base x))) /\
    trace type (base x')
    = trace type (base x)
      ++ init_events (Z.to_nat (initialDataSize x)) ++ concat accesses /\
    forall op,
      0 <= op
      < phases x * (TestConfig.operations (config (base x)) / phases x) ->
      (exists z,
          work_state_at type x
            (TestConfig.operations (config (base x)) / phases x) op z /\
          same_work x z /\
          work_events z (TestConfig.operations (config (base x)) / phases x)
            op (nth (Z.to_nat op) accesses [])) /\
      (TestConfig.operations (config (base x)) / phases x)
      * (op / (TestConfig.operations (config (base x)) / phases x)) <= op
      < (TestConfig.operations (config (base x)) / phases x)
        * (op / (TestConfig.operations (config (base x)) / phases x) + 1) /\
      0 <= op / (TestConfig.operations (config (base x)) / phases x)
      < phases x.
Proof.
  intros Hph Hops Hids Hrun.
  destruct (phase_length_ok x Hph Hops) as (HL & HL1).
  set (L := TestConfig.operations (config (base x)) / phases x) in *.
  assert (Hall : phases x * L <= TestConfig.operations (config (base x))).
  { unfold L. apply Z.mul_div_le. lia. }
  destruct (resetStats_fields type (base x)) as (Hc0 & _).
  unfold runTestForCacheType in Hrun.
  cbn [base with_base initialDataSize phases] in Hrun.
  inv_bind Hrun. rename a into y. pose proof Ha as Hfill.
  unfold for_range in Ha, Hrun. rewrite !Z.sub_0_r in Ha, Hrun.
  pose proof (work_fill_fields type _ _ _ _ Ha) as ((Ei & Ep & Eq) & Hcy).
  cbn [base with_base initialDataSize phases putProbability] in *.
  apply work_fill_trace in Ha. cbn [base with_base] in Ha.
  rewrite Hcy, Hc0, Ep, HL in Hrun. cbn [bind] in Hrun.
  apply (work_access_trace type x) in Hrun;
    [|unfold INT_MAX in *; lia|assumption|assumption|now repeat split].
  destruct Hrun as (accesses & Hlen & Htr & Hev).
  exists accesses. split; [exact HL1|]. split; [exact Hlen|]. split.
  - rewrite Htr, Ha, trace_resetStats, app_assoc. reflexivity.
  - intros op Hop. split; [|split].
    + destruct (Hev (Z.to_nat op)) as (z & Hz & Hsame & Hevs); [lia|].
      rewrite Z2Nat.id in Hevs by lia.
      exists z. split; [|split; assumption].
      exists y. split; [exact Hfill|exact Hz].
    + pose proof (Z.mul_div_le op L ltac:(lia)).
      pose proof (Z.mul_succ_div_gt op L ltac:(lia)). lia.
    + split; [apply Z.div_pos; lia|].
      apply Z.div_lt_upper_bound; [lia|]. lia.
Qed.
End WorkPhases.

Lemma workload_phase_patterns_witness :
  exists accesses,
    length accesses = 40%nat /\
    trace LRU (WorkloadShiftTest.base (work_small_end 40 5))
    = trace LRU (WorkloadShiftTest.base (work_small 40 5))
      ++ init_events 1000 ++ concat accesses /\
    exists z,
      work_state_at LRU (work_small 40 5) 8 39 z /\
      work_events z 8 39 (nth 39 accesses []).
Proof.
  destruct (workload_phase_patterns (H:=linked) LRU (work_small 40 5)
              (work_small_end 40 5))
    as (accesses & _ & Hlen & Htr & Hops).
  - cbn. lia.
  - cbn. unfold INT_MAX. lia.
  - cbn. unfold INT_MAX. lia.
  - vm_compute. reflexivity.
  - exists accesses. split; [exact Hlen|]. split; [exact Htr|].
    destruct (Hops 39) as ((z & Hat & _ & Hev) & _).
    + split; vm_compute; [discriminate|reflexivity].
    + exists z. split; [exact Hat|exact Hev].
Defined.

(** C6 as stated fails when [setInitialDataSize] was given a value that
    is not above 100, which it stores as it is.  After
    [setInitialDataSize(50)], with 5 operations in 5 phases, operation 4
    is the one of phase 4; its first word gives [r >= 60], and it reads
    the key -239337947, in none of [[0, 5)], [[5, 100)] and
    [[100, initialDataSize)].  After [setInitialDataSize(-1)] operation 1,
    of phase 1, reads the key 1013916571, outside
    [[0, initialDataSize)].  And [setPhases] stores its argument as it
    is: with [phases == 0] there is no block, the run divides by zero. *)
Lemma workload_keys_counterexample :
  WorkloadShiftTest.initialDataSize work_short = 50 /\
  sdiv (TestConfig.operations (config (WorkloadShiftTest.base work_short)))
       (WorkloadShiftTest.phases work_short) = Ok 1 /\
  (exists x',
      WorkloadShiftTest.runTestForCacheType LRU work_short = Ok x' /\
      skipn 50 (trace LRU (WorkloadShiftTest.base x'))
      = [EvGet 0 None; EvPut 0 "new0"%string; EvGet 21 None;
         EvGet 0 (Some "new0"%string); EvGet 2 None; EvPut 2 "new2"%string;
         EvGet (-239337947) None;
         EvPut (-239337947) "new-239337947"%string]) /\
  (exists x',
      WorkloadShiftTest.runTestForCacheType LRU
        (WorkloadShiftTest.setInitialDataSize (-1) (work_small 5 5)) = Ok x' /\
      trace LRU (WorkloadShiftTest.base x')
      = [EvGet 0 None; EvPut 0 "new0"%string; EvGet 1013916571 None;
         EvGet 0 (Some "new0"%string); EvGet 2 None; EvPut 2 "new2"%string;
         EvGet (-239337947) None;
         EvPut (-239337947) "new-239337947"%string]) /\
  WorkloadShiftTest.runTestForCacheType LRU (work_small 40 0) = UB DivByZero.
Proof.
  split; [reflexivity|]. split; [reflexivity|]. split; [|split].
  - eexists. split; vm_compute; reflexivity.
  - eexists. split; vm_compute; reflexivity.
  - vm_compute. reflexivity.
Qed.

(** ** The statistics of a run, with the calls that were counted *)

Section LoggedStatistics.
Context {H : Harness}.

Lemma lookup_logged type key (b0 b : @CacheTest (Logging H)) :
  same_but_gen b0 b -> counts_logged_get type b0 (lookup type key b).
Proof.
  intros Hb. pose proof Hb as (_ & Hh & Ho & _).
  destruct (trace_lookup type key b) as (r & Htr & Hhit).
  destruct (lookup_fields type key b) as (_ & Hops & _).
  exists key, r, []. rewrite Htr, Hops, Hhit, Hh, Ho.
  rewrite (trace_same_but_gen type _ _ Hb). repeat split.
  intros e [].
Qed.

Lemma logged_then_draws type (b0 b1 b2 : @CacheTest (Logging H)) :
  counts_logged_get type b0 b1 -> same_but_gen b1 b2 ->
  counts_logged_get type b0 b2.
Proof.
  intros (key & r & rest & Htr & Hrest & Ho & Hh) Hb.
  pose proof Hb as (_ & Hh2 & Ho2 & _).
  exists key, r, rest. rewrite (trace_same_but_gen type _ _ Hb), Hh2, Ho2.
  auto.
Qed.

Lemma logged_then_put type k v (b0 b1 : @CacheTest (Logging H)) :
  counts_logged_get type b0 b1 ->
  counts_logged_get type b0 (cache_put type k v b1).
Proof.
  intros (key & r & rest & Htr & Hrest & Ho & Hh).
  destruct (cache_put_fields type k v b1) as (_ & Hh2 & Ho2 & _).
  exists key, r, (rest ++ [EvPut k v]).
  rewrite trace_cache_put, Htr, Hh2, Ho2, <- app_assoc.
  repeat split; auto.
  intros e Hin. apply in_app_iff in Hin.
  destruct Hin as [Hin|[<-|[]]]; [auto|reflexivity].
Qed.

Lemma hot_access_logged type op (x x' : @HotDataAccessTest.t (Logging H)) :
  HotDataAccessTest.access_step type op x = Ok x' ->
  counts_logged_get type (HotDataAccessTest.base x)
    (HotDataAccessTest.base x').
Proof.
  intros Hs. apply hot_access_step in Hs. destruct Hs as (key & _ & ->).
  apply lookup_logged, same_but_gen_draw, same_but_gen_refl.
Qed.

Lemma loop_access_logged type op
  (st st' : @LoopPatternTest.t (Logging H) * Z) :
  LoopPatternTest.access_step type op st = Ok st' ->
  counts_logged_get type (LoopPatternTest.base (fst st))
    (LoopPatternTest.base (fst st')).
Proof.
  destruct st as [x pos], st' as [x' pos']. intros Hs.
  apply loop_access_step in Hs. destruct Hs as (key & b & Hp & ->).
  apply loop_pick_key in Hp. now apply lookup_logged.
Qed.

Lemma work_access_logged type L op
  (x x' : @WorkloadShiftTest.t (Logging H)) :
  WorkloadShiftTest.access_step type L op x = Ok x' ->
  counts_logged_get type (WorkloadShiftTest.base x)
    (WorkloadShiftTest.base x').
Proof.
  intros Hs. apply work_access_step in Hs.
  destruct Hs as (phase & key & b & b' & _ & Hp & Hb' & Hx').
  apply work_pick_key in Hp.
  pose proof (logged_then_draws type _ _ _ (lookup_logged type key _ _ Hp) Hb')
    as H2.
  destruct Hx' as [-> | ->]; [exact H2|].
  now apply logged_then_put.
Qed.

(** C3 (as amended).  In every test class ([HotDataAccessTest],
    [LoopPatternTest], [WorkloadShiftTest]) each access-phase iteration
    makes one [cache->get(key, result)], increments [operations[type]] by
    exactly one and increments [hits[type]] by one if and only if that
    [get] returned true; therefore, after [runTestForCacheType] completes,
    [operations[type] == max(0, config.operations)] (that is,
    [config.operations] whenever this is not negative) and
    [0 <= hits[type] <= operations[type]]. *)
Theorem run_statistics (type : CacheType) :
  (forall op (x x' : @HotDataAccessTest.t (Logging H)),
      HotDataAccessTest.access_step type op x = Ok x' ->
      counts_logged_get type (HotDataAccessTest.base x)
        (HotDataAccessTest.base x')) /\
  (forall op (st st' : @LoopPatternTest.t (Logging H) * Z),
      LoopPatternTest.access_step type op st = Ok st' ->
      counts_logged_get type (LoopPatternTest.base (fst st))
        (LoopPatternTest.base (fst st'))) /\
  (forall phaseLength op (x x' : @WorkloadShiftTest.t (Logging H)),
      WorkloadShiftTest.access_step type phaseLength op x = Ok x' ->
      counts_logged_get type (WorkloadShiftTest.base x)
        (WorkloadShiftTest.base x')) /\
  (forall x x' : @HotDataAccessTest.t H,
      HotDataAccessTest.runTestForCacheType type x = Ok x' ->
      operations (HotDataAccessTest.base x') type
      = Z.max 0 (TestConfig.operations (config (HotDataAccessTest.base x))) /\
      0 <= hits (HotDataAccessTest.base x') type
      <= operations (HotDataAccessTest.base x') type) /\
  (forall x x' : @LoopPatternTest.t H,
      LoopPatternTest.runTestForCacheType type x = Ok x' ->
      operations (LoopPatternTest.base x') type
      = Z.max 0 (TestConfig.operations (config (LoopPatternTest.base x))) /\
      0 <= hits (LoopPatternTest.base x') type
      <= operations (LoopPatternTest.base x') type) /\
  (forall x x' : @WorkloadShiftTest.t H,
      WorkloadShiftTest.runTestForCacheType type x = Ok x' ->
      operations (WorkloadShiftTest.base x') type
      = Z.max 0 (TestConfig.operations (config (WorkloadShiftTest.base x))) /\
      0 <= hits (WorkloadShiftTest.base x') type
      <= operations (WorkloadShiftTest.base x') type).
Proof.
  split; [exact (hot_access_logged type)|].
  split; [exact (loop_access_logged type)|].
  split; [exact (work_access_logged type)|].
  split; [exact (hot_run_counts type)|].
  split; [exact (loop_run_counts type)|exact (work_run_counts type)].
Qed.
End LoggedStatistics.

Lemma run_statistics_witness :
  operations (HotDataAccessTest.base (hot_small_end 200)) LRU = 200 /\
  0 <= hits (HotDataAccessTest.base (hot_small_end 200)) LRU <= 200.
Proof.
  destruct (run_statistics (H:=Logging linked) LRU)
    as (_ & _ & _ & Hhot & _ & _).
  destruct (Hhot (hot_small 200) (hot_small_end 200)) as (Ho & Hh).
  - vm_compute. reflexivity.
  - rewrite Ho in Hh. split; [exact Ho|exact Hh].
Defined.

(** C3 as stated fails for a negative operation count: after
    [setOperations(-1)] the run completes with [operations[LRU] == 0]. *)
Lemma run_statistics_counterexample :
  TestConfig.operations
    (config (HotDataAccessTest.base (hot_small (-1)))) = -1 /\
  exists x',
    HotDataAccessTest.runTestForCacheType LRU (hot_small (-1)) = Ok x' /\
    operations (HotDataAccessTest.base x') LRU = 0.
Proof.
  split; [reflexivity|].
  eexists. split; vm_compute; reflexivity.
Qed.

(* ================================================================== *)
(** * Further properties of the driver *)

(** ** [HotDataAccessTest]: when a run completes, when it divides by zero *)

Section HotTotality.
Context `{H : Harness}.
Import HotDataAccessTest.

Lemma int_of_bounds a : 0 <= a <= INT_MAX -> is_int a = true.
Proof. intros Ha. apply is_int_spec. unfold INT_MIN, INT_MAX in *. lia. Qed.

Lemma hot_fill_total type op (x : t) :
  0 <= op < INT_MAX -> 0 < hotKeys x -> 0 < coldKeys x ->
  hotKeys x + coldKeys x <= 2 ^ 31 ->
  progress_ok (config (base x)) ->
  exists x', fill_step type op x = Ok x'.
Proof.
  intros Hop Hh Hc Hs Hbar.
  destruct (hot_choice_range x op (fst (draw (base x)))) as (key & Hk & _);
    try lia.
  unfold fill_step. rewrite hot_pick_key, Hk. cbn [bind].
  rewrite showProgress_ok; [cbn [bind]; eauto| |lia|apply int_of_bounds; lia].
  destruct (cache_put_fields type key ("value" ++ to_string key)%string
              (snd (draw (base x)))) as (-> & _).
  destruct (draw_fields (base x)) as (-> & _). exact Hbar.
Qed.

Lemma hot_access_total type op (x : t) :
  0 <= op < INT_MAX -> 0 < hotKeys x -> 0 < coldKeys x ->
  hotKeys x + coldKeys x <= 2 ^ 31 ->
  progress_ok (config (base x)) ->
  exists x', access_step type op x = Ok x'.
Proof.
  intros Hop Hh Hc Hs Hbar.
  destruct (hot_choice_range x op (fst (draw (base x)))) as (key & Hk & _);
    try lia.
  unfold access_step. rewrite hot_pick_key, Hk. cbn [bind].
  rewrite showProgress_ok; [cbn [bind]; eauto| |lia|apply int_of_bounds; lia].
  destruct (lookup_fields type key (snd (draw (base x)))) as (-> & _).
  destruct (draw_fields (base x)) as (-> & _). exact Hbar.
Qed.

(** A loop of the run completes when each of its iterations does. *)
Lemma hot_loop_total (body : Z -> t -> res t) (x : t) :
  0 < hotKeys x -> 0 < coldKeys x -> hotKeys x + coldKeys x <= 2 ^ 31 ->
  progress_ok (config (base x)) ->
  (forall j y y', body j y = Ok y' ->
     hotKeys y' = hotKeys y /\ coldKeys y' = coldKeys y /\
     hotRatio y' = hotRatio y /\ config (base y') = config (base y)) ->
  (forall j y,
      0 <= j < INT_MAX -> 0 < hotKeys y -> 0 < coldKeys y ->
      hotKeys y + coldKeys y <= 2 ^ 31 -> progress_ok (config (base y)) ->
      exists y', body j y = Ok y') ->
  forall n, Z.of_nat n <= INT_MAX ->
  exists x', for_loop n 0 body x = Ok x'.
Proof.
  intros Hh Hc Hs Hbar Hfields Htotal n Hn.
  destruct (for_loop_ok
              (fun _ z => hotKeys z = hotKeys x /\ coldKeys z = coldKeys x /\
                          config (base z) = config (base x))
              body n 0 x) as (x' & Hrun & _); [auto| |eauto].
  intros j z Hj (Ez1 & Ez2 & Ez3).
  destruct (Htotal j z) as (z' & Hz'); try lia.
  { now rewrite Ez3. }
  exists z'. split; [exact Hz'|].
  apply Hfields in Hz'. destruct Hz' as (-> & -> & _ & ->). auto.
Qed.

Lemma hot_run_total type (x : t) :
  0 < hotKeys x -> 0 < coldKeys x -> hotKeys x + coldKeys x <= 2 ^ 31 ->
  TestConfig.operations (config (base x)) <= INT_MAX ->
  progress_ok (config (base x)) ->
  exists x', runTestForCacheType type x = Ok x'.
Proof.
  intros Hh Hc Hs Hops Hbar.
  destruct (resetStats_fields type (base x)) as (Hc0 & _).
  unfold runTestForCacheType, for_range.
  cbn [base with_base]. rewrite Hc0, Z.sub_0_r.
  destruct (hot_loop_total (fill_step type)
              (with_base (resetStats type (base x)) x))
    with (n := Z.to_nat (TestConfig.operations (config (base x))))
    as (y & Hy);
    cbn [base with_base hotKeys coldKeys]; try assumption.
  { apply hot_fill_fields. }
  { intros; now apply hot_fill_total. }
  { unfold INT_MAX in *; lia. }
  rewrite Hy. cbn [bind].
  apply (hot_loop_fields (fill_step type) x (hot_fill_fields type)) in Hy.
  cbn [base with_base hotKeys coldKeys hotRatio] in Hy.
  destruct Hy as (Ey1 & Ey2 & _ & Ey3). rewrite Hc0 in Ey3.
  apply (hot_loop_total (access_step type) y);
    try (unfold INT_MAX in *; lia).
  - now rewrite Ey3.
  - apply hot_access_fields.
  - intros; now apply hot_access_total.
Qed.

(** The first iteration of a run with at least one operation. *)
Lemma for_range_first {St : Type} (body : Z -> St -> res St) n s f :
  1 <= n -> body 0 s = UB f -> for_range 0 n body s = UB f.
Proof.
  intros Hn Hb. unfold for_range.
  replace (Z.to_nat (n - 0)) with (S (Z.to_nat (n - 1))) by lia.
  now apply for_loop_fault.
Qed.

Lemma for_range_none {St : Type} (body : Z -> St -> res St) n s :
  n <= 0 -> for_range 0 n body s = Ok s.
Proof.
  intros Hn. unfold for_range.
  replace (Z.to_nat (n - 0)) with O by lia. reflexivity.
Qed.

Lemma urem_zero W g : urem W g 0 = UB DivByZero.
Proof. unfold urem, to_unsigned. now rewrite Zmod_0_l. Qed.
End HotTotality.

Section HotCompletion.
Context `{H : Harness}.
Import HotDataAccessTest.

Lemma hot_first_fill type (x : t) :
  fill_step type 0 x
  = (k <- hot_choice x 0 (fst (draw (base x))) ;;
     _ <- showProgress (config (base x)) 1
            (TestConfig.operations (config (base x))) ;;
     Ok (with_base (cache_put type k (hot_value k) (snd (draw (base x)))) x)).
Proof.
  unfold fill_step. rewrite hot_pick_key.
  destruct (hot_choice x 0 (fst (draw (base x)))) as [k|f]; [|reflexivity].
  cbn [bind]. fold (hot_value k).
  destruct (cache_put_fields type k (hot_value k) (snd (draw (base x))))
    as (-> & _).
  destruct (draw_fields (base x)) as (-> & _). reflexivity.
Qed.

Lemma hot_run_none type (x : t) :
  TestConfig.operations (config (base x)) <= 0 ->
  runTestForCacheType type x = Ok (with_base (resetStats type (base x)) x).
Proof.
  intros Hn. destruct (resetStats_fields type (base x)) as (Hc0 & _).
  unfold runTestForCacheType. cbn [base with_base]. rewrite Hc0.
  rewrite for_range_none by assumption. cbn [bind].
  now apply for_range_none.
Qed.

(** X2.  The edge cases of [HotDataAccessTest::runTestForCacheType]
    (lines 205-246).  Without operations ([config.operations <= 0]) both
    loops are skipped and the run only resets the two counters of its
    policy, whatever the other settings.  With at least one operation,
    the first iteration computes [gen() % hotKeys] when [hotRatio > 0]
    and [gen() % coldKeys] otherwise: an empty range of that kind is a
    division by zero. *)
Theorem hot_run_edge_cases (type : CacheType) (x : t) :
  (TestConfig.operations (config (base x)) <= 0 ->
   runTestForCacheType type x
   = Ok (with_base (resetStats type (base x)) x)) /\
  (1 <= TestConfig.operations (config (base x)) ->
   hotKeys x = 0 -> 0 < hotRatio x ->
   runTestForCacheType type x = UB DivByZero) /\
  (1 <= TestConfig.operations (config (base x)) ->
   coldKeys x = 0 -> hotRatio x <= 0 ->
   runTestForCacheType type x = UB DivByZero).
Proof.
  destruct (resetStats_fields type (base x)) as (Hc0 & _).
  unfold runTestForCacheType. cbn [base with_base]. rewrite Hc0.
  split; [|split].
  - intros Hn. rewrite for_range_none by assumption. cbn [bind].
    now apply for_range_none.
  - intros Hn Hk Hr. rewrite (for_range_first _ _ _ DivByZero);
      [reflexivity|assumption|].
    rewrite hot_first_fill. unfold hot_choice.
    cbn [base with_base hotKeys coldKeys hotRatio Z.rem Z.quotrem snd].
    destruct (Z.ltb_spec 0 (hotRatio x)); [|lia].
    now rewrite Hk, urem_zero.
  - intros Hn Hk Hr. rewrite (for_range_first _ _ _ DivByZero);
      [reflexivity|assumption|].
    rewrite hot_first_fill. unfold hot_choice.
    cbn [base with_base hotKeys coldKeys hotRatio Z.rem Z.quotrem snd].
    destruct (Z.ltb_spec 0 (hotRatio x)); [lia|].
    unfold offset_urem. now rewrite Hk, urem_zero.
Qed.

Lemma hot_bar_faults type (x : t) :
  0 < hotKeys x -> 0 < coldKeys x -> hotKeys x + coldKeys x <= 2 ^ 31 ->
  1 <= TestConfig.operations (config (base x)) ->
  TestConfig.showProgressBar (config (base x)) = true ->
  TestConfig.progressInterval (config (base x)) = 0 ->
  runTestForCacheType type x = UB DivByZero.
Proof.
  intros Hh Hc Hs Hn Hshow Hint.
  destruct (resetStats_fields type (base x)) as (Hc0 & _).
  unfold runTestForCacheType. cbn [base with_base]. rewrite Hc0.
  rewrite (for_range_first _ _ _ DivByZero); [reflexivity|assumption|].
  rewrite hot_first_fill. cbn [base with_base].
  destruct (hot_choice_range (with_base (resetStats type (base x)) x) 0
              (fst (draw (resetStats type (base x)))))
    as (key & -> & _); cbn [base with_base hotKeys coldKeys]; try lia.
  cbn [bind]. rewrite Hc0. unfold showProgress. now rewrite Hshow, Hint.
Qed.

(** X3.  The progress bar ([showProgress], lines 65-83, with
    [setShowProgressBar] and [setProgressInterval], lines 130-136).
    After [setProgressInterval(0)] with the bar shown, a run with at
    least one operation divides by zero in [current % progressInterval]
    at its first operation; after [setShowProgressBar(false)] the
    interval is never read, and the run completes whatever it is. *)
Theorem hot_run_progress_bar (type : CacheType) (x : t) :
  0 < hotKeys x -> 0 < coldKeys x -> hotKeys x + coldKeys x <= 2 ^ 31 ->
  1 <= TestConfig.operations (config (base x)) <= INT_MAX ->
  runTestForCacheType type
    (with_base (setProgressInterval 0 (setShowProgressBar true (base x))) x)
  = UB DivByZero /\
  forall interval,
    completes
      (runTestForCacheType type
         (with_base
            (setShowProgressBar false (setProgressInterval interval (base x)))
            x)) = true.
Proof.
  intros Hh Hc Hs Hn. split.
  - apply hot_bar_faults;
      solve [assumption | reflexivity | cbn [base with_base]; apply Hn].
  - intros interval.
    destruct (hot_run_total type
                (with_base
                   (setShowProgressBar false
                      (setProgressInterval interval (base x))) x))
      as (x' & ->);
      solve [assumption | reflexivity | now left
            | cbn [base with_base]; apply Hn].
Qed.
End HotCompletion.

Lemma hot_run_edge_cases_witness :
  HotDataAccessTest.runTestForCacheType LRU (hot_small 0)
  = Ok (HotDataAccessTest.with_base
          (resetStats LRU (HotDataAccessTest.base (hot_small 0)))
          (hot_small 0)) /\
  HotDataAccessTest.runTestForCacheType LRU
    (HotDataAccessTest.setHotKeys 0 (hot_small 5)) = UB DivByZero /\
  HotDataAccessTest.runTestForCacheType LRU
    (HotDataAccessTest.setColdKeys 0
       (HotDataAccessTest.setHotRatio 0 (hot_small 5))) = UB DivByZero.
Proof.
  destruct (hot_run_edge_cases LRU (hot_small 0)) as (Hnone & _ & _).
  destruct (hot_run_edge_cases LRU
              (HotDataAccessTest.setHotKeys 0 (hot_small 5)))
    as (_ & Hhot & _).
  destruct (hot_run_edge_cases LRU
              (HotDataAccessTest.setColdKeys 0
                 (HotDataAccessTest.setHotRatio 0 (hot_small 5))))
    as (_ & _ & Hcold).
  split; [|split].
  - apply Hnone. vm_compute. discriminate.
  - apply Hhot; [vm_compute; discriminate|reflexivity|reflexivity].
  - apply Hcold;
      [vm_compute; discriminate|reflexivity|vm_compute; discriminate].
Defined.

Lemma hot_run_progress_bar_witness :
  HotDataAccessTest.runTestForCacheType LRU
    (HotDataAccessTest.with_base
       (setProgressInterval 0
          (setShowProgressBar true (HotDataAccessTest.base (hot_small 5))))
       (hot_small 5))
  = UB DivByZero /\
  completes
    (HotDataAccessTest.runTestForCacheType LRU
       (HotDataAccessTest.with_base
          (setShowProgressBar false
             (setProgressInterval 0 (HotDataAccessTest.base (hot_small 5))))
          (hot_small 5))) = true.
Proof.
  assert (Hx := hot_run_progress_bar LRU (hot_small 5)).
  destruct Hx as (Hfault & Hoff).
  - reflexivity.
  - reflexivity.
  - vm_compute. discriminate.
  - split; vm_compute; discriminate.
  - split; [exact Hfault|exact (Hoff 0)].
Defined.

(** ** [LoopPatternTest]: when a run completes, when it divides by zero *)

Section LoopTotality.
Context `{H : Harness}.
Import LoopPatternTest.

Lemma loop_run_config type (x x' : t) :
  runTestForCacheType type x = Ok x' -> config (base x') = config (base x).
Proof.
  unfold runTestForCacheType, for_range. intros Hrun.
  inv_bind Hrun. rename a into y. inv_bind Hrun. injection Hrun as <-.
  cbn [base with_base loopSize] in *.
  apply (loop_counts_nothing base type _ (loop_fill_counts type)) in Ha.
  apply (loop_counts_one (fun st => base (fst st)) type _
           (loop_access_counts type)) in Ha0.
  cbn [fst base with_base] in Ha, Ha0.
  destruct (resetStats_fields type (base x)) as (Hc0 & _).
  destruct Ha as (Hc & _). destruct Ha0 as (-> & _). now rewrite Hc.
Qed.

Lemma loop_runTest_config (x x' : t) :
  runTest x = Ok x' -> config (base x') = config (base x).
Proof.
  intros Hrun. apply loop_runTest_runs in Hrun.
  destruct Hrun as (a & a0 & Ha & Ha0 & Hrun & _).
  apply loop_run_config in Ha, Ha0, Hrun. congruence.
Qed.

Lemma loop_fill_total type key (x : t) :
  0 <= key < INT_MAX -> progress_ok (config (base x)) ->
  fill_step type key x
  = Ok (with_base (cache_put type key (loop_value key) (base x)) x).
Proof.
  intros Hk Hbar. unfold fill_step.
  destruct (cache_put_fields type key (loop_value key) (base x)) as (Hc & _).
  fold (loop_value key).
  destruct ((Z.rem key 100 =? 0) || (key =? loopSize x - 1));
    [|reflexivity].
  rewrite showProgress_ok; [reflexivity| |lia|apply int_of_bounds; lia].
  now rewrite Hc.
Qed.

Lemma ratios_ok_same (x y : t) : same_loop x y -> ratios_ok x -> ratios_ok y.
Proof. unfold ratios_ok. intros (_ & -> & ->). auto. Qed.

Lemma loop_access_total type (x : t) op pos :
  1 <= loopSize x <= 2 ^ 30 -> ratios_ok x ->
  0 <= op < INT_MAX -> progress_ok (config (base x)) ->
  pos = scans (sequentialRatio x) (Z.to_nat op) mod loopSize x ->
  exists x',
    access_step type op (x, pos)
    = Ok (x', scans (sequentialRatio x) (Z.to_nat (op + 1)) mod loopSize x) /\
    same_loop x x' /\ config (base x') = config (base x).
Proof.
  intros HL Hr Hop Hbar Hpos.
  destruct (loop_pick_key_range x op pos HL Hr) as (key & b & Hp & _);
    [lia|assumption|].
  pose proof (loop_pick_key _ _ _ _ _ _ Hp) as Hb.
  assert (Hcfg : config (lookup type key b) = config (base x)).
  { destruct (lookup_fields type key b) as (-> & _).
    apply (same_but_gen_config _ _ Hb). }
  unfold access_step. rewrite Hp. cbn [bind].
  rewrite showProgress_ok;
    [|now rewrite Hcfg|lia|apply int_of_bounds; lia].
  cbn [bind]. eexists. split; [reflexivity|].
  split; [repeat split|exact Hcfg].
Qed.

Lemma loop_run_total type (x : t) :
  1 <= loopSize x <= 2 ^ 30 -> ratios_ok x ->
  TestConfig.operations (config (base x)) <= INT_MAX ->
  progress_ok (config (base x)) ->
  exists x', runTestForCacheType type x = Ok x'.
Proof.
  intros HL Hr Hops Hbar.
  destruct (resetStats_fields type (base x)) as (Hc0 & _).
  unfold runTestForCacheType, for_range.
  cbn [base with_base loopSize]. rewrite !Z.sub_0_r.
  destruct (for_loop_ok
              (fun _ z => same_loop x z /\ config (base z) = config (base x))
              (fill_step type) (Z.to_nat (loopSize x)) 0
              (with_base (resetStats type (base x)) x))
    as (y & Hfill & (Hy & Hcy)).
  { split; [repeat split|exact Hc0]. }
  { intros j z Hj (Hz & Hcz). eexists. split.
    - apply loop_fill_total; [unfold INT_MAX; lia|now rewrite Hcz].
    - split; [exact Hz|]. cbn [base with_base].
      destruct (cache_put_fields type j (loop_value j) (base z)) as (-> & _).
      exact Hcz. }
  rewrite Hfill. cbn [bind]. rewrite Hcy.
  destruct (for_loop_ok
              (fun j (st : t * Z) =>
                 same_loop x (fst st) /\
                 config (base (fst st)) = config (base x) /\
                 snd st = scans (sequentialRatio x) (Z.to_nat j)
                          mod loopSize x)
              (access_step type)
              (Z.to_nat (TestConfig.operations (config (base x)))) 0 (y, 0))
    as (st & Hacc & _).
  { cbn [fst snd]. repeat split; try apply Hy; try exact Hcy.
    all: cbn [Z.to_nat scans]; now rewrite Zmod_0_l. }
  { intros j [z pos] Hj (Hz & Hcz & Hpos). cbn [fst snd] in *.
    pose proof Hz as (E1 & E2 & E3).
    destruct (loop_access_total type z j pos) as (z' & Hs & Hz' & Hcz').
    - now rewrite E1.
    - exact (ratios_ok_same _ _ Hz Hr).
    - unfold INT_MAX in *. lia.
    - now rewrite Hcz.
    - now rewrite E1, E2.
    - rewrite E1, E2 in Hs. eexists. split; [exact Hs|].
      cbn [fst snd]. destruct Hz' as (F1 & F2 & F3).
      repeat split; congruence. }
  rewrite Z.sub_0_r, Hacc. cbn [bind]. eauto.
Qed.

Lemma loop_pick_key_zero (x : t) :
  loopSize x = 0 ->
  completes (pick_key 0 0 x) = false /\
  (is_int (sequentialRatio x + randomRatio x) = true ->
   pick_key 0 0 x = UB DivByZero).
Proof.
  intros HL. unfold pick_key. rewrite HL.
  destruct (Z.rem 0 100 <? sequentialRatio x); [split; reflexivity|].
  unfold sadd, checked.
  destruct (is_int (sequentialRatio x + randomRatio x));
    [|split; [reflexivity|discriminate]].
  cbn [bind]. destruct (draw (base x)) as [g b].
  destruct (Z.rem 0 100 <? sequentialRatio x + randomRatio x).
  - rewrite urem_zero. split; reflexivity.
  - unfold offset_urem. rewrite urem_zero. split; reflexivity.
Qed.

Lemma loop_first_access type (x : t) :
  loopSize x = 0 -> 1 <= TestConfig.operations (config (base x)) ->
  exists f, runTestForCacheType type x = UB f.
Proof.
  intros HL Hn.
  destruct (loop_pick_key_zero (with_base (resetStats type (base x)) x) HL)
    as (Hc & _).
  destruct (pick_key 0 0 (with_base (resetStats type (base x)) x))
    as [r|f] eqn:E; [discriminate|].
  exists f. unfold runTestForCacheType. cbn [base with_base loopSize].
  rewrite for_range_none by lia. cbn [bind base with_base].
  destruct (resetStats_fields type (base x)) as (-> & _).
  rewrite (for_range_first _ _ _ f); [reflexivity|lia|].
  unfold access_step. cbn beta iota. now rewrite E.
Qed.

(** X5.  The edge cases of [LoopPatternTest::runTestForCacheType]
    (lines 285-328), for any object.  With [loopSize <= 0] the fill loop
    is skipped; if there are no operations either, the run only resets
    the two counters of its policy.  With [loopSize == 0] and at least
    one operation the run does not complete: its first operation divides
    by zero, whichever of the three patterns it takes,
    [(current_pos + 1) % loopSize] or [gen() % loopSize] (the sum
    [sequentialRatio + randomRatio], computed before the last two, is an
    [int] for the ratios the setters leave). *)
Theorem loop_run_edge_cases (type : CacheType) (x : t) :
  (loopSize x <= 0 -> TestConfig.operations (config (base x)) <= 0 ->
   runTestForCacheType type x
   = Ok (with_base (resetStats type (base x)) x)) /\
  (loopSize x = 0 -> 1 <= TestConfig.operations (config (base x)) ->
   completes (runTestForCacheType type x) = false) /\
  (loopSize x = 0 -> 1 <= TestConfig.operations (config (base x)) ->
   is_int (sequentialRatio x + randomRatio x) = true ->
   runTestForCacheType type x = UB DivByZero).
Proof.
  split; [|split].
  - intros HL Hn. unfold runTestForCacheType.
    cbn [base with_base loopSize].
    rewrite for_range_none by assumption. cbn [bind base with_base].
    destruct (resetStats_fields type (base x)) as (-> & _).
    now rewrite for_range_none by assumption.
  - intros HL Hn.
    destruct (loop_first_access type x HL Hn) as (f & ->). reflexivity.
  - intros HL Hn Hsum. unfold runTestForCacheType.
    cbn [base with_base loopSize].
    rewrite for_range_none by lia. cbn [bind base with_base].
    destruct (resetStats_fields type (base x)) as (-> & _).
    rewrite (for_range_first _ _ _ DivByZero); [reflexivity|lia|].
    unfold access_step. cbn beta iota.
    destruct (loop_pick_key_zero (with_base (resetStats type (base x)) x) HL)
      as (_ & Hp).
    rewrite (Hp Hsum). reflexivity.
Qed.
End LoopTotality.

Lemma loop_run_edge_cases_witness :
  LoopPatternTest.runTestForCacheType LRU (loop_small (-3) 0)
  = Ok (LoopPatternTest.with_base
          (resetStats LRU (LoopPatternTest.base (loop_small (-3) 0)))
          (loop_small (-3) 0)) /\
  LoopPatternTest.runTestForCacheType LRU (loop_small 0 5) = UB DivByZero.
Proof.
  destruct (loop_run_edge_cases LRU (loop_small (-3) 0)) as (Hnone & _).
  destruct (loop_run_edge_cases LRU (loop_small 0 5)) as (_ & _ & Hzero).
  split.
  - apply Hnone; vm_compute; discriminate.
  - apply Hzero; [reflexivity|vm_compute; discriminate|reflexivity].
Defined.

(** ** A run leaves the other two policies alone *)

Section OtherPolicies.
Context `{H : Harness}.

Lemma others_refl type (b : CacheTest) : others_kept type b b.
Proof. intros type' _. auto. Qed.

Lemma others_trans type (b0 b1 b2 : CacheTest) :
  others_kept type b0 b1 -> others_kept type b1 b2 -> others_kept type b0 b2.
Proof.
  intros H1 H2 type' Hne.
  destruct (H1 type' Hne) as (E1 & E2 & E3).
  destruct (H2 type' Hne) as (-> & -> & ->). auto.
Qed.

Lemma others_same_but_gen type (b0 b : CacheTest) :
  same_but_gen b0 b -> others_kept type b0 b.
Proof. intros (_ & Hh & Ho & Hc) type' _. rewrite Hh, Ho. auto. Qed.

Lemma others_put type key v (b : CacheTest) :
  others_kept type b (cache_put type key v b).
Proof.
  intros type' Hne.
  destruct (cache_put_fields type key v b) as (_ & -> & -> & _).
  destruct (touches_put type key v b) as (_ & Hc). auto.
Qed.

Lemma set_counter_other m t v t' : t' <> t -> set_counter m t v t' = m t'.
Proof.
  intros Hne. unfold set_counter.
  destruct (CacheType_eqb t t') eqn:E; [|reflexivity].
  apply CacheType_eqb_eq in E. congruence.
Qed.

Lemma others_lookup type key (b : CacheTest) :
  others_kept type b (lookup type key b).
Proof.
  intros type' Hne.
  destruct (touches_lookup type key b) as (_ & Hc).
  split; [|split; [|auto]].
  - unfold lookup. destruct (get key (getCache type b)) as [[v|] c'];
      cbn [hits setCache]; [now apply set_counter_other|reflexivity].
  - unfold lookup. destruct (get key (getCache type b)) as [r c'].
    cbn [operations setCache]. now apply set_counter_other.
Qed.

Lemma others_reset type (b : CacheTest) :
  others_kept type b (resetStats type b).
Proof.
  intros type' Hne.
  destruct (resetStats_fields type b) as (_ & _ & _ & Hc).
  cbn [hits operations resetStats]. rewrite !set_counter_other by assumption.
  auto.
Qed.

Lemma loop_others {St : Type} (proj : St -> CacheTest) type
  (body : Z -> St -> res St) :
  (forall j z z', body j z = Ok z' -> others_kept type (proj z) (proj z')) ->
  forall n i z z',
    for_loop n i body z = Ok z' -> others_kept type (proj z) (proj z').
Proof.
  intros Hbody n i z z' Hrun.
  apply (for_loop_inv (fun _ y => others_kept type (proj z) (proj y))
           body n i z z'); [apply others_refl| |exact Hrun].
  intros j y y' _ Hy Hs. exact (others_trans _ _ _ _ Hy (Hbody _ _ _ Hs)).
Qed.

Lemma hot_run_others type (x x' : HotDataAccessTest.t) :
  HotDataAccessTest.runTestForCacheType type x = Ok x' ->
  others_kept type (HotDataAccessTest.base x) (HotDataAccessTest.base x').
Proof.
  unfold HotDataAccessTest.runTestForCacheType, for_range. intros Hrun.
  inv_bind Hrun. rename a into y.
  apply (loop_others HotDataAccessTest.base type) in Ha.
  - apply (loop_others HotDataAccessTest.base type) in Hrun.
    + cbn [HotDataAccessTest.base HotDataAccessTest.with_base] in Ha.
      exact (others_trans _ _ _ _ (others_reset type _)
               (others_trans _ _ _ _ Ha Hrun)).
    + intros j z z' Hs. apply hot_access_step in Hs.
      destruct Hs as (key & _ & ->).
      cbn [HotDataAccessTest.base HotDataAccessTest.with_base].
      eapply others_trans; [|apply others_lookup].
      apply others_same_but_gen, same_but_gen_draw, same_but_gen_refl.
  - intros j z z' Hs. apply hot_fill_step in Hs.
    destruct Hs as (key & _ & ->).
    cbn [HotDataAccessTest.base HotDataAccessTest.with_base].
    eapply others_trans; [|apply others_put].
    apply others_same_but_gen, same_but_gen_draw, same_but_gen_refl.
Qed.

Lemma loop_run_others type (x x' : LoopPatternTest.t) :
  LoopPatternTest.runTestForCacheType type x = Ok x' ->
  others_kept type (LoopPatternTest.base x) (LoopPatternTest.base x').
Proof.
  unfold LoopPatternTest.runTestForCacheType, for_range. intros Hrun.
  inv_bind Hrun. rename a into y. inv_bind Hrun. injection Hrun as <-.
  apply (loop_others LoopPatternTest.base type) in Ha.
  - apply (loop_others (fun st => LoopPatternTest.base (fst st)) type)
      in Ha0.
    + cbn [fst LoopPatternTest.base LoopPatternTest.with_base] in Ha, Ha0.
      exact (others_trans _ _ _ _ (others_reset type _)
               (others_trans _ _ _ _ Ha Ha0)).
    + intros j [z pos] [z' pos'] Hs. apply loop_access_step in Hs.
      destruct Hs as (key & b & Hp & ->). apply loop_pick_key in Hp.
      cbn [fst LoopPatternTest.base LoopPatternTest.with_base].
      eapply others_trans; [|apply others_lookup].
      now apply others_same_but_gen.
  - intros j z z' Hs. apply loop_fill_step in Hs. subst z'.
    cbn [LoopPatternTest.base LoopPatternTest.with_base].
    apply others_put.
Qed.

Lemma work_run_others type (x x' : WorkloadShiftTest.t) :
  WorkloadShiftTest.runTestForCacheType type x = Ok x' ->
  others_kept type (WorkloadShiftTest.base x) (WorkloadShiftTest.base x').
Proof.
  unfold WorkloadShiftTest.runTestForCacheType, for_range. intros Hrun.
  inv_bind Hrun. rename a into y. inv_bind Hrun. rename a into L.
  apply (loop_others WorkloadShiftTest.base type) in Ha.
  - apply (loop_others WorkloadShiftTest.base type) in Hrun.
    + cbn [WorkloadShiftTest.base WorkloadShiftTest.with_base] in Ha.
      exact (others_trans _ _ _ _ (others_reset type _)
               (others_trans _ _ _ _ Ha Hrun)).
    + intros j z z' Hs. apply work_access_step in Hs.
      destruct Hs as (phase & key & b & b' & _ & Hp & Hb' & Hz').
      apply work_pick_key in Hp.
      assert (Hk : others_kept type (WorkloadShiftTest.base z) b').
      { apply (others_trans _ _ b); [exact (others_same_but_gen _ _ _ Hp)|].
        apply (others_trans _ _ (lookup type key b));
          [apply others_lookup|exact (others_same_but_gen _ _ _ Hb')]. }
      destruct Hz' as [-> | ->];
        cbn [WorkloadShiftTest.base WorkloadShiftTest.with_base];
        [exact Hk|].
      eapply others_trans; [exact Hk|apply others_put].
  - intros j z z' Hs. apply work_fill_step in Hs. subst z'.
    cbn [WorkloadShiftTest.base WorkloadShiftTest.with_base].
    apply others_put.
Qed.

(** X6.  [runTestForCacheType(type)] of each of the three tests reaches
    the cache of [type] only and writes [hits[type]] and
    [operations[type]] only: the caches and the counters of the two other
    policies are the same after the run (lines 205-246, 285-328,
    378-454). *)
Theorem run_leaves_other_policies (type : CacheType) :
  (forall x x' : HotDataAccessTest.t,
      HotDataAccessTest.runTestForCacheType type x = Ok x' ->
      others_kept type (HotDataAccessTest.base x)
        (HotDataAccessTest.base x')) /\
  (forall x x' : LoopPatternTest.t,
      LoopPatternTest.runTestForCacheType type x = Ok x' ->
      others_kept type (LoopPatternTest.base x) (LoopPatternTest.base x')) /\
  (forall x x' : WorkloadShiftTest.t,
      WorkloadShiftTest.runTestForCacheType type x = Ok x' ->
      others_kept type (WorkloadShiftTest.base x)
        (WorkloadShiftTest.base x')).
Proof.
  split; [|split]; intros x x'.
  - apply hot_run_others.
  - apply loop_run_others.
  - apply work_run_others.
Qed.

Lemma work_run_config type (x x' : WorkloadShiftTest.t) :
  WorkloadShiftTest.runTestForCacheType type x = Ok x' ->
  config (WorkloadShiftTest.base x') = config (WorkloadShiftTest.base x).
Proof.
  unfold WorkloadShiftTest.runTestForCacheType, for_range. intros Hrun.
  inv_bind Hrun. rename a into y. inv_bind Hrun. rename a into L.
  apply (loop_counts_nothing WorkloadShiftTest.base type _
           (work_fill_counts type)) in Ha.
  apply (loop_counts_one WorkloadShiftTest.base type _
           (work_access_counts type L)) in Hrun.
  cbn [WorkloadShiftTest.base WorkloadShiftTest.with_base] in Ha.
  destruct (resetStats_fields type (WorkloadShiftTest.base x)) as (Hc0 & _).
  destruct Ha as (Hc & _). destruct Hrun as (-> & _). now rewrite Hc.
Qed.

(** The three runs of [runTest], one after the other. *)
Lemma three_runs (n : Z) (b0 b1 b2 b3 : CacheTest) :
  (operations b1 LRU = Z.max 0 n /\ 0 <= hits b1 LRU <= operations b1 LRU) ->
  (operations b2 LFU = Z.max 0 n /\ 0 <= hits b2 LFU <= operations b2 LFU) ->
  (operations b3 ARC = Z.max 0 n /\ 0 <= hits b3 ARC <= operations b3 ARC) ->
  others_kept LFU b1 b2 -> others_kept ARC b2 b3 ->
  final_statistics n b3.
Proof.
  intros H1 H2 H3 K2 K3.
  destruct (K2 LRU) as (A1 & A2 & _); [discriminate|].
  destruct (K3 LRU) as (B1 & B2 & _); [discriminate|].
  destruct (K3 LFU) as (C1 & C2 & _); [discriminate|].
  intros []; [rewrite B1, B2, A1, A2|rewrite C1, C2|]; assumption.
Qed.

Lemma hot_runTest_final (x x' : HotDataAccessTest.t) :
  HotDataAccessTest.runTest x = Ok x' ->
  final_statistics
    (TestConfig.operations (config (HotDataAccessTest.base x)))
    (HotDataAccessTest.base x').
Proof.
  intros Hrun. apply hot_runTest_runs in Hrun.
  destruct Hrun as (x1 & x2 & Ha & Ha0 & Hrun & _).
  pose proof (hot_run_fields _ _ _ Ha) as (_ & _ & _ & E1).
  pose proof (hot_run_fields _ _ _ Ha0) as (_ & _ & _ & E2).
  apply (three_runs _ (HotDataAccessTest.base x)
           (HotDataAccessTest.base x1) (HotDataAccessTest.base x2)).
  - exact (hot_run_counts _ _ _ Ha).
  - rewrite <- E1. exact (hot_run_counts _ _ _ Ha0).
  - rewrite <- E1, <- E2. exact (hot_run_counts _ _ _ Hrun).
  - exact (hot_run_others _ _ _ Ha0).
  - exact (hot_run_others _ _ _ Hrun).
Qed.

Lemma loop_runTest_final (x x' : LoopPatternTest.t) :
  LoopPatternTest.runTest x = Ok x' ->
  final_statistics
    (TestConfig.operations (config (LoopPatternTest.base x)))
    (LoopPatternTest.base x').
Proof.
  intros Hrun. apply loop_runTest_runs in Hrun.
  destruct Hrun as (x1 & x2 & Ha & Ha0 & Hrun & _).
  pose proof (loop_run_config _ _ _ Ha) as E1.
  pose proof (loop_run_config _ _ _ Ha0) as E2.
  apply (three_runs _ (LoopPatternTest.base x)
           (LoopPatternTest.base x1) (LoopPatternTest.base x2)).
  - exact (loop_run_counts _ _ _ Ha).
  - rewrite <- E1. exact (loop_run_counts _ _ _ Ha0).
  - rewrite <- E1, <- E2. exact (loop_run_counts _ _ _ Hrun).
  - exact (loop_run_others _ _ _ Ha0).
  - exact (loop_run_others _ _ _ Hrun).
Qed.

Lemma work_runTest_final (x x' : WorkloadShiftTest.t) :
  WorkloadShiftTest.runTest x = Ok x' ->
  final_statistics
    (TestConfig.operations (config (WorkloadShiftTest.base x)))
    (WorkloadShiftTest.base x').
Proof.
  intros Hrun. apply work_runTest_runs in Hrun.
  destruct Hrun as (x1 & x2 & _ & Ha & Ha0 & Hrun & _).
  pose proof (work_run_config _ _ _ Ha) as E1.
  pose proof (work_run_config _ _ _ Ha0) as E2.
  apply (three_runs _ (WorkloadShiftTest.base x)
           (WorkloadShiftTest.base x1) (WorkloadShiftTest.base x2)).
  - exact (work_run_counts _ _ _ Ha).
  - rewrite <- E1. exact (work_run_counts _ _ _ Ha0).
  - rewrite <- E1, <- E2. exact (work_run_counts _ _ _ Hrun).
  - exact (work_run_others _ _ _ Ha0).
  - exact (work_run_others _ _ _ Hrun).
Qed.

End OtherPolicies.

(** ** [runTest]: the three runs, then the hit rates *)

Section RunTestCompletion.
Context `{H : Harness}.

Lemma printResults_ok (n : Z) (b : CacheTest) :
  final_statistics n b -> 1 <= n -> printResults b = Ok tt.
Proof.
  intros Hb Hn. unfold printResults, hit_rate.
  destruct (Hb LRU) as (-> & _). destruct (Hb LFU) as (-> & _).
  destruct (Hb ARC) as (-> & _).
  destruct (Z.eqb_spec (Z.max 0 n) 0); [lia|reflexivity].
Qed.

Lemma printResults_fault (n : Z) (b : CacheTest) :
  final_statistics n b -> n <= 0 -> printResults b = UB DivByZero.
Proof.
  intros Hb Hn. unfold printResults, hit_rate.
  destruct (Hb LRU) as (-> & _).
  destruct (Z.eqb_spec (Z.max 0 n) 0); [reflexivity|lia].
Qed.

Lemma hot_three_runs (x : HotDataAccessTest.t) :
  0 < HotDataAccessTest.hotKeys x -> 0 < HotDataAccessTest.coldKeys x ->
  HotDataAccessTest.hotKeys x + HotDataAccessTest.coldKeys x <= 2 ^ 31 ->
  TestConfig.operations (config (HotDataAccessTest.base x)) <= INT_MAX ->
  progress_ok (config (HotDataAccessTest.base x)) ->
  exists x3,
    HotDataAccessTest.runTest x
    = (_ <- printResults (HotDataAccessTest.base x3) ;; Ok x3) /\
    final_statistics
      (TestConfig.operations (config (HotDataAccessTest.base x)))
      (HotDataAccessTest.base x3).
Proof.
  intros Hh Hc Hs Hops Hbar. unfold HotDataAccessTest.runTest.
  destruct (hot_run_total LRU x) as (x1 & H1); try assumption.
  rewrite H1. cbn [bind].
  pose proof (hot_run_fields _ _ _ H1) as (E1 & E2 & _ & E3).
  destruct (hot_run_total LFU x1) as (x2 & H2); try lia;
    try (now rewrite E3).
  rewrite H2. cbn [bind].
  pose proof (hot_run_fields _ _ _ H2) as (F1 & F2 & _ & F3).
  destruct (hot_run_total ARC x2) as (x3 & H3); try lia;
    try (now rewrite F3, E3).
  rewrite H3. cbn [bind]. exists x3. split; [reflexivity|].
  apply (three_runs _ (HotDataAccessTest.base x)
           (HotDataAccessTest.base x1) (HotDataAccessTest.base x2)).
  - exact (hot_run_counts _ _ _ H1).
  - rewrite <- E3. exact (hot_run_counts _ _ _ H2).
  - rewrite <- E3, <- F3. exact (hot_run_counts _ _ _ H3).
  - exact (hot_run_others _ _ _ H2).
  - exact (hot_run_others _ _ _ H3).
Qed.

Lemma hot_runTest_total (x : HotDataAccessTest.t) :
  0 < HotDataAccessTest.hotKeys x -> 0 < HotDataAccessTest.coldKeys x ->
  HotDataAccessTest.hotKeys x + HotDataAccessTest.coldKeys x <= 2 ^ 31 ->
  1 <= TestConfig.operations (config (HotDataAccessTest.base x)) <= INT_MAX ->
  progress_ok (config (HotDataAccessTest.base x)) ->
  exists x', HotDataAccessTest.runTest x = Ok x'.
Proof.
  intros Hh Hc Hs Hops Hbar.
  destruct (hot_three_runs x) as (x3 & -> & Hst); try assumption; [lia|].
  rewrite (printResults_ok _ _ Hst) by lia. cbn [bind]. eauto.
Qed.

(** X1.  [HotDataAccessTest::runTestForCacheType] (lines 205-246) runs to
    its end without a division by zero or a signed overflow when both
    key ranges are non-empty, the cold range ends within [int], and the
    progress bar is off or has an interval other than 0.  [runTest] over
    it (lines 139-167) then completes when there is at least one
    operation; with [config.operations <= 0] no operation is counted and
    [printResults] divides by [operations.at(type) == 0]. *)
Theorem hot_run_completes (type : CacheType) (x : HotDataAccessTest.t) :
  0 < HotDataAccessTest.hotKeys x -> 0 < HotDataAccessTest.coldKeys x ->
  HotDataAccessTest.hotKeys x + HotDataAccessTest.coldKeys x <= 2 ^ 31 ->
  TestConfig.operations (config (HotDataAccessTest.base x)) <= INT_MAX ->
  progress_ok (config (HotDataAccessTest.base x)) ->
  completes (HotDataAccessTest.runTestForCacheType type x) = true /\
  (1 <= TestConfig.operations (config (HotDataAccessTest.base x)) ->
   completes (HotDataAccessTest.runTest x) = true) /\
  (TestConfig.operations (config (HotDataAccessTest.base x)) <= 0 ->
   HotDataAccessTest.runTest x = UB DivByZero).
Proof.
  intros Hh Hc Hs Hops Hbar. split; [|split].
  - destruct (hot_run_total type x) as (x' & ->); auto.
  - intros Hn. destruct (hot_runTest_total x) as (x' & ->); auto.
  - intros Hn.
    destruct (hot_three_runs x) as (x3 & -> & Hst); try assumption.
    now rewrite (printResults_fault _ _ Hst).
Qed.

Lemma loop_three_runs (x : LoopPatternTest.t) :
  1 <= LoopPatternTest.loopSize x <= 2 ^ 30 -> ratios_ok x ->
  TestConfig.operations (config (LoopPatternTest.base x)) <= INT_MAX ->
  progress_ok (config (LoopPatternTest.base x)) ->
  exists x3,
    LoopPatternTest.runTest x
    = (_ <- printResults (LoopPatternTest.base x3) ;; Ok x3) /\
    final_statistics
      (TestConfig.operations (config (LoopPatternTest.base x)))
      (LoopPatternTest.base x3).
Proof.
  intros HL Hr Hops Hbar. unfold LoopPatternTest.runTest.
  destruct (loop_run_total LRU x) as (x1 & H1); try assumption.
  rewrite H1. cbn [bind].
  pose proof (loop_run_fields _ _ _ H1) as S1.
  pose proof (loop_run_config _ _ _ H1) as C1. pose proof S1 as (E1 & _).
  destruct (loop_run_total LFU x1) as (x2 & H2);
    try (now rewrite C1); try (now rewrite E1).
  { exact (ratios_ok_same _ _ S1 Hr). }
  rewrite H2. cbn [bind].
  pose proof (loop_run_fields _ _ _ H2) as S2.
  pose proof (loop_run_config _ _ _ H2) as C2. pose proof S2 as (F1 & _).
  destruct (loop_run_total ARC x2) as (x3 & H3);
    try (now rewrite C2, C1); try (now rewrite F1, E1).
  { exact (ratios_ok_same _ _ S2 (ratios_ok_same _ _ S1 Hr)). }
  rewrite H3. cbn [bind]. exists x3. split; [reflexivity|].
  apply (three_runs _ (LoopPatternTest.base x)
           (LoopPatternTest.base x1) (LoopPatternTest.base x2)).
  - exact (loop_run_counts _ _ _ H1).
  - rewrite <- C1. exact (loop_run_counts _ _ _ H2).
  - rewrite <- C1, <- C2. exact (loop_run_counts _ _ _ H3).
  - exact (loop_run_others _ _ _ H2).
  - exact (loop_run_others _ _ _ H3).
Qed.

Lemma loop_runTest_total (x : LoopPatternTest.t) :
  1 <= LoopPatternTest.loopSize x <= 2 ^ 30 -> ratios_ok x ->
  1 <= TestConfig.operations (config (LoopPatternTest.base x)) <= INT_MAX ->
  progress_ok (config (LoopPatternTest.base x)) ->
  exists x', LoopPatternTest.runTest x = Ok x'.
Proof.
  intros HL Hr Hops Hbar.
  destruct (loop_three_runs x) as (x3 & -> & Hst); try assumption; [lia|].
  rewrite (printResults_ok _ _ Hst) by lia. cbn [bind]. eauto.
Qed.

(** X4.  [LoopPatternTest::runTestForCacheType] (lines 285-328)
    completes for every state of an object whose loop holds at least one
    key and at most [2^30] keys (so that the out-of-range keys up to
    [2 * loopSize] fit [int]), with a progress bar that is off or has an
    interval other than 0.  [runTest] over it then completes when there
    is at least one operation; with [config.operations <= 0] no
    operation is counted and [printResults] divides by
    [operations.at(type) == 0]. *)
Theorem loop_run_completes (type : CacheType) (x : LoopPatternTest.t) :
  LoopPatternTest.reachable x ->
  1 <= LoopPatternTest.loopSize x <= 2 ^ 30 ->
  TestConfig.operations (config (LoopPatternTest.base x)) <= INT_MAX ->
  progress_ok (config (LoopPatternTest.base x)) ->
  completes (LoopPatternTest.runTestForCacheType type x) = true /\
  (1 <= TestConfig.operations (config (LoopPatternTest.base x)) ->
   completes (LoopPatternTest.runTest x) = true) /\
  (TestConfig.operations (config (LoopPatternTest.base x)) <= 0 ->
   LoopPatternTest.runTest x = UB DivByZero).
Proof.
  intros Hx HL Hops Hbar. apply loop_reachable_ratios in Hx.
  split; [|split].
  - destruct (loop_run_total type x) as (x' & ->); auto.
  - intros Hn. destruct (loop_runTest_total x) as (x' & ->); auto.
  - intros Hn.
    destruct (loop_three_runs x) as (x3 & -> & Hst); try assumption.
    now rewrite (printResults_fault _ _ Hst).
Qed.
End RunTestCompletion.

Lemma hot_run_completes_witness :
  completes (HotDataAccessTest.runTestForCacheType LRU (hot_small 200)) = true /\
  completes (HotDataAccessTest.runTest (hot_small 200)) = true /\
  HotDataAccessTest.runTest (hot_small 0) = UB DivByZero.
Proof.
  destruct (hot_run_completes LRU (hot_small 200)) as (Hrun & Hall & _).
  - reflexivity.
  - reflexivity.
  - vm_compute. discriminate.
  - vm_compute. discriminate.
  - right. vm_compute. discriminate.
  - destruct (hot_run_completes LRU (hot_small 0)) as (_ & _ & Hnone).
    + reflexivity.
    + reflexivity.
    + vm_compute. discriminate.
    + vm_compute. discriminate.
    + right. vm_compute. discriminate.
    + split; [exact Hrun|]. split.
      * apply Hall. vm_compute. discriminate.
      * apply Hnone. vm_compute. discriminate.
Defined.

Lemma loop_run_completes_witness :
  completes (LoopPatternTest.runTestForCacheType LRU (loop_small 60 300))
  = true /\
  completes (LoopPatternTest.runTest (loop_small 60 300)) = true.
Proof.
  destruct (loop_run_completes LRU (loop_small 60 300)) as (Hrun & Hall & _).
  - apply loop_small_reachable; reflexivity.
  - split; vm_compute; discriminate.
  - vm_compute. discriminate.
  - right. vm_compute. discriminate.
  - split; [exact Hrun|]. apply Hall. vm_compute. discriminate.
Defined.

Lemma run_leaves_other_policies_witness :
  others_kept LRU (HotDataAccessTest.base (hot_small 200))
    (HotDataAccessTest.base (hot_small_end 200)).
Proof.
  destruct (run_leaves_other_policies (H:=Logging linked) LRU)
    as (Hhot & _ & _).
  apply Hhot. vm_compute. reflexivity.
Defined.


(** ** [WorkloadShiftTest]: the whole of [runTest] *)

Section WorkRunTest.
Context `{H : Harness}.
Import WorkloadShiftTest.

Lemma work_run_fields type (x x' : t) :
  runTestForCacheType type x = Ok x' -> same_work x x'.
Proof.
  unfold runTestForCacheType, for_range. intros Hrun.
  inv_bind Hrun. rename a into y. inv_bind Hrun. rename a into L.
  apply work_fill_fields in Ha. destruct Ha as ((E1 & E2 & E3) & _).
  cbn [base with_base initialDataSize phases putProbability] in *.
  apply (for_loop_inv (fun _ z => same_work x z) (access_step type L)
           (Z.to_nat (TestConfig.operations (config (base y)) - 0)) 0 y x');
    [now repeat split| |exact Hrun].
  intros j z z' _ Hz Hs. apply work_access_step in Hs.
  destruct Hs as (phase & key & b & b' & _ & _ & _ & [-> | ->]); exact Hz.
Qed.

Lemma same_work_trans (x y z : t) :
  same_work x y -> same_work y z -> same_work x z.
Proof. intros (E1 & E2 & E3) (F1 & F2 & F3). repeat split; congruence. Qed.

Lemma work_runTest_fields (x x' : t) :
  runTest x = Ok x' ->
  same_work x x' /\ config (base x') = config (base x).
Proof.
  intros Hrun. apply work_runTest_runs in Hrun.
  destruct Hrun as (x1 & x2 & _ & Ha & Ha0 & Hrun & _).
  split.
  - exact (same_work_trans _ _ _ (work_run_fields _ _ _ Ha)
             (same_work_trans _ _ _ (work_run_fields _ _ _ Ha0)
                (work_run_fields _ _ _ Hrun))).
  - apply work_run_config in Ha, Ha0, Hrun. congruence.
Qed.

Lemma work_runTest_total (x : t) :
  1 <= phases x <= TestConfig.operations (config (base x)) ->
  TestConfig.operations (config (base x)) <= INT_MAX ->
  100 < initialDataSize x <= INT_MAX ->
  progress_ok (config (base x)) ->
  exists x', runTest x = Ok x'.
Proof.
  intros Hph Hops Hids Hbar. unfold runTest, printTestParameters.
  destruct (phase_length_ok x Hph Hops) as (-> & _). cbn [bind].
  destruct (work_run_total LRU x) as (x1 & H1); try assumption.
  rewrite H1. cbn [bind].
  pose proof (work_run_fields _ _ _ H1) as (E1 & E2 & _).
  pose proof (work_run_counts _ _ _ H1) as N1.
  apply work_run_config in H1.
  destruct (work_run_total LFU x1) as (x2 & H2);
    rewrite ?H1, ?E1, ?E2; try assumption.
  rewrite H2. cbn [bind].
  pose proof (work_run_fields _ _ _ H2) as (F1 & F2 & _).
  pose proof (work_run_counts _ _ _ H2) as N2.
  pose proof (work_run_others _ _ _ H2) as K2.
  apply work_run_config in H2.
  destruct (work_run_total ARC x2) as (x3 & H3);
    rewrite ?H2, ?H1, ?F1, ?F2, ?E1, ?E2; try assumption.
  rewrite H3. cbn [bind].
  assert (Hst : final_statistics (TestConfig.operations (config (base x)))
                  (base x3)).
  { apply (three_runs _ (base x) (base x1) (base x2)).
    - exact N1.
    - rewrite <- H1. exact N2.
    - rewrite <- H1, <- H2. exact (work_run_counts _ _ _ H3).
    - exact K2.
    - exact (work_run_others _ _ _ H3). }
  rewrite (printResults_ok _ _ Hst) by lia. cbn [bind]. eauto.
Qed.

(** X8.  [WorkloadShiftTest]'s [runTest] (lines 139-167, with
    [printTestParameters], lines 457-470, and the three runs, lines
    378-454) completes when there is at least one operation per phase,
    more than 100 initial keys, and a progress bar that is off or has an
    interval other than 0. *)
Theorem work_runTest_completes (x : t) :
  1 <= phases x <= TestConfig.operations (config (base x)) ->
  TestConfig.operations (config (base x)) <= INT_MAX ->
  100 < initialDataSize x <= INT_MAX ->
  progress_ok (config (base x)) ->
  completes (runTest x) = true.
Proof.
  intros Hph Hops Hids Hbar.
  destruct (work_runTest_total x) as (x' & ->); auto.
Qed.

(** X9.  [WorkloadShiftTest::printTestParameters] (lines 457-470) prints
    [config.operations / phases], and [runTest] calls it before the
    first run (line 146).  After [setPhases(0)] this is a division by
    zero, whatever the other settings, before any cache has been used;
    with [phases == -1] and [config.operations == INT_MIN] the quotient
    overflows [int].  When the quotient exists, [printTestParameters]
    changes nothing. *)
Theorem work_print_parameters (x : t) :
  (phases x = 0 ->
   printTestParameters x = UB DivByZero /\ runTest x = UB DivByZero) /\
  (phases x = -1 -> TestConfig.operations (config (base x)) = INT_MIN ->
   printTestParameters x = UB SignedOverflow /\
   runTest x = UB SignedOverflow) /\
  (phases x <> 0 -> is_int (TestConfig.operations (config (base x))) = true ->
   (phases x <> -1 \/ TestConfig.operations (config (base x)) <> INT_MIN) ->
   printTestParameters x = Ok tt).
Proof.
  unfold runTest, printTestParameters, sdiv. split; [|split].
  - intros ->. split; reflexivity.
  - intros -> ->. split; reflexivity.
  - intros Hp Hint Hne. destruct (Z.eqb_spec (phases x) 0); [contradiction|].
    apply is_int_spec in Hint. unfold INT_MIN, INT_MAX in *.
    rewrite checked_ok; [reflexivity|]. unfold INT_MIN, INT_MAX.
    assert (Hq : Z.abs (Z.quot (TestConfig.operations (config (base x)))
                          (phases x))
                 <= Z.abs (TestConfig.operations (config (base x)))).
    { rewrite <- Z.quot_abs by assumption.
      apply Z.quot_le_upper_bound; [lia|].
      assert (1 <= Z.abs (phases x)) by lia. nia. }
    destruct (Z.eq_dec (phases x) (-1)) as [E|E].
    + rewrite E.
      pose proof (Z.quot_opp_r (TestConfig.operations (config (base x))) 1
                    ltac:(lia)) as Hq1.
      rewrite Z.quot_1_r in Hq1. change (- (1)) with (-1) in Hq1.
      rewrite Hq1. lia.
    + destruct (Z.eq_dec (TestConfig.operations (config (base x)))
                  (- 2 ^ 31)) as [E2|E2]; [|lia].
      rewrite E2 in *.
      destruct (Z.eq_dec (phases x) 1) as [E3|E3].
      * rewrite E3, Z.quot_1_r. lia.
      * assert (2 <= Z.abs (phases x)) by lia.
        assert (Z.abs (Z.quot (- 2 ^ 31) (phases x)) <= 2 ^ 30).
        { rewrite <- Z.quot_abs by assumption.
          apply Z.quot_le_upper_bound; [lia|].
          change (Z.abs (- 2 ^ 31)) with (2 ^ 31). nia. }
        lia.
Qed.

(** X10.  [putProbability] is 30 after the constructor and
    [setPutProbability] (lines 487-491) clamps its argument to
    [[0, 100]]: the field lies in [[0, 100]] in every state an object can
    reach, so that the comparison of line 448, made in the unsigned type
    of [gen() % 100], compares the values themselves. *)
Theorem work_probability_invariant (x : t) :
  reachable x ->
  0 <= putProbability x <= 100 /\
  to_unsigned word_bits (putProbability x) = putProbability x /\
  forall probability,
    putProbability (setPutProbability probability x) = clamp probability.
Proof.
  intros Hx.
  assert (Hp : 0 <= putProbability x <= 100).
  { induction Hx as [g| | | | | | |r x Hx IH Hr|x x' Hx IH Hrun
                     |ty x x' Hx IH Hrun];
      cbn [putProbability new with_base setInitialDataSize setPhases];
      try lia.
    - unfold setPutProbability. cbn [putProbability].
      rewrite clamp_spec. apply clamp_range.
    - apply work_runTest_fields in Hrun.
      destruct Hrun as ((_ & _ & ->) & _). exact IH.
    - apply work_run_fields in Hrun.
      destruct Hrun as (_ & _ & ->). exact IH. }
  split; [exact Hp|]. split.
  - apply to_unsigned_small; [apply word_bits_ge|lia].
  - intros probability. unfold setPutProbability. cbn [putProbability].
    apply clamp_spec.
Qed.
End WorkRunTest.

Lemma work_small_reachable n count :
  is_int n = true -> is_int count = true ->
  WorkloadShiftTest.reachable (work_small n count).
Proof.
  intros Hn Hc. unfold work_small, main_workloadTest.
  apply WorkloadShiftTest.r_setPhases; [|assumption].
  apply WorkloadShiftTest.r_setOperations; [|assumption].
  apply WorkloadShiftTest.r_setPutProbability; [|reflexivity].
  apply WorkloadShiftTest.r_setPhases; [|reflexivity].
  apply WorkloadShiftTest.r_setInitialDataSize; [|reflexivity].
  apply WorkloadShiftTest.r_setOperations; [|reflexivity].
  apply WorkloadShiftTest.r_setCapacity; [|reflexivity].
  apply WorkloadShiftTest.r_new.
Qed.

Lemma work_runTest_completes_witness :
  completes (WorkloadShiftTest.runTest (work_small 40 5)) = true.
Proof.
  apply (work_runTest_completes (work_small 40 5)).
  - split; vm_compute; discriminate.
  - vm_compute. discriminate.
  - split; [reflexivity|vm_compute; discriminate].
  - right. vm_compute. discriminate.
Defined.

Lemma work_print_parameters_witness :
  WorkloadShiftTest.runTest (work_small 40 0) = UB DivByZero /\
  WorkloadShiftTest.runTest (work_small INT_MIN (-1)) = UB SignedOverflow /\
  WorkloadShiftTest.printTestParameters (work_small 40 5) = Ok tt.
Proof.
  destruct (work_print_parameters (work_small 40 0)) as (Hzero & _ & _).
  destruct (work_print_parameters (work_small INT_MIN (-1)))
    as (_ & Hmin & _).
  destruct (work_print_parameters (work_small 40 5)) as (_ & _ & Hok).
  split; [|split].
  - apply Hzero. reflexivity.
  - apply Hmin; reflexivity.
  - apply Hok; [vm_compute; discriminate|reflexivity|].
    left. vm_compute. discriminate.
Defined.

Lemma work_probability_invariant_witness :
  0 <= WorkloadShiftTest.putProbability
         (WorkloadShiftTest.setPutProbability 250 (work_small 40 5)) <= 100.
Proof.
  apply (work_probability_invariant
           (WorkloadShiftTest.setPutProbability 250 (work_small 40 5))).
  apply WorkloadShiftTest.r_setPutProbability; [|reflexivity].
  apply work_small_reachable; reflexivity.
Defined.

(** ** [WorkloadShiftTest]: when an operation writes *)

Section WorkWrites.
Context {H : Harness}.
Import WorkloadShiftTest.

Local Abbreviation T := (@t (Logging H)).

Lemma work_access_events type L op (z z' : T) :
  0 <= putProbability z <= 100 ->
  access_step type L op z = Ok z' ->
  same_work z z' /\
  exists phase key b r,
    sdiv op L = Ok phase /\
    pick_key L op phase z = Ok (key, b) /\
    trace type (base z')
    = trace type (base z)
      ++ work_op_events (putProbability z) key r
           (fst (draw (lookup type key b)) mod 100).
Proof.
  intros Hprob Hs. unfold access_step in Hs.
  inv_bind Hs. rename a into phase. inv_bind Hs.
  inv_bind Hs. destruct a0 as [key b].
  pose proof (work_pick_key _ _ _ _ _ _ Ha1) as Hb.
  destruct (draw (lookup type key b)) as [g b'] eqn:E.
  assert (Hb' : same_but_gen (lookup type key b) b').
  { replace b' with (snd (draw (lookup type key b))) by (now rewrite E).
    apply same_but_gen_draw, same_but_gen_refl. }
  destruct (urem_ok (@word_bits (Logging H)) g 100
              (@word_bits_ge (Logging H))) as [Hu Hw]; [lia|].
  rewrite Hu in Hs. cbn [bind] in Hs.
  rewrite to_unsigned_small in Hs
    by (try apply (@word_bits_ge (Logging H)); lia).
  inv_bind Hs. injection Hs as <-.
  split; [now repeat split|].
  destruct (trace_lookup type key b) as (r & Hr & _).
  assert (Htb' : trace type b' = trace type (base z) ++ [EvGet key r]).
  { rewrite (trace_same_but_gen type _ _ Hb'), Hr.
    now rewrite (trace_same_but_gen type _ _ Hb). }
  exists phase, key, b, r. split; [exact Ha|]. split; [exact Ha1|].
  rewrite E. cbn [fst]. unfold work_op_events. cbn [base with_base].
  destruct (g mod 100 <? putProbability z).
  - rewrite trace_cache_put, Htb', <- app_assoc. reflexivity.
  - exact Htb'.
Qed.

Lemma work_access_writes type (x : T) L n : forall (y y' : T),
  0 <= putProbability x <= 100 ->
  same_work x y ->
  for_loop n 0 (access_step type L) y = Ok y' ->
  exists accesses,
    length accesses = n /\
    trace type (base y') = trace type (base y) ++ concat accesses /\
    forall j, (j < n)%nat ->
      exists z phase key b r,
        for_loop j 0 (access_step type L) y = Ok z /\
        sdiv (Z.of_nat j) L = Ok phase /\
        pick_key L (Z.of_nat j) phase z = Ok (key, b) /\
        nth j accesses []
        = work_op_events (putProbability x) key r
            (fst (draw (lookup type key b)) mod 100).
Proof.
  intros y y' Hprob Hy Hrun.
  destruct (for_loop_trace (fun z : T => trace type (base z))
              (fun j (z : T) =>
                 same_work x z /\
                 for_loop (Z.to_nat j) 0 (access_step type L) y = Ok z)
              (fun j es =>
                 exists z phase key b r,
                   for_loop (Z.to_nat j) 0 (access_step type L) y = Ok z /\
                   sdiv j L = Ok phase /\
                   pick_key L j phase z = Ok (key, b) /\
                   es = work_op_events (putProbability x) key r
                          (fst (draw (lookup type key b)) mod 100))
              (access_step type L) n 0 y y')
    as (_ & ess & Hlen & Htr & Hq);
    [split; [exact Hy|reflexivity]| |exact Hrun|].
  - intros j z z' Hj (Hz & Hpre) Hs. pose proof Hz as (_ & _ & Eq).
    assert (Hnext : for_loop (Z.to_nat (j + 1)) 0 (access_step type L) y
                    = Ok z').
    { replace (Z.to_nat (j + 1)) with (S (Z.to_nat j)) by lia.
      apply (for_loop_snoc _ _ _ _ z z' Hpre).
      now replace (0 + Z.of_nat (Z.to_nat j)) with j by lia. }
    apply work_access_events in Hs; [|now rewrite Eq].
    destruct Hs as (Hz' & phase & key & b & r & Hph & Hp & Htr).
    split; [split; [exact (same_work_trans _ _ _ Hz Hz')|exact Hnext]|].
    eexists. split; [exact Htr|]. rewrite Eq.
    exists z, phase, key, b, r. auto.
  - exists ess. split; [exact Hlen|]. split; [exact Htr|].
    intros j Hj. specialize (Hq j Hj). cbn beta in Hq.
    rewrite Z.add_0_l, Nat2Z.id in Hq. exact Hq.
Qed.

(** X11.  When an operation of [WorkloadShiftTest] writes (lines
    441-451).  Operation [op] starts from the object the fill loop and
    the operations before it left; it picks its key, which leaves the
    generator in some state, makes one [get] of that key, and then
    [put(key, "new" + to_string(key))] exactly when the next word of that
    generator, modulo 100, is below [putProbability].  So with
    [putProbability == 0] the access phase writes nothing, and with
    [putProbability == 100] every [get] is followed by a [put] of the
    same key.  Stated for [0 <= putProbability <= 100], which
    [setPutProbability] enforces. *)
Theorem work_put_probability (type : CacheType) (x x' : T) :
  0 <= putProbability x <= 100 ->
  runTestForCacheType type x = Ok x' ->
  exists L accesses,
    sdiv (TestConfig.operations (config (base x))) (phases x) = Ok L /\
    length accesses = Z.to_nat (TestConfig.operations (config (base x))) /\
    trace type (base x')
    = trace type (base x)
      ++ init_events (Z.to_nat (initialDataSize x)) ++ concat accesses /\
    (forall op,
       0 <= op < TestConfig.operations (config (base x)) ->
       exists z phase key b r,
         work_state_at type x L op z /\
         sdiv op L = Ok phase /\
         pick_key L op phase z = Ok (key, b) /\
         nth (Z.to_nat op) accesses []
         = EvGet key r
           :: (if fst (draw (lookup type key b)) mod 100 <? putProbability x
               then [EvPut key ("new" ++ to_string key)%string] else [])) /\
    (putProbability x = 0 ->
     forall e, In e (concat accesses) -> is_put e = false) /\
    (putProbability x = 100 ->
     forall es, In es accesses ->
       exists key r,
         es = [EvGet key r; EvPut key ("new" ++ to_string key)%string]).
Proof.
  intros Hprob Hrun.
  destruct (resetStats_fields type (base x)) as (Hc0 & _).
  unfold runTestForCacheType in Hrun.
  cbn [base with_base initialDataSize phases] in Hrun.
  inv_bind Hrun. rename a into y. pose proof Ha as Hfill.
  unfold for_range in Ha, Hrun. rewrite !Z.sub_0_r in Ha, Hrun.
  pose proof (work_fill_fields type _ _ _ _ Ha) as (Hy & Hcy).
  pose proof Hy as (_ & Ep & _).
  cbn [base with_base phases] in Hcy, Ep.
  apply work_fill_trace in Ha. cbn [base with_base] in Ha.
  inv_bind Hrun. rename a into L. rewrite Hcy, Hc0 in Hrun, Ha0.
  rewrite Ep in Ha0.
  apply (work_access_writes type x) in Hrun; [|assumption|exact Hy].
  destruct Hrun as (accesses & Hlen & Htr & Hev).
  assert (Hin : forall es, In es accesses ->
            exists key r w,
              0 <= w < 100 /\ es = work_op_events (putProbability x) key r w).
  { intros es Hes. destruct (In_nth _ _ [] Hes) as (j & Hj & <-).
    destruct (Hev j) as (z & phase & key & b & r & _ & _ & _ & ->); [lia|].
    exists key, r, (fst (draw (lookup type key b)) mod 100).
    split; [apply Z.mod_pos_bound; lia|reflexivity]. }
  exists L, accesses. split; [exact Ha0|]. split; [exact Hlen|].
  split; [|split; [|split]].
  - rewrite Htr, Ha, trace_resetStats, app_assoc. reflexivity.
  - intros op Hop.
    destruct (Hev (Z.to_nat op)) as (z & phase & key & b & r & Hz & Hph & Hp & He);
      [lia|].
    rewrite Z2Nat.id in Hph, Hp by lia.
    exists z, phase, key, b, r. split; [|auto].
    exists y. split; [exact Hfill|exact Hz].
  - intros Hz e He. apply in_concat in He.
    destruct He as (es & Hes & He).
    destruct (Hin es Hes) as (key & r & w & Hw & ->).
    unfold work_op_events in He. rewrite Hz in He.
    destruct (Z.ltb_spec w 0); [lia|].
    destruct He as [<-|[]]. reflexivity.
  - intros Hfull es Hes.
    destruct (Hin es Hes) as (key & r & w & Hw & ->).
    unfold work_op_events. rewrite Hfull.
    destruct (Z.ltb_spec w 100); [|lia]. exists key, r. reflexivity.
Qed.
End WorkWrites.

Lemma work_put_probability_witness :
  exists accesses,
    length accesses = 40%nat /\
    trace LRU (WorkloadShiftTest.base (work_small_end 40 5))
    = trace LRU (WorkloadShiftTest.base (work_small 40 5))
      ++ init_events 1000 ++ concat accesses /\
    exists z phase key b r,
      work_state_at LRU (work_small 40 5) 8 39 z /\
      sdiv 39 8 = Ok phase /\
      WorkloadShiftTest.pick_key 8 39 phase z = Ok (key, b) /\
      nth 39 accesses []
      = EvGet key r
        :: (if fst (draw (lookup LRU key b)) mod 100 <? 30
            then [EvPut key ("new" ++ to_string key)%string] else []).
Proof.
  destruct (work_put_probability (H:=linked) LRU (work_small 40 5)
              (work_small_end 40 5))
    as (L & accesses & HL & Hlen & Htr & Hev & _).
  - cbn. lia.
  - vm_compute. reflexivity.
  - exists accesses. split; [exact Hlen|]. split; [exact Htr|].
    assert (E : L = 8).
    { vm_compute in HL. injection HL as <-. reflexivity. }
    subst L. apply (Hev 39). split; vm_compute; [discriminate|reflexivity].
Defined.

(** ** [CacheTestManager] and [main] *)

Section ManagerFacts.
Context `{H : Harness}.

Lemma alter_last (f : test -> test) (l : list test) (t : test) :
  alter f (length l) (l ++ [t]) = l ++ [f t].
Proof. induction l as [|t0 l IH]; [reflexivity|]. cbn. now rewrite IH. Qed.

Lemma run_each_spec (l l' : list test) :
  run_each l = Ok l' <-> Forall2 (fun t t' => test_runTest t = Ok t') l l'.
Proof.
  revert l'. induction l as [|t l IH]; intros l'; cbn [run_each].
  - split.
    + intros E. injection E as <-. constructor.
    + intros E. inversion E. reflexivity.
  - split.
    + intros E. inv_bind E. inv_bind E. injection E as <-.
      constructor; [assumption|]. now apply IH.
    + intros E. inversion E as [|? t' ? l'' Ht Hl]; subst.
      rewrite Ht. cbn [bind]. apply IH in Hl. now rewrite Hl.
Qed.

Lemma run_each_fault (l1 l2 : list test) (t : test) (f : fault) :
  (forall t1, In t1 l1 -> completes (test_runTest t1) = true) ->
  test_runTest t = UB f -> run_each (l1 ++ t :: l2) = UB f.
Proof.
  intros Hl1 Ht. induction l1 as [|t1 l1 IH]; cbn [app run_each].
  - now rewrite Ht.
  - pose proof (Hl1 t1 (or_introl eq_refl)) as H1.
    destruct (test_runTest t1) as [t1'|f1]; [|discriminate].
    cbn [bind]. rewrite IH; [reflexivity|].
    intros t2 H2. apply Hl1. now right.
Qed.

(** X12.  [CacheTestManager] (lines 495-527).  [runAllTests] runs every
    stored test once, in the order of [addTest], each on its own object:
    it completes exactly when each test does, with each object replaced
    by its state after [runTest]; the first test that faults ends the
    loop, and the tests behind it are not run.  The pointer [addTest]
    returns shares the stored object: a member function called through
    it changes the test the manager runs.  After [clearTests] there is
    nothing to run. *)
Theorem manager_runs_in_order (m : CacheTestManager) :
  (forall m',
      runAllTests m = Ok m' <->
      Forall2 (fun t t' => test_runTest t = Ok t') (tests m) (tests m')) /\
  (forall l1 t l2 f,
      tests m = l1 ++ t :: l2 ->
      (forall t1, In t1 l1 -> completes (test_runTest t1) = true) ->
      test_runTest t = UB f ->
      runAllTests m = UB f) /\
  (forall t f,
      through (fst (addTest t m)) f (snd (addTest t m))
      = snd (addTest (f t) m)) /\
  runAllTests (clearTests m) = Ok (clearTests m).
Proof.
  split; [|split; [|split]].
  - intros [l']. unfold runAllTests. cbn [tests]. rewrite <- run_each_spec.
    split; intros E.
    + inv_bind E. injection E as <-. assumption.
    + now rewrite E.
  - intros l1 t l2 f Hm Hl1 Ht. unfold runAllTests.
    now rewrite Hm, (run_each_fault l1 l2 t f Hl1 Ht).
  - intros t f. unfold through, addTest. cbn [fst snd tests].
    now rewrite alter_last.
  - reflexivity.
Qed.

Lemma main_store (g1 g2 g3 : mt19937) :
  main g1 g2 g3
  = runAllTests
      {| tests := [THot (main_hotTest g1); TLoop (main_loopTest g2);
                   TWork (main_workloadTest g3)] |}.
Proof. reflexivity. Qed.

(** X13.  [main] (lines 529-561) runs to its end for every seed of the
    three generators and whatever the cache classes do: the settings it
    makes keep every division away from zero and every key within
    [int].  The three tests ran in the order hot spot, loop, workload
    shift, with the settings made through the pointers of [addTest], and
    each leaves, for each of the three policies, the configured number
    of operations (200000, 100000, 50000) and a number of hits between 0
    and that. *)
Theorem main_completes (g1 g2 g3 : mt19937) :
  exists hotTest loopTest workloadTest,
    main g1 g2 g3
    = Ok {| tests := [THot hotTest; TLoop loopTest; TWork workloadTest] |} /\
    HotDataAccessTest.runTest (main_hotTest g1) = Ok hotTest /\
    LoopPatternTest.runTest (main_loopTest g2) = Ok loopTest /\
    WorkloadShiftTest.runTest (main_workloadTest g3) = Ok workloadTest /\
    final_statistics 200000 (HotDataAccessTest.base hotTest) /\
    final_statistics 100000 (LoopPatternTest.base loopTest) /\
    final_statistics 50000 (WorkloadShiftTest.base workloadTest).
Proof.
  destruct (hot_runTest_total (main_hotTest g1)) as (h & Hh);
    try reflexivity; try (cbn; unfold INT_MAX; lia);
    try (right; cbn; discriminate).
  destruct (loop_runTest_total (main_loopTest g2)) as (l & Hl);
    try reflexivity; try (cbn; unfold INT_MAX; lia);
    try (right; cbn; discriminate).
  { unfold ratios_ok. cbn. lia. }
  destruct (work_runTest_total (main_workloadTest g3)) as (w & Hw);
    try reflexivity; try (cbn; unfold INT_MAX; lia);
    try (right; cbn; discriminate).
  exists h, l, w. split.
  - rewrite main_store. unfold runAllTests.
    cbn [tests run_each test_runTest]. now rewrite Hh, Hl, Hw.
  - repeat (split; [assumption|]). split; [|split].
    + exact (hot_runTest_final _ _ Hh).
    + exact (loop_runTest_final _ _ Hl).
    + exact (work_runTest_final _ _ Hw).
Qed.
End ManagerFacts.

Lemma manager_runs_in_order_witness :
  runAllTests
    {| tests := [THot (hot_small 5); TWork (work_small 40 0);
                 TLoop (loop_small 60 30)] |}
  = UB DivByZero.
Proof.
  destruct (manager_runs_in_order
              {| tests := [THot (hot_small 5); TWork (work_small 40 0);
                           TLoop (loop_small 60 30)] |})
    as (_ & Hfault & _).
  apply (Hfault [THot (hot_small 5)] (TWork (work_small 40 0))
           [TLoop (loop_small 60 30)]).
  - reflexivity.
  - intros t1 [<-|[]]. vm_compute. reflexivity.
  - vm_compute. reflexivity.
Defined.

(** ** The values read back by the loop and the workload tests *)

Section ValuesReadBack.
Context {H : Harness}.

Lemma puts_store_app ok (l evs : list event) :
  puts_store ok l -> puts_store ok evs -> puts_store ok (l ++ evs).
Proof.
  intros Hl He k v Hin. apply in_app_iff in Hin. destruct Hin; auto.
Qed.

Lemma puts_store_put (ok : Z -> string -> Prop) k v :
  ok k v -> puts_store ok [EvPut k v].
Proof. intros Hok k' v' [E|[]]. now injection E as <- <-. Qed.

Lemma puts_store_get ok k r : puts_store ok [EvGet k r].
Proof. intros k' v' [E|[]]. discriminate. Qed.

Lemma caches_store_fresh ok (b : @CacheTest (Logging H)) :
  caches_store ok (initCaches b).
Proof.
  intros type. split.
  - exists (TestConfig.capacity (config b)). destruct type; apply faithful_new.
  - intros k v Hin. destruct type; contradiction.
Qed.

(** One run keeps the invariant when it keeps it on its own trace. *)
Lemma caches_store_run ok ty (b b' : @CacheTest (Logging H)) :
  @touches_only (Logging H) ty b b' ->
  (puts_store ok (trace ty b) -> puts_store ok (trace ty b')) ->
  caches_store ok b -> caches_store ok b'.
Proof.
  intros (Hpres & Hfr) Hputs Hb type.
  destruct (CacheType_eqb ty type) eqn:E.
  - apply CacheType_eqb_eq in E. subst type.
    destruct (Hb ty) as ((cap & Hf) & Hp). split; [|auto].
    exists cap. apply Hpres; [apply faithful_preserved|assumption].
  - assert (Hne : type <> ty).
    { intros ->. rewrite (proj2 (CacheType_eqb_eq ty ty) eq_refl) in E.
      discriminate. }
    unfold trace. rewrite (Hfr type Hne). apply Hb.
Qed.

(** With caches that have no phantoms, what a hit returns was written. *)
Lemma caches_store_hit ok (b : @CacheTest (Logging H)) type :
  caches_store ok b ->
  (forall cap, no_phantoms (@constructor H type cap)) ->
  forall k v, In (EvGet k (Some v)) (trace type b) -> ok k v.
Proof.
  intros Hb Hnp k v Hin. destruct (Hb type) as ((cap & Hf) & Hp).
  apply Hp. exact (faithful_hit _ _ (Hnp cap) Hf k v Hin).
Qed.

Lemma loop_run_puts type (x x' : @LoopPatternTest.t (Logging H)) :
  LoopPatternTest.runTestForCacheType type x = Ok x' ->
  puts_store loop_written (trace type (LoopPatternTest.base x)) ->
  puts_store loop_written (trace type (LoopPatternTest.base x')).
Proof.
  unfold LoopPatternTest.runTestForCacheType, for_range. intros Hrun Hold.
  inv_bind Hrun. rename a into y. inv_bind Hrun. injection Hrun as <-.
  assert (Hy : puts_store loop_written (trace type (LoopPatternTest.base y))).
  { refine (for_loop_inv
             (fun _ z => puts_store loop_written
                           (trace type (LoopPatternTest.base z)))
             _ _ _ _ _ _ _ Ha); cbn beta.
    { cbn [LoopPatternTest.base LoopPatternTest.with_base].
      now rewrite trace_resetStats. }
    intros j z z' _ Hz Hs. apply loop_fill_step in Hs. subst z'.
    cbn [LoopPatternTest.base LoopPatternTest.with_base].
    rewrite trace_cache_put. apply puts_store_app; [exact Hz|].
    now apply puts_store_put. }
  refine (for_loop_inv
           (fun _ (st : @LoopPatternTest.t (Logging H) * Z) =>
              puts_store loop_written
                (trace type (LoopPatternTest.base (fst st))))
           _ _ _ (y, 0) _ Hy _ Ha0).
  intros j [z pos] [z' pos'] _ Hz Hs. apply loop_access_step in Hs.
  destruct Hs as (key & b & Hp & ->). apply loop_pick_key in Hp.
  cbn [fst LoopPatternTest.base LoopPatternTest.with_base] in *.
  destruct (trace_lookup type key b) as (r & -> & _).
  rewrite (trace_same_but_gen type _ _ Hp).
  apply puts_store_app; [exact Hz|apply puts_store_get].
Qed.

Lemma loop_reachable_store (x : @LoopPatternTest.t (Logging H)) :
  LoopPatternTest.reachable x ->
  caches_store loop_written (LoopPatternTest.base x).
Proof.
  assert (Hstep : forall ty (y y' : @LoopPatternTest.t (Logging H)),
            caches_store loop_written (LoopPatternTest.base y) ->
            LoopPatternTest.runTestForCacheType ty y = Ok y' ->
            caches_store loop_written (LoopPatternTest.base y')).
  { intros ty y y' Hy Hr.
    exact (caches_store_run _ ty _ _ (loop_run_touches ty y y' Hr)
             (loop_run_puts ty y y' Hr) Hy). }
  induction 1 as [g|c x Hx IH Hc|n x Hx IH Hn|s x Hx IH|i x Hx IH Hi
                 |c x Hx IH Hc|c x Hx IH Hc|r x Hx IH Hr|x x' Hx IH Hrun
                 |ty x x' Hx IH Hrun];
    try exact IH; try apply caches_store_fresh.
  - apply loop_runTest_runs in Hrun.
    destruct Hrun as (x1 & x2 & Ha & Ha0 & Hrun & _).
    eapply Hstep; [|exact Hrun]. eapply Hstep; [|exact Ha0].
    eapply Hstep; [|exact Ha]. exact IH.
  - exact (Hstep ty x x' IH Hrun).
Qed.

(** X14.  [LoopPatternTest] writes ["loop" + to_string(key)] for a key
    and nothing else (line 296): in every state an object reaches through
    the constructor, the setters and [runTest], each of its three caches
    was given only such values, and, with caches that have no phantoms,
    every [get] that hit returned that string for its key. *)
Theorem loop_values_read_back (x : @LoopPatternTest.t (Logging H))
  (type : CacheType) :
  LoopPatternTest.reachable x ->
  (forall k v,
      In (EvPut k v) (trace type (LoopPatternTest.base x)) ->
      v = ("loop" ++ to_string k)%string) /\
  ((forall cap, no_phantoms (@constructor H type cap)) ->
   forall k v,
     In (EvGet k (Some v)) (trace type (LoopPatternTest.base x)) ->
     v = ("loop" ++ to_string k)%string).
Proof.
  intros Hx. apply loop_reachable_store in Hx. split.
  - apply (Hx type).
  - intros Hnp. exact (caches_store_hit _ _ type Hx Hnp).
Qed.

Lemma work_run_puts type (x x' : @WorkloadShiftTest.t (Logging H)) :
  WorkloadShiftTest.runTestForCacheType type x = Ok x' ->
  puts_store work_written (trace type (WorkloadShiftTest.base x)) ->
  puts_store work_written (trace type (WorkloadShiftTest.base x')).
Proof.
  unfold WorkloadShiftTest.runTestForCacheType, for_range. intros Hrun Hold.
  inv_bind Hrun. rename a into y. inv_bind Hrun. rename a into L.
  assert (Hy : puts_store work_written
                 (trace type (WorkloadShiftTest.base y))).
  { refine (for_loop_inv
             (fun _ z => puts_store work_written
                           (trace type (WorkloadShiftTest.base z)))
             _ _ _ _ _ _ _ Ha); cbn beta.
    { cbn [WorkloadShiftTest.base WorkloadShiftTest.with_base].
      now rewrite trace_resetStats. }
    intros j z z' _ Hz Hs. apply work_fill_step in Hs. subst z'.
    cbn [WorkloadShiftTest.base WorkloadShiftTest.with_base].
    rewrite trace_cache_put. apply puts_store_app; [exact Hz|].
    apply puts_store_put. now left. }
  refine (for_loop_inv
           (fun _ z => puts_store work_written
                         (trace type (WorkloadShiftTest.base z)))
           _ _ _ _ _ Hy _ Hrun).
  intros j z z' _ Hz Hs. apply work_access_step in Hs.
  destruct Hs as (phase & key & b & b' & _ & Hp & Hb' & Hz').
  apply work_pick_key in Hp.
  destruct (trace_lookup type key b) as (r & Hr & _).
  assert (Htb' : puts_store work_written (trace type b')).
  { rewrite (trace_same_but_gen type _ _ Hb'), Hr.
    rewrite (trace_same_but_gen type _ _ Hp).
    apply puts_store_app; [exact Hz|apply puts_store_get]. }
  destruct Hz' as [-> | ->];
    cbn [WorkloadShiftTest.base WorkloadShiftTest.with_base];
    [exact Htb'|].
  rewrite trace_cache_put. apply puts_store_app; [exact Htb'|].
  apply puts_store_put. now right.
Qed.

Lemma work_reachable_store (x : @WorkloadShiftTest.t (Logging H)) :
  WorkloadShiftTest.reachable x ->
  caches_store work_written (WorkloadShiftTest.base x).
Proof.
  assert (Hstep : forall ty (y y' : @WorkloadShiftTest.t (Logging H)),
            caches_store work_written (WorkloadShiftTest.base y) ->
            WorkloadShiftTest.runTestForCacheType ty y = Ok y' ->
            caches_store work_written (WorkloadShiftTest.base y')).
  { intros ty y y' Hy Hr.
    exact (caches_store_run _ ty _ _ (work_run_touches ty y y' Hr)
             (work_run_puts ty y y' Hr) Hy). }
  induction 1 as [g|c x Hx IH Hc|n x Hx IH Hn|s x Hx IH|i x Hx IH Hi
                 |c x Hx IH Hc|c x Hx IH Hc|r x Hx IH Hr|x x' Hx IH Hrun
                 |ty x x' Hx IH Hrun];
    try exact IH; try apply caches_store_fresh.
  - apply work_runTest_runs in Hrun.
    destruct Hrun as (x1 & x2 & _ & Ha & Ha0 & Hrun & _).
    eapply Hstep; [|exact Hrun]. eapply Hstep; [|exact Ha0].
    eapply Hstep; [|exact Ha]. exact IH.
  - exact (Hstep ty x x' IH Hrun).
Qed.

(** X15.  [WorkloadShiftTest] writes ["init" + to_string(key)] in its
    fill phase (line 388) and ["new" + to_string(key)] in its access
    phase (line 449), nothing else: in every state an object reaches
    through the constructor, the setters and [runTest], each of its
    caches was given only such values, and, with caches that have no
    phantoms, every [get] that hit returned one of the two strings of its
    key. *)
Theorem work_values_read_back (x : @WorkloadShiftTest.t (Logging H))
  (type : CacheType) :
  WorkloadShiftTest.reachable x ->
  (forall k v,
      In (EvPut k v) (trace type (WorkloadShiftTest.base x)) ->
      v = ("init" ++ to_string k)%string \/
      v = ("new" ++ to_string k)%string) /\
  ((forall cap, no_phantoms (@constructor H type cap)) ->
   forall k v,
     In (EvGet k (Some v)) (trace type (WorkloadShiftTest.base x)) ->
     v = ("init" ++ to_string k)%string \/
     v = ("new" ++ to_string k)%string).
Proof.
  intros Hx. apply work_reachable_store in Hx. split.
  - apply (Hx type).
  - intros Hnp. exact (caches_store_hit _ _ type Hx Hnp).
Qed.
End ValuesReadBack.

Lemma loop_values_read_back_witness :
  exists x',
    LoopPatternTest.runTest (loop_small 60 300) = Ok x' /\
    forall k v,
      In (EvGet k (Some v)) (trace LRU (LoopPatternTest.base x')) ->
      v = ("loop" ++ to_string k)%string.
Proof.
  destruct (loop_runTest_total (loop_small 60 300)) as (x' & Hx').
  - split; vm_compute; discriminate.
  - apply loop_reachable_ratios. apply loop_small_reachable; reflexivity.
  - split; vm_compute; discriminate.
  - right. vm_compute. discriminate.
  - exists x'. split; [exact Hx'|].
    apply (loop_values_read_back (H:=linked) x' LRU).
    + apply (LoopPatternTest.r_runTest (loop_small 60 300));
        [apply loop_small_reachable; reflexivity|exact Hx'].
    + intros cap. apply lru_no_phantoms.
Defined.

Lemma work_values_read_back_witness :
  exists x',
    WorkloadShiftTest.runTest (work_small 40 5) = Ok x' /\
    forall k v,
      In (EvGet k (Some v)) (trace LRU (WorkloadShiftTest.base x')) ->
      v = ("init" ++ to_string k)%string \/
      v = ("new" ++ to_string k)%string.
Proof.
  destruct (work_runTest_total (work_small 40 5)) as (x' & Hx').
  - split; vm_compute; discriminate.
  - vm_compute. discriminate.
  - split; [reflexivity|vm_compute; discriminate].
  - right. vm_compute. discriminate.
  - exists x'. split; [exact Hx'|].
    apply (work_values_read_back (H:=linked) x' LRU).
    + apply (WorkloadShiftTest.r_runTest (work_small 40 5));
        [apply work_small_reachable; reflexivity|exact Hx'].
    + intros cap. apply lru_no_phantoms.
Defined.

(** ** [HotDataAccessTest]: the keys as a function of the generator *)

Section GeneratorFacts.
Context `{H : Harness}.

Lemma gen_draw (b : CacheTest) :
  fst (draw b) = word_at (gen b) 0 /\
  words (gen (snd (draw b))) = words (gen b) /\
  drawn (gen (snd (draw b))) = S (drawn (gen b)).
Proof. unfold word_at. rewrite Nat.add_0_r. repeat split. Qed.

Lemma gen_cache_put type k v (b : CacheTest) :
  gen (cache_put type k v b) = gen b.
Proof. reflexivity. Qed.

Lemma gen_lookup type k (b : CacheTest) : gen (lookup type k b) = gen b.
Proof. unfold lookup. now destruct (get k (getCache type b)). Qed.

Lemma gen_resetStats type (b : CacheTest) : gen (resetStats type b) = gen b.
Proof. reflexivity. Qed.
End GeneratorFacts.

Section HotGenerator.
Context {H : Harness}.
Import HotDataAccessTest.

Local Abbreviation T := (@t (Logging H)).

(** A loop of [n] iterations that draws one word per iteration. *)
Lemma hot_loop_words (body : Z -> T -> res T) (Inv : T -> Prop)
  (R : Z -> Z -> event -> Prop) type n (y y' : T) :
  (forall j (z z' : T), Inv z -> body j z = Ok z' ->
     Inv z' /\
     exists e,
       trace type (base z') = trace type (base z) ++ [e] /\
       R j (word_at (gen (base z)) 0) e /\
       words (gen (base z')) = words (gen (base z)) /\
       drawn (gen (base z')) = S (drawn (gen (base z)))) ->
  Inv y ->
  for_loop n 0 body y = Ok y' ->
  Inv y' /\
  words (gen (base y')) = words (gen (base y)) /\
  drawn (gen (base y')) = (drawn (gen (base y)) + n)%nat /\
  exists evs,
    trace type (base y') = trace type (base y) ++ evs /\
    length evs = n /\
    forall j, (j < n)%nat ->
      exists e, nth_error evs j = Some e /\
                R (Z.of_nat j) (word_at (gen (base y)) j) e.
Proof.
  intros Hbody Hy Hrun.
  destruct (for_loop_trace (fun z : T => trace type (base z))
              (fun j (z : T) =>
                 Inv z /\
                 words (gen (base z)) = words (gen (base y)) /\
                 Z.of_nat (drawn (gen (base z)))
                 = Z.of_nat (drawn (gen (base y))) + j)
              (fun j evs =>
                 exists e, evs = [e] /\
                           R j (word_at (gen (base y)) (Z.to_nat j)) e)
              body n 0 y y') as ((Hi & Hw & Hd) & ess & Hlen & Htr & Hq);
    [split; [exact Hy|split; [reflexivity|lia]]| |exact Hrun|].
  - intros j z z' Hj (Hz & Hw & Hd) Hs.
    destruct (Hbody j z z' Hz Hs) as (Hz' & e & Htr & He & Hw' & Hd').
    split; [split; [exact Hz'|split; [congruence|lia]]|].
    exists [e]. split; [exact Htr|]. exists e. split; [reflexivity|].
    replace (word_at (gen (base y)) (Z.to_nat j))
      with (word_at (gen (base z)) 0); [exact He|].
    unfold word_at. rewrite Hw. do 2 f_equal. lia.
  - split; [exact Hi|]. split; [exact Hw|]. split; [lia|].
    destruct (concat_singletons
                (fun j e => R j (word_at (gen (base y)) (Z.to_nat j)) e)
                ess 0) as (Hl & Hn).
    { intros j Hj. rewrite Hlen in Hj. apply (Hq j Hj). }
    exists (concat ess). rewrite Hl, Hlen. repeat split; auto.
    intros j Hj. rewrite <- Hlen in Hj.
    destruct (Hn j Hj) as (e & He & HR). exists e. split; [exact He|].
    cbn [Z.add] in HR. now rewrite Nat2Z.id in HR.
Qed.

Lemma hot_fill_words type (x y y' : T) n :
  same_hot x y ->
  for_loop n 0 (fill_step type) y = Ok y' ->
  same_hot x y' /\
  words (gen (base y')) = words (gen (base y)) /\
  drawn (gen (base y')) = (drawn (gen (base y)) + n)%nat /\
  exists puts,
    trace type (base y') = trace type (base y) ++ puts /\
    length puts = n /\
    forall j, (j < n)%nat ->
      exists e, nth_error puts j = Some e /\
                hot_put_of x (Z.of_nat j) (word_at (gen (base y)) j) e.
Proof.
  intros Hy Hrun.
  apply (hot_loop_words (fill_step type) (same_hot x) (hot_put_of x)
           type n y y'); [|exact Hy|exact Hrun].
  intros j z z' Hz Hs. apply hot_fill_step in Hs.
  destruct Hs as (key & Hk & ->).
  destruct (gen_draw (base z)) as (Hg & Hw & Hd).
  split; [exact Hz|].
  exists (EvPut key (hot_value key)). cbn [base with_base].
  rewrite trace_cache_put, trace_draw, gen_cache_put.
  split; [reflexivity|]. split; [|auto].
  exists key. split; [|reflexivity].
  rewrite <- Hg. now rewrite <- (hot_choice_same x z).
Qed.

Lemma hot_access_words type (x y y' : T) n :
  same_hot x y ->
  for_loop n 0 (access_step type) y = Ok y' ->
  same_hot x y' /\
  words (gen (base y')) = words (gen (base y)) /\
  drawn (gen (base y')) = (drawn (gen (base y)) + n)%nat /\
  exists gets,
    trace type (base y') = trace type (base y) ++ gets /\
    length gets = n /\
    forall j, (j < n)%nat ->
      exists e, nth_error gets j = Some e /\
                hot_get_of x (Z.of_nat j) (word_at (gen (base y)) j) e.
Proof.
  intros Hy Hrun.
  apply (hot_loop_words (access_step type) (same_hot x) (hot_get_of x)
           type n y y'); [|exact Hy|exact Hrun].
  intros j z z' Hz Hs. apply hot_access_step in Hs.
  destruct Hs as (key & Hk & ->).
  destruct (gen_draw (base z)) as (Hg & Hw & Hd).
  split; [exact Hz|].
  destruct (trace_lookup type key (snd (draw (base z)))) as (r & Hr & _).
  exists (EvGet key r). cbn [base with_base].
  rewrite Hr, trace_draw, gen_lookup.
  split; [reflexivity|]. split; [|auto].
  exists key, r. split; [|reflexivity].
  rewrite <- Hg. now rewrite <- (hot_choice_same x z).
Qed.

Lemma hot_run_words type (x x' : T) :
  runTestForCacheType type x = Ok x' ->
  same_hot x x' /\
  words (gen (base x')) = words (gen (base x)) /\
  drawn (gen (base x'))
  = (drawn (gen (base x))
     + 2 * Z.to_nat (TestConfig.operations (config (base x))))%nat /\
  exists puts gets,
    trace type (base x') = trace type (base x) ++ puts ++ gets /\
    length puts = Z.to_nat (TestConfig.operations (config (base x))) /\
    length gets = Z.to_nat (TestConfig.operations (config (base x))) /\
    forall j,
      (j < Z.to_nat (TestConfig.operations (config (base x))))%nat ->
      exists e e',
        nth_error puts j = Some e /\
        hot_put_of x (Z.of_nat j) (word_at (gen (base x)) j) e /\
        nth_error gets j = Some e' /\
        hot_get_of x (Z.of_nat j)
          (word_at (gen (base x))
             (Z.to_nat (TestConfig.operations (config (base x))) + j)) e'.
Proof.
  unfold runTestForCacheType, for_range. intros Hrun.
  inv_bind Hrun. rename a into y.
  destruct (resetStats_fields type (base x)) as (Hc0 & _).
  cbn [base with_base] in *. rewrite Hc0, Z.sub_0_r in *.
  set (n := Z.to_nat (TestConfig.operations (config (base x)))) in *.
  apply (hot_fill_words type x) in Ha; [|now repeat split].
  cbn [base with_base] in Ha. rewrite gen_resetStats, trace_resetStats in Ha.
  destruct Ha as (Hy & Hw1 & Hd1 & puts & Htr1 & Hl1 & Hev1).
  apply (hot_access_words type x) in Hrun; [|exact Hy].
  destruct Hrun as (Hx' & Hw2 & Hd2 & gets & Htr2 & Hl2 & Hev2).
  split; [exact Hx'|]. split; [congruence|]. split; [lia|].
  exists puts, gets. split; [now rewrite Htr2, Htr1, app_assoc|].
  split; [exact Hl1|]. split; [exact Hl2|].
  intros j Hj. destruct (Hev1 j Hj) as (e & He & Hp).
  destruct (Hev2 j Hj) as (e' & He' & Hg).
  exists e, e'. repeat split; try assumption.
  replace (word_at (gen (base x)) (n + j)) with (word_at (gen (base y)) j);
    [exact Hg|].
  unfold word_at. rewrite Hw1, Hd1. do 2 f_equal. lia.
Qed.

(** X16.  The keys of a run of [HotDataAccessTest] as a function of the
    generator (lines 215-245).  Each iteration of either loop calls
    [gen()] once: with [n = max(0, config.operations)], the put of
    operation [j] takes its key from the [j]-th word the generator yields
    from its state at the start of the run and the get of operation [j]
    from the [(n + j)]-th, so a put and the get of the same index are
    driven by different words, and the run leaves the generator [2 n]
    words further.  [runTest] does not reseed between the policies: LRU,
    LFU and ARC are driven by three consecutive stretches of [2 n] words
    each, not by one common key sequence. *)
Theorem hot_run_generator (type : CacheType) (x x' : T) :
  runTestForCacheType type x = Ok x' ->
  words (gen (base x')) = words (gen (base x)) /\
  drawn (gen (base x'))
  = (drawn (gen (base x))
     + 2 * Z.to_nat (TestConfig.operations (config (base x))))%nat /\
  (exists puts gets,
      trace type (base x') = trace type (base x) ++ puts ++ gets /\
      length puts = Z.to_nat (TestConfig.operations (config (base x))) /\
      length gets = Z.to_nat (TestConfig.operations (config (base x))) /\
      forall j,
        (j < Z.to_nat (TestConfig.operations (config (base x))))%nat ->
        exists k k' r,
          hot_choice x (Z.of_nat j) (word_at (gen (base x)) j) = Ok k /\
          nth_error puts j = Some (EvPut k ("value" ++ to_string k)%string) /\
          hot_choice x (Z.of_nat j)
            (word_at (gen (base x))
               (Z.to_nat (TestConfig.operations (config (base x))) + j))
          = Ok k' /\
          nth_error gets j = Some (EvGet k' r)) /\
  (forall x1 x2 x3 : T,
      runTestForCacheType LRU x = Ok x1 ->
      runTestForCacheType LFU x1 = Ok x2 ->
      runTestForCacheType ARC x2 = Ok x3 ->
      drawn (gen (base x1))
      = (drawn (gen (base x))
         + 2 * Z.to_nat (TestConfig.operations (config (base x))))%nat /\
      drawn (gen (base x2))
      = (drawn (gen (base x))
         + 4 * Z.to_nat (TestConfig.operations (config (base x))))%nat /\
      drawn (gen (base x3))
      = (drawn (gen (base x))
         + 6 * Z.to_nat (TestConfig.operations (config (base x))))%nat).
Proof.
  intros Hrun.
  destruct (hot_run_words type x x' Hrun)
    as (_ & Hw & Hd & puts & gets & Htr & Hl1 & Hl2 & Hev).
  split; [exact Hw|]. split; [exact Hd|]. split.
  - exists puts, gets. split; [exact Htr|]. split; [exact Hl1|].
    split; [exact Hl2|]. intros j Hj.
    destruct (Hev j Hj) as (e & e' & He & (k & Hk & ->) & He'
                            & (k' & r & Hk' & ->)).
    exists k, k', r. auto.
  - intros x1 x2 x3 H1 H2 H3.
    pose proof (hot_run_fields _ _ _ H1) as (_ & _ & _ & E1).
    pose proof (hot_run_fields _ _ _ H2) as (_ & _ & _ & E2).
    apply hot_run_words in H1, H2, H3.
    destruct H1 as (_ & _ & D1 & _). destruct H2 as (_ & _ & D2 & _).
    destruct H3 as (_ & _ & D3 & _). rewrite E2, E1 in D3. rewrite E1 in D2.
    lia.
Qed.
End HotGenerator.

Lemma hot_run_generator_witness :
  drawn (gen (HotDataAccessTest.base (hot_small_end 200))) = 400%nat.
Proof.
  destruct (hot_run_generator (H:=linked) LRU (hot_small 200)
              (hot_small_end 200)) as (_ & Hd & _).
  - vm_compute. reflexivity.
  - exact Hd.
Defined.

(** ** [WorkloadShiftTest]: key ranges that are empty *)

Section WorkEdges.
Context `{H : Harness}.
Import WorkloadShiftTest.

Lemma work_access_fault type (x : t) L op f :
  0 <= op <= INT_MAX -> 1 <= L ->
  pick_key L op (Z.quot op L) x = UB f ->
  access_step type L op x = UB f.
Proof.
  intros Hop HL Hp. unfold access_step.
  rewrite sdiv_ok by (try apply int_of_bounds; lia). cbn [bind].
  rewrite srem_ok by (try apply int_of_bounds; lia). cbn [bind].
  now rewrite Hp.
Qed.

(** X17.  Two key ranges of [WorkloadShiftTest] can be empty (lines
    410-439).  In a phase with [phase % 5 == 1] the key is
    [gen() % initialDataSize]: after [setInitialDataSize(0)] the
    operation divides by zero.  In a phase with [phase % 5 == 4] the
    third branch, taken when the first word drawn is at least 60 modulo
    100, computes [gen() % (initialDataSize - 100)]: with
    [initialDataSize == 100] the operation divides by zero. *)
Theorem work_key_edge_cases (type : CacheType) (x : t) (L op : Z) :
  0 <= op <= INT_MAX -> 1 <= L ->
  (Z.rem (Z.quot op L) 5 = 1 -> initialDataSize x = 0 ->
   access_step type L op x = UB DivByZero) /\
  (Z.rem (Z.quot op L) 5 = 4 -> initialDataSize x = 100 ->
   60 <= word_at (gen (base x)) 0 mod 100 ->
   access_step type L op x = UB DivByZero).
Proof.
  intros Hop HL. split.
  - intros Hsel Hids. apply work_access_fault; try assumption.
    unfold pick_key. rewrite Hsel, Hids. cbn [Z.eqb Pos.eqb].
    destruct (draw (base x)) as [g b]. now rewrite urem_zero.
  - intros Hsel Hids Hw. apply work_access_fault; try assumption.
    unfold pick_key. rewrite Hsel, Hids. cbn [Z.eqb Pos.eqb].
    destruct (gen_draw (base x)) as (Hg & _).
    destruct (draw (base x)) as [g b]. cbn [fst] in Hg. subst g.
    assert (Hrange : 0 <= word_at (gen (base x)) 0 < 2 ^ 32).
    { unfold word_at. apply Z.mod_pos_bound. lia. }
    destruct (urem_ok word_bits (word_at (gen (base x)) 0) 100 word_bits_ge)
      as [-> Hr]; [lia|].
    cbn [bind]. rewrite to_int_small by lia.
    destruct (Z.ltb_spec (word_at (gen (base x)) 0 mod 100) 30); [lia|].
    destruct (Z.ltb_spec (word_at (gen (base x)) 0 mod 100) 60); [lia|].
    change (ssub 100 100) with (@Ok Z 0). cbn [bind].
    destruct (draw b) as [g2 b2].
    unfold offset_urem. now rewrite urem_zero.
Qed.
End WorkEdges.

Lemma work_key_edge_cases_witness :
  WorkloadShiftTest.access_step LRU 8 8
    (WorkloadShiftTest.setInitialDataSize 0 (work_small 40 5))
  = UB DivByZero /\
  WorkloadShiftTest.access_step LRU 8 32
    (WorkloadShiftTest.setInitialDataSize 100
       (WorkloadShiftTest.new (H:=linked)
          {| words := fun _ => 77; drawn := 0 |}))
  = UB DivByZero.
Proof.
  destruct (work_key_edge_cases LRU
              (WorkloadShiftTest.setInitialDataSize 0 (work_small 40 5)) 8 8)
    as (Hzero & _); [split; vm_compute; discriminate|vm_compute; discriminate|].
  destruct (work_key_edge_cases LRU
              (WorkloadShiftTest.setInitialDataSize 100
                 (WorkloadShiftTest.new (H:=linked)
                    {| words := fun _ => 77; drawn := 0 |})) 8 32)
    as (_ & Hfull); [split; vm_compute; discriminate|vm_compute; discriminate|].
  split.
  - apply Hzero; reflexivity.
  - apply Hfull; [reflexivity|reflexivity|vm_compute; discriminate].
Defined.

(** ** The counters of a run and the answers of the cache *)

Section LoggedCounts.
Context {H : Harness}.

Lemma count_events_app p (l1 l2 : list event) :
  count_events p (l1 ++ l2) = count_events p l1 + count_events p l2.
Proof. unfold count_events. rewrite filter_app, length_app. lia. Qed.

Lemma count_events_puts p (l : list event) :
  (forall e, In e l -> is_put e = true) ->
  (forall e, is_put e = true -> p e = false) ->
  count_events p l = 0.
Proof.
  intros Hl Hp. unfold count_events.
  induction l as [|e l IH]; [reflexivity|]. cbn [filter].
  rewrite (Hp e) by (apply Hl; now left). apply IH.
  intros e' He'. apply Hl. now right.
Qed.

Lemma counts_logged_refl type (b : @CacheTest (Logging H)) :
  counts_logged type b b [].
Proof.
  split; [now rewrite app_nil_r|]. unfold count_events.
  cbn [filter length Z.of_nat]. split; lia.
Qed.

Lemma counts_logged_trans type (b0 b1 b2 : @CacheTest (Logging H)) l1 l2 :
  counts_logged type b0 b1 l1 -> counts_logged type b1 b2 l2 ->
  counts_logged type b0 b2 (l1 ++ l2).
Proof.
  intros (T1 & O1 & H1) (T2 & O2 & H2). unfold counts_logged.
  rewrite !count_events_app, T2, T1, app_assoc. repeat split; lia.
Qed.

Lemma counts_logged_one type (b b' : @CacheTest (Logging H)) :
  counts_logged_get type b b' -> exists evs, counts_logged type b b' evs.
Proof.
  intros (key & r & rest & Htr & Hrest & Ho & Hh).
  exists (EvGet key r :: rest). split; [exact Htr|].
  change (EvGet key r :: rest) with ([EvGet key r] ++ rest).
  rewrite !count_events_app.
  rewrite (count_events_puts is_get rest Hrest)
    by (intros e He; unfold is_get; now rewrite He).
  rewrite (count_events_puts is_hit rest Hrest)
    by (intros [k v|k v]; [reflexivity|discriminate]).
  rewrite Ho, Hh. unfold count_events. cbn [filter is_get is_put negb length].
  split; [lia|]. destruct (is_hit (EvGet key r)); cbn [length]; lia.
Qed.

Lemma counts_logged_put type key v (b0 b : @CacheTest (Logging H)) :
  same_but_gen b0 b ->
  counts_logged type b0 (cache_put type key v b) [EvPut key v].
Proof.
  intros Hb. pose proof Hb as (_ & Hh & Ho & _).
  destruct (cache_put_fields type key v b) as (_ & Hh' & Ho' & _).
  split; [|split].
  - now rewrite trace_cache_put, (trace_same_but_gen type _ _ Hb).
  - rewrite Ho', Ho. unfold count_events. cbn. lia.
  - rewrite Hh', Hh. unfold count_events. cbn. lia.
Qed.

Lemma loop_counts_logged {St : Type} (proj : St -> @CacheTest (Logging H))
  type (body : Z -> St -> res St) :
  (forall j z z', body j z = Ok z' ->
                  exists evs, counts_logged type (proj z) (proj z') evs) ->
  forall n i z z',
    for_loop n i body z = Ok z' ->
    exists evs, counts_logged type (proj z) (proj z') evs.
Proof.
  intros Hbody n i z z' Hrun.
  apply (for_loop_inv
           (fun _ y => exists evs, counts_logged type (proj z) (proj y) evs)
           body n i z z'); [eexists; apply counts_logged_refl| |exact Hrun].
  intros j y y' _ (l1 & H1) Hs. destruct (Hbody _ _ _ Hs) as (l2 & H2).
  exists (l1 ++ l2). exact (counts_logged_trans _ _ _ _ _ _ H1 H2).
Qed.

(** After the reset of a run, the counters are the counts themselves. *)
Lemma counts_logged_run type (b b' : @CacheTest (Logging H)) evs :
  counts_logged type (resetStats type b) b' evs ->
  trace type b' = trace type b ++ evs /\
  operations b' type = count_events is_get evs /\
  hits b' type = count_events is_hit evs.
Proof.
  intros (Htr & Ho & Hh).
  destruct (resetStats_fields type b) as (_ & Hh0 & Ho0 & _).
  rewrite trace_resetStats in Htr. rewrite Ho0 in Ho. rewrite Hh0 in Hh.
  repeat split; [exact Htr|lia|lia].
Qed.

Lemma hot_run_logged type (x x' : @HotDataAccessTest.t (Logging H)) :
  HotDataAccessTest.runTestForCacheType type x = Ok x' ->
  exists evs,
    counts_logged type (resetStats type (HotDataAccessTest.base x))
      (HotDataAccessTest.base x') evs.
Proof.
  unfold HotDataAccessTest.runTestForCacheType, for_range. intros Hrun.
  inv_bind Hrun. rename a into y.
  apply (loop_counts_logged HotDataAccessTest.base type) in Ha.
  - apply (loop_counts_logged HotDataAccessTest.base type) in Hrun.
    + destruct Ha as (l1 & H1). destruct Hrun as (l2 & H2).
      exists (l1 ++ l2). exact (counts_logged_trans _ _ _ _ _ _ H1 H2).
    + intros j z z' Hs. apply counts_logged_one.
      exact (hot_access_logged type j z z' Hs).
  - intros j z z' Hs. apply hot_fill_step in Hs.
    destruct Hs as (key & _ & ->). eexists.
    cbn [HotDataAccessTest.base HotDataAccessTest.with_base].
    apply counts_logged_put, same_but_gen_draw, same_but_gen_refl.
Qed.

Lemma loop_run_logged type (x x' : @LoopPatternTest.t (Logging H)) :
  LoopPatternTest.runTestForCacheType type x = Ok x' ->
  exists evs,
    counts_logged type (resetStats type (LoopPatternTest.base x))
      (LoopPatternTest.base x') evs.
Proof.
  unfold LoopPatternTest.runTestForCacheType, for_range. intros Hrun.
  inv_bind Hrun. rename a into y. inv_bind Hrun. injection Hrun as <-.
  apply (loop_counts_logged LoopPatternTest.base type) in Ha.
  - apply (loop_counts_logged (fun st => LoopPatternTest.base (fst st)) type)
      in Ha0.
    + destruct Ha as (l1 & H1). destruct Ha0 as (l2 & H2).
      exists (l1 ++ l2). exact (counts_logged_trans _ _ _ _ _ _ H1 H2).
    + intros j z z' Hs. apply counts_logged_one.
      exact (loop_access_logged type j z z' Hs).
  - intros j z z' Hs. apply loop_fill_step in Hs. subst z'. eexists.
    cbn [LoopPatternTest.base LoopPatternTest.with_base].
    apply counts_logged_put, same_but_gen_refl.
Qed.

Lemma work_run_logged type (x x' : @WorkloadShiftTest.t (Logging H)) :
  WorkloadShiftTest.runTestForCacheType type x = Ok x' ->
  exists evs,
    counts_logged type (resetStats type (WorkloadShiftTest.base x))
      (WorkloadShiftTest.base x') evs.
Proof.
  unfold WorkloadShiftTest.runTestForCacheType, for_range. intros Hrun.
  inv_bind Hrun. rename a into y. inv_bind Hrun. rename a into L.
  apply (loop_counts_logged WorkloadShiftTest.base type) in Ha.
  - apply (loop_counts_logged WorkloadShiftTest.base type) in Hrun.
    + destruct Ha as (l1 & H1). destruct Hrun as (l2 & H2).
      exists (l1 ++ l2). exact (counts_logged_trans _ _ _ _ _ _ H1 H2).
    + intros j z z' Hs. apply counts_logged_one.
      exact (work_access_logged type L j z z' Hs).
  - intros j z z' Hs. apply work_fill_step in Hs. subst z'. eexists.
    cbn [WorkloadShiftTest.base WorkloadShiftTest.with_base].
    apply counts_logged_put, same_but_gen_refl.
Qed.

(** X18.  The two numbers [printResults] turns into a hit rate (lines
    180-192) are the answers of the cache: after
    [runTestForCacheType(type)] of any of the three tests,
    [operations[type]] is the number of [get] calls the cache of [type]
    served during the run and [hits[type]] the number of those that
    returned true. *)
Theorem run_counts_cache_answers (type : CacheType) :
  (forall x x' : @HotDataAccessTest.t (Logging H),
      HotDataAccessTest.runTestForCacheType type x = Ok x' ->
      exists evs,
        trace type (HotDataAccessTest.base x')
        = trace type (HotDataAccessTest.base x) ++ evs /\
        operations (HotDataAccessTest.base x') type
        = count_events is_get evs /\
        hits (HotDataAccessTest.base x') type = count_events is_hit evs) /\
  (forall x x' : @LoopPatternTest.t (Logging H),
      LoopPatternTest.runTestForCacheType type x = Ok x' ->
      exists evs,
        trace type (LoopPatternTest.base x')
        = trace type (LoopPatternTest.base x) ++ evs /\
        operations (LoopPatternTest.base x') type
        = count_events is_get evs /\
        hits (LoopPatternTest.base x') type = count_events is_hit evs) /\
  (forall x x' : @WorkloadShiftTest.t (Logging H),
      WorkloadShiftTest.runTestForCacheType type x = Ok x' ->
      exists evs,
        trace type (WorkloadShiftTest.base x')
        = trace type (WorkloadShiftTest.base x) ++ evs /\
        operations (WorkloadShiftTest.base x') type
        = count_events is_get evs /\
        hits (WorkloadShiftTest.base x') type = count_events is_hit evs).
Proof.
  split; [|split]; intros x x' Hrun.
  - destruct (hot_run_logged type x x' Hrun) as (evs & Hevs).
    exists evs. now apply counts_logged_run.
  - destruct (loop_run_logged type x x' Hrun) as (evs & Hevs).
    exists evs. now apply counts_logged_run.
  - destruct (work_run_logged type x x' Hrun) as (evs & Hevs).
    exists evs. now apply counts_logged_run.
Qed.
End LoggedCounts.

Lemma run_counts_cache_answers_witness :
  exists evs,
    trace LRU (HotDataAccessTest.base (hot_small_end 200))
    = trace LRU (HotDataAccessTest.base (hot_small 200)) ++ evs /\
    operations (HotDataAccessTest.base (hot_small_end 200)) LRU
    = count_events is_get evs /\
    hits (HotDataAccessTest.base (hot_small_end 200)) LRU
    = count_events is_hit evs.
Proof.
  destruct (run_counts_cache_answers (H:=linked) LRU) as (Hhot & _ & _).
  apply Hhot. vm_compute. reflexivity.
Defined.

(** ** [LoopPatternTest]: the scan position in closed form *)

Lemma scans_closed_form (s : Z) (n : nat) :
  0 <= s <= 100 ->
  scans s n = s * (Z.of_nat n / 100) + Z.min (Z.of_nat n mod 100) s.
Proof.
  intros Hs. induction n as [|m IH].
  - cbn [scans]. change (Z.of_nat 0) with 0.
    rewrite Z.div_0_l, Z.mod_0_l by lia. lia.
  - cbn [scans]. rewrite IH. rewrite Nat2Z.inj_succ.
    unfold Z.succ.
    pose proof (Z.div_mod (Z.of_nat m) 100 ltac:(lia)) as Hm.
    pose proof (Z.mod_pos_bound (Z.of_nat m) 100 ltac:(lia)) as Hr.
    pose proof (Z.div_mod (Z.of_nat m + 1) 100 ltac:(lia)) as Hm'.
    pose proof (Z.mod_pos_bound (Z.of_nat m + 1) 100 ltac:(lia)) as Hr'.
    destruct (Z.ltb_spec (Z.of_nat m mod 100) s);
      destruct (Z.eq_dec (Z.of_nat m mod 100) 99) as [E|E].
    + assert ((Z.of_nat m + 1) / 100 = Z.of_nat m / 100 + 1 /\
              (Z.of_nat m + 1) mod 100 = 0) as (-> & ->) by lia.
      lia.
    + assert ((Z.of_nat m + 1) / 100 = Z.of_nat m / 100 /\
              (Z.of_nat m + 1) mod 100 = Z.of_nat m mod 100 + 1)
        as (-> & ->) by lia.
      lia.
    + assert ((Z.of_nat m + 1) / 100 = Z.of_nat m / 100 + 1 /\
              (Z.of_nat m + 1) mod 100 = 0) as (-> & ->) by lia.
      lia.
    + assert ((Z.of_nat m + 1) / 100 = Z.of_nat m / 100 /\
              (Z.of_nat m + 1) mod 100 = Z.of_nat m mod 100 + 1)
        as (-> & ->) by lia.
      lia.
Qed.

Section LoopScan.
Context {H : Harness}.
Import LoopPatternTest.

Local Abbreviation T := (@t (Logging H)).

(** X19.  The sequential scan of [LoopPatternTest] in closed form (lines
    305-311).  [current_pos] advances only at the operations with
    [op % 100 < sequentialRatio], so in each aligned block of 100
    operations it advances [sequentialRatio] times: the sequential
    operation [op] reads the key
    [(sequentialRatio * (op / 100) + op % 100) % loopSize], whatever the
    generator yields.  With [sequentialRatio == 100] the access phase
    reads [op % loopSize] at every operation and does not depend on the
    seed.  Stated for a run that completes, with
    [1 <= loopSize <= 2^30], both ratios in [[0, 100]] and their sum at
    most 100, as the two setters leave them. *)
Theorem loop_scan_closed_form (type : CacheType) (x x' : T) :
  ratios_ok x ->
  1 <= loopSize x <= 2 ^ 30 ->
  runTestForCacheType type x = Ok x' ->
  exists gets,
    trace type (base x')
    = trace type (base x) ++ loop_fill_events (Z.to_nat (loopSize x)) ++ gets /\
    length gets = Z.to_nat (TestConfig.operations (config (base x))) /\
    (forall op,
        0 <= op < TestConfig.operations (config (base x)) ->
        op mod 100 < sequentialRatio x ->
        exists r,
          nth_error gets (Z.to_nat op)
          = Some (EvGet ((sequentialRatio x * (op / 100) + op mod 100)
                         mod loopSize x) r)) /\
    (sequentialRatio x = 100 ->
     forall op,
       0 <= op < TestConfig.operations (config (base x)) ->
       exists r,
         nth_error gets (Z.to_nat op) = Some (EvGet (op mod loopSize x) r)).
Proof.
  intros Hrat HL Hrun.
  pose proof Hrat as (Hs & _).
  apply loop_run_trace in Hrun; auto.
  destruct Hrun as (gets & Htr & Hlen & Hg).
  assert (Hseq : forall op,
             0 <= op < TestConfig.operations (config (base x)) ->
             op mod 100 < sequentialRatio x ->
             exists r,
               nth_error gets (Z.to_nat op)
               = Some (EvGet ((sequentialRatio x * (op / 100) + op mod 100)
                              mod loopSize x) r)).
  { intros op Hop Hlt.
    destruct (Hg (Z.to_nat op)) as (e & He & k & r & -> & Hk); [lia|].
    rewrite Z2Nat.id in Hk by lia. unfold loop_key in Hk.
    destruct (Z.ltb_spec (op mod 100) (sequentialRatio x)); [|lia].
    rewrite scans_closed_form in Hk by assumption.
    rewrite Z2Nat.id in Hk by lia.
    rewrite Z.min_l in Hk by lia. exists r. now rewrite He, Hk. }
  exists gets. split; [exact Htr|]. split; [exact Hlen|].
  split; [exact Hseq|].
  intros Hfull op Hop.
  pose proof (Z.mod_pos_bound op 100 ltac:(lia)) as Hr.
  destruct (Hseq op Hop) as (r & Hnth); [lia|].
  exists r. rewrite Hnth, Hfull. do 3 f_equal.
  pose proof (Z.div_mod op 100 ltac:(lia)). lia.
Qed.
End LoopScan.

Lemma loop_scan_closed_form_witness :
  exists gets,
    trace LRU (LoopPatternTest.base (loop_small_end 60 300))
    = trace LRU (LoopPatternTest.base (loop_small 60 300))
      ++ loop_fill_events 60 ++ gets /\
    exists r, nth_error gets 205 = Some (EvGet 5 r).
Proof.
  destruct (loop_scan_closed_form (H:=linked) LRU (loop_small 60 300)
              (loop_small_end 60 300)) as (gets & Htr & _ & Hseq & _).
  - apply loop_reachable_ratios, loop_small_reachable; reflexivity.
  - split; vm_compute; discriminate.
  - vm_compute. reflexivity.
  - exists gets. split; [exact Htr|].
    destruct (Hseq 205) as (r & Hr).
    + split; vm_compute; [discriminate|reflexivity].
    + reflexivity.
    + exists r. exact Hr.
Defined.
